(** * secure-unlocker: the control API (src/index.ts) and the per-volume
      unlock unit (module.nix), embedded and checked against the specification.

    Layout: the definitions come first, one module per layer
    - [Sha256]     the digest behind [createHash('sha256')];
    - [JS]         the JavaScript values and built-ins index.ts calls;
    - [Express]    requests and responses as a middleware sees them;
    - [Effects]    the asynchronous calls of the handlers as a program tree,
                   run against an arbitrary host;
    - [RateLimit]  the limiter the two [rateLimit({...})] calls configure;
    - [Server]     index.ts itself;
    - [Unit]       the unlock and cleanup scripts and the unit of module.nix;
    - [Spec]       the canonical message in the words of the specification;
    - [Demo]       concrete hosts, keys and requests;
    - [Statements] the predicates the theorems are stated with;
    and the theorems follow, grouped by the property they settle. *)

From Stdlib Require Import ZArith Lia Ascii String List Bool.
From stdpp Require Import base gmap strings list pretty.
Set Warnings "-register-all".
Local Open Scope Z_scope.

(* ===================================================================== *)
(** ** SHA-256 (FIPS 180-4), on bytes held as [Z] in [0, 255] *)
(* ===================================================================== *)

Module Sha256.

Definition w32 (x : Z) : Z := Z.land x 0xFFFFFFFF.
Definition add32 (x y : Z) : Z := w32 (x + y).
Definition rotr (n x : Z) : Z :=
  Z.lor (Z.shiftr x n) (w32 (Z.shiftl x (32 - n))).
Definition not32 (x : Z) : Z := Z.lxor x 0xFFFFFFFF.

Definition Ch (x y z : Z) : Z := Z.lxor (Z.land x y) (Z.land (not32 x) z).
Definition Maj (x y z : Z) : Z :=
  Z.lxor (Z.lxor (Z.land x y) (Z.land x z)) (Z.land y z).
Definition Sigma0 (x : Z) : Z :=
  Z.lxor (Z.lxor (rotr 2 x) (rotr 13 x)) (rotr 22 x).
Definition Sigma1 (x : Z) : Z :=
  Z.lxor (Z.lxor (rotr 6 x) (rotr 11 x)) (rotr 25 x).
Definition sigma0 (x : Z) : Z :=
  Z.lxor (Z.lxor (rotr 7 x) (rotr 18 x)) (Z.shiftr x 3).
Definition sigma1 (x : Z) : Z :=
  Z.lxor (Z.lxor (rotr 17 x) (rotr 19 x)) (Z.shiftr x 10).

(** The constants are the ones FIPS 180-4 defines by arithmetic: the
    first 32 bits of the fractional parts of the cube roots (for [K]) and
    of the square roots (for [H0]) of the first primes. *)
Definition is_prime (n : Z) : bool :=
  forallb (fun d => negb (n mod d =? 0)) (seqZ 2 (n - 2)).

Definition primes (bound : Z) : list Z :=
  List.filter is_prime (seqZ 2 (bound - 1)).

(** the largest [r] below [2 ^ bits] with [r ^ 3 <= n], bit by bit *)
Fixpoint cube_root (bits : nat) (n r : Z) : Z :=
  match bits with
  | O => r
  | S b =>
      let r' := r + 2 ^ Z.of_nat b in
      cube_root b n (if r' * r' * r' <=? n then r' else r)
  end.

Definition K : list Z :=
  Eval vm_compute in
    map (fun p => w32 (cube_root 40 (p * 2 ^ 96) 0)) (primes 311).

Definition H0 : list Z :=
  Eval vm_compute in
    map (fun p => w32 (Z.sqrt (p * 2 ^ 64))) (primes 19).

(** The message schedule; [win] holds the last sixteen words, oldest first. *)
Fixpoint schedule (n : nat) (win : list Z) : list Z :=
  match n with
  | O => []
  | S n' =>
      let w := add32 (add32 (sigma1 (nth 14 win 0)) (nth 9 win 0))
                     (add32 (sigma0 (nth 1 win 0)) (nth 0 win 0)) in
      w :: schedule n' (tl win ++ [w])
  end.

Definition round (s : list Z) (k w : Z) : list Z :=
  match s with
  | [a; b; c; d; e; f; g; h] =>
      let t1 := add32 (add32 (add32 h (Sigma1 e)) (add32 (Ch e f g) k)) w in
      let t2 := add32 (Sigma0 a) (Maj a b c) in
      [add32 t1 t2; a; b; c; add32 d t1; e; f; g]
  | _ => s
  end.

Fixpoint rounds (ks ws : list Z) (s : list Z) : list Z :=
  match ks, ws with
  | k :: ks', w :: ws' => rounds ks' ws' (round s k w)
  | _, _ => s
  end.

Fixpoint be32 (bs : list Z) : list Z :=
  match bs with
  | b0 :: b1 :: b2 :: b3 :: r =>
      (Z.shiftl b0 24 + Z.shiftl b1 16 + Z.shiftl b2 8 + b3) :: be32 r
  | _ => []
  end.

Definition compress (h : list Z) (block : list Z) : list Z :=
  let w16 := be32 block in
  zip_with add32 h (rounds K (w16 ++ schedule 48 w16) h).

Definition pad (msg : list Z) : list Z :=
  let l := Z.of_nat (length msg) in
  let bits := 8 * l in
  msg ++ [0x80] ++ repeat 0 (Z.to_nat ((55 - l) mod 64))
      ++ map (fun i => Z.land (Z.shiftr bits (8 * i)) 0xFF)
             [7; 6; 5; 4; 3; 2; 1; 0].

Fixpoint blocks (n : nat) (h : list Z) (bs : list Z) : list Z :=
  match n with
  | O => h
  | S n' => blocks n' (compress h (take 64 bs)) (drop 64 bs)
  end.

Definition digest (msg : list Z) : list Z :=
  let p := pad msg in
  flat_map
    (fun w => map (fun i => Z.land (Z.shiftr w (8 * i)) 0xFF) [3; 2; 1; 0])
    (blocks (length p / 64)%nat H0 p).

End Sha256.

(* ===================================================================== *)
(** ** JavaScript values and built-ins used by index.ts

    A JavaScript string is a [string] of UTF-16 code units; the model keeps
    the code units U+0000..U+00FF, one [ascii] each.  That is the whole
    range of a header value (Node decodes headers as Latin-1) and of the
    hexadecimal, decimal and JSON punctuation the service handles.  A number
    is a [Z]: every number the code computes with is an integer (seconds,
    lengths), and the comparison against the 300 second window gives the
    same answer on doubles as on the integers they round. *)
(* ===================================================================== *)

Module JS.

Definition code (c : ascii) : Z := Z.of_nat (nat_of_ascii c).
Definition char (n : Z) : ascii := ascii_of_nat (Z.to_nat n).

Definition chars (s : string) : list ascii := list_ascii_of_string s.

(** [a === b] on strings *)
Definition seq (a b : string) : bool := String.eqb a b.

(** [String.prototype.startsWith] *)
Definition startsWith (s p : string) : bool := String.prefix p s.

(** [String.prototype.toLowerCase] on U+0000..U+00FF: the letters A-Z and
    the Latin-1 capitals U+00C0..U+00DE (U+00D7, the multiplication sign, is
    not a letter) move up by 32; everything else stays. *)
Definition lower_char (c : ascii) : ascii :=
  let n := code c in
  if ((65 <=? n) && (n <=? 90))
     || ((192 <=? n) && (n <=? 222) && negb (n =? 215))
  then char (n + 32) else c.

Fixpoint toLowerCase (s : string) : string :=
  match s with
  | EmptyString => EmptyString
  | String c r => String (lower_char c) (toLowerCase r)
  end.

(** WhiteSpace and LineTerminator code points below U+0100. *)
Definition is_space (c : ascii) : bool :=
  let n := code c in
  ((9 <=? n) && (n <=? 13)) || (n =? 32) || (n =? 160).

Fixpoint trimStart (s : string) : string :=
  match s with
  | String c r => if is_space c then trimStart r else s
  | EmptyString => EmptyString
  end.

(** the part of [s] up to its last non-space character *)
Fixpoint trimEnd (s : string) : string :=
  match s with
  | EmptyString => EmptyString
  | String c r =>
      match trimEnd r with
      | EmptyString => if is_space c then EmptyString else String c EmptyString
      | r' => String c r'
      end
  end.

(** [String.prototype.trim] *)
Definition trim (s : string) : string := trimEnd (trimStart s).

Definition digit (c : ascii) : option Z :=
  let n := code c in
  if (48 <=? n) && (n <=? 57) then Some (n - 48) else None.

Definition is_digit (c : ascii) : bool :=
  match digit c with Some _ => true | None => false end.

(** the value of the longest prefix of decimal digits, and whether there
    was one *)
Fixpoint digits (acc : Z) (seen : bool) (s : string) : option Z :=
  match s with
  | String c r =>
      match digit c with
      | Some d => digits (10 * acc + d) true r
      | None => if seen then Some acc else None
      end
  | EmptyString => if seen then Some acc else None
  end.

(** [parseInt(s, 10)]: leading white space is skipped, one sign is read,
    then the longest run of decimal digits; what follows is ignored.  [None]
    is NaN (no digit at all). *)
Definition parseInt (s : string) : option Z :=
  match trimStart s with
  | String "-" r => Z.opp <$> digits 0 false r
  | String "+" r => digits 0 false r
  | r => digits 0 false r
  end.

(** [Math.abs] *)
Definition Math_abs (x : Z) : Z := Z.abs x.

(** A value of a hexadecimal digit, either case. *)
Definition unhex (c : ascii) : option Z :=
  let n := code c in
  if (48 <=? n) && (n <=? 57) then Some (n - 48)
  else if (97 <=? n) && (n <=? 102) then Some (n - 87)
  else if (65 <=? n) && (n <=? 70) then Some (n - 55)
  else None.

(** [Buffer.from(s, 'hex')]: whole pairs of hexadecimal digits are decoded
    until the first pair that is not; nothing is thrown. *)
Fixpoint Buffer_from_hex (s : string) : list Z :=
  match s with
  | String c1 (String c2 r) =>
      match unhex c1, unhex c2 with
      | Some a, Some b => (16 * a + b) :: Buffer_from_hex r
      | _, _ => []
      end
  | _ => []
  end.

(** [Buffer.from(s, 'utf8')], also what [hash.update(s)] feeds the digest:
    a code unit below U+0080 is one byte, one in U+0080..U+00FF two. *)
Definition utf8_char (c : ascii) : list Z :=
  let n := code c in
  if n <? 128 then [n]
  else [Z.lor 0xC0 (Z.shiftr n 6); Z.lor 0x80 (Z.land n 0x3F)].

Definition Buffer_from_utf8 (s : string) : list Z :=
  flat_map utf8_char (chars s).

Definition hexdigit (n : Z) : ascii :=
  char (if n <? 10 then 48 + n else 87 + n).

(** [buf.toString('hex')] / [digest('hex')]: lower-case hexadecimal *)
Fixpoint to_hex (bs : list Z) : string :=
  match bs with
  | [] => EmptyString
  | b :: r =>
      String (hexdigit (Z.shiftr b 4)) (String (hexdigit (Z.land b 15)) (to_hex r))
  end.

(** [createHash('sha256').update(s).digest('hex')] *)
Definition sha256_hex (s : string) : string :=
  to_hex (Sha256.digest (Buffer_from_utf8 s)).

(** *** Values parsed from JSON *)

(** What [JSON.parse] can build: an object is the list of its own
    properties in enumeration order, without repeated keys; a number is an
    integer of magnitude at most 2^53 (the integers a double holds exactly,
    which JavaScript prints in plain decimal). *)
Inductive json : Type :=
| JNull
| JBool (b : bool)
| JNum (n : Z)
| JStr (s : string)
| JArr (items : list json)
| JObj (props : list (string * json)).

(** A JavaScript value that may be [undefined]. *)
Definition value := option json.

(** ToBoolean: [!v] is [negb (truthy v)] *)
Definition truthy (v : value) : bool :=
  match v with
  | None | Some JNull => false
  | Some (JBool b) => b
  | Some (JNum n) => negb (n =? 0)
  | Some (JStr s) => negb (seq s EmptyString)
  | Some (JArr _) | Some (JObj _) => true
  end.

(** [Object.keys(v).length] for a value that is neither null nor undefined:
    the own enumerable properties, that is the members of an object, the
    indices of an array or of a string, none for a number or a boolean. *)
Definition Object_keys_length (v : json) : Z :=
  match v with
  | JObj props => Z.of_nat (length props)
  | JArr items => Z.of_nat (length items)
  | JStr s => Z.of_nat (String.length s)
  | JNull | JBool _ | JNum _ => 0
  end.

(** [v.key] for an own property of a parsed value ([undefined] otherwise;
    the handlers only read [password]). *)
Fixpoint lookup_prop (key : string) (props : list (string * json)) : value :=
  match props with
  | [] => None
  | (k, v) :: r => if seq k key then Some v else lookup_prop key r
  end.

Definition get_prop (key : string) (v : json) : value :=
  match v with
  | JObj props => lookup_prop key props
  | _ => None
  end.

Definition hex4 (n : Z) : string :=
  String (hexdigit (Z.land (Z.shiftr n 12) 15))
    (String (hexdigit (Z.land (Z.shiftr n 8) 15))
       (String (hexdigit (Z.land (Z.shiftr n 4) 15))
          (String (hexdigit (Z.land n 15)) EmptyString))).

(** QuoteJSONString, one code unit *)
Definition quote_char (c : ascii) : string :=
  let n := code c in
  if n =? 34 then String "\" (String c EmptyString)
  else if n =? 92 then "\\"
  else if n =? 8 then "\b"
  else if n =? 12 then "\f"
  else if n =? 10 then "\n"
  else if n =? 13 then "\r"
  else if n =? 9 then "\t"
  else if n <? 32 then "\u" +:+ hex4 n
  else String c EmptyString.

Fixpoint quote_body (s : string) : string :=
  match s with
  | EmptyString => EmptyString
  | String c r => quote_char c +:+ quote_body r
  end.

Definition dquote : string := String (char 34) EmptyString.

Definition quote (s : string) : string := dquote +:+ quote_body s +:+ dquote.

Definition join (sep : string) (l : list string) : string :=
  String.concat sep l.

(** [JSON.stringify(v)] with no indentation: members in enumeration order,
    separated by one comma, a key and its value by one colon. *)
Fixpoint JSON_stringify (v : json) : string :=
  match v with
  | JNull => "null"
  | JBool true => "true"
  | JBool false => "false"
  | JNum n => pretty n
  | JStr s => quote s
  | JArr items => "[" +:+ join "," (map JSON_stringify items) +:+ "]"
  | JObj props =>
      "{" +:+ join ","
                (map (fun kv => quote (fst kv) +:+ ":" +:+ JSON_stringify (snd kv))
                     props)
          +:+ "}"
  end.

(** ToString, as in [password + '\n']: an array joins the strings of its
    elements with commas, null elements giving the empty string; a plain
    object is ["[object Object]"], unless it has a member [toString] of its
    own: a parsed member is no function, [Object.prototype.valueOf]
    returns the object, and the conversion throws a TypeError ([None]).
    Neither a member [valueOf] nor what the other members hold matters. *)
Fixpoint ToString (v : json) : option string :=
  match v with
  | JNull => Some "null"
  | JBool true => Some "true"
  | JBool false => Some "false"
  | JNum n => Some (pretty n)
  | JStr s => Some s
  | JArr items =>
      join ","
        <$> (fix elements (l : list json) : option (list string) :=
               match l with
               | [] => Some []
               | x :: r =>
                   match (match x with JNull => Some EmptyString | _ => ToString x end),
                         elements r with
                   | Some s, Some rest => Some (s :: rest)
                   | _, _ => None
                   end
               end) items
  | JObj props =>
      if existsb (fun kv => seq (fst kv) "toString") props then None
      else Some "[object Object]"
  end.

(** *** [JSON.parse], on the texts the examples below need

    A recursive-descent reader for JSON texts made of objects, arrays,
    strings of printable ASCII with the two-character escapes, integers up
    to 2^53 in magnitude, [true], [false] and [null].  [Some v] is the value
    JavaScript builds from the text; [None] stands for every other text (a
    syntax error, or a text outside this fragment: a [\u] escape, a
    fraction or an exponent, a byte above 0x7F, an object with a repeated
    key or with a key that starts with a digit, for which JavaScript orders
    the properties differently).  Only [Some] results are relied upon. *)

Definition is_json_ws (c : ascii) : bool :=
  let n := code c in (n =? 32) || (n =? 9) || (n =? 10) || (n =? 13).

Fixpoint skip_ws (s : string) : string :=
  match s with
  | String c r => if is_json_ws c then skip_ws r else s
  | EmptyString => EmptyString
  end.

Definition unescape (c : ascii) : option ascii :=
  let n := code c in
  if (n =? 34) || (n =? 92) || (n =? 47) then Some c
  else if n =? 98 then Some (char 8)
  else if n =? 102 then Some (char 12)
  else if n =? 110 then Some (char 10)
  else if n =? 114 then Some (char 13)
  else if n =? 116 then Some (char 9)
  else None.

(** the characters of a string literal, read from just after its opening
    quote, and what follows its closing quote *)
Fixpoint parse_chars (s : string) : option (string * string) :=
  match s with
  | EmptyString => None
  | String c r =>
      let n := code c in
      if n =? 34 then Some (EmptyString, r)
      else if n =? 92 then
        match r with
        | String e r' =>
            match unescape e, parse_chars r' with
            | Some c', Some (str, rest) => Some (String c' str, rest)
            | _, _ => None
            end
        | EmptyString => None
        end
      else if (n <? 32) || (127 <? n) then None
      else match parse_chars r with
           | Some (str, rest) => Some (String c str, rest)
           | None => None
           end
  end.

Fixpoint parse_digits (acc : Z) (s : string) : Z * string :=
  match s with
  | String c r =>
      match digit c with
      | Some d => parse_digits (10 * acc + d) r
      | None => (acc, s)
      end
  | EmptyString => (acc, s)
  end.

(** an integer literal without its sign: a lone [0], or a non-zero digit
    and more digits; no fraction or exponent may follow *)
Definition parse_nat (s : string) : option (Z * string) :=
  match s with
  | String c r =>
      match digit c with
      | Some d =>
          let '(n, rest) := if d =? 0 then (0, r) else parse_digits d r in
          match rest with
          | String c' _ =>
              if is_digit c' || (code c' =? 46) || (code c' =? 101)
                 || (code c' =? 69)
              then None
              else if n <=? 2 ^ 53 then Some (n, rest) else None
          | EmptyString => if n <=? 2 ^ 53 then Some (n, rest) else None
          end
      | None => None
      end
  | EmptyString => None
  end.

Definition strip_prefix (p s : string) : option string :=
  if String.prefix p s
  then Some (String.substring (String.length p) (String.length s - String.length p) s)
  else None.

Definition key_ok (seen : list (string * json)) (k : string) : bool :=
  negb (existsb (fun kv => seq (fst kv) k) seen)
  && match k with
     | String c _ => negb (is_digit c)
     | EmptyString => true
     end.

Fixpoint parse_value (fuel : nat) (s : string) {struct fuel}
  : option (json * string) :=
  match fuel with
  | O => None
  | S f =>
      match skip_ws s with
      | EmptyString => None
      | String c r as s' =>
          let n := code c in
          if n =? 123 then
            match skip_ws r with
            | String "}" r' => Some (JObj [], r')
            | _ => (fun x => (JObj x.1, x.2)) <$> parse_members f r []
            end
          else if n =? 91 then
            match skip_ws r with
            | String "]" r' => Some (JArr [], r')
            | _ => (fun x => (JArr x.1, x.2)) <$> parse_elements f r []
            end
          else if n =? 34 then
            (fun x => (JStr x.1, x.2)) <$> parse_chars r
          else if n =? 45 then
            (fun x => (JNum (- x.1), x.2)) <$> parse_nat r
          else if is_digit c then
            (fun x => (JNum x.1, x.2)) <$> parse_nat s'
          else match strip_prefix "true" s', strip_prefix "false" s',
                     strip_prefix "null" s' with
               | Some r', _, _ => Some (JBool true, r')
               | _, Some r', _ => Some (JBool false, r')
               | _, _, Some r' => Some (JNull, r')
               | _, _, _ => None
               end
      end
  end
with parse_elements (fuel : nat) (s : string) (acc : list json) {struct fuel}
  : option (list json * string) :=
  match fuel with
  | O => None
  | S f =>
      match parse_value f s with
      | Some (v, r) =>
          match skip_ws r with
          | String "," r' => parse_elements f r' (v :: acc)
          | String "]" r' => Some (rev (v :: acc), r')
          | _ => None
          end
      | None => None
      end
  end
with parse_members (fuel : nat) (s : string) (acc : list (string * json))
  {struct fuel} : option (list (string * json) * string) :=
  match fuel with
  | O => None
  | S f =>
      match skip_ws s with
      | String q r =>
          if code q =? 34 then
            match parse_chars r with
            | Some (k, r1) =>
                match skip_ws r1 with
                | String ":" r2 =>
                    match parse_value f r2 with
                    | Some (v, r3) =>
                        if key_ok acc k then
                          match skip_ws r3 with
                          | String "," r4 => parse_members f r4 ((k, v) :: acc)
                          | String "}" r4 => Some (rev ((k, v) :: acc), r4)
                          | _ => None
                          end
                        else None
                    | None => None
                    end
                | _ => None
                end
            | None => None
            end
          else None
      | EmptyString => None
      end
  end.

Definition JSON_parse (s : string) : option json :=
  match parse_value (S (String.length s)) s with
  | Some (v, r) =>
      match skip_ws r with
      | EmptyString => Some v
      | _ => None
      end
  | None => None
  end.

End JS.

(* ===================================================================== *)
(** ** What Express hands to a middleware, and what a middleware sends *)
(* ===================================================================== *)

Module Express.
Import JS.

(** [req]: the fields index.ts reads.  [headers] is keyed by the lower-case
    header name; [body] is [req.body], [None] for [undefined]. *)
Record Request := {
  method : string;
  originalUrl : string;
  path : string;
  headers : gmap string string;
  body : value;
  ip : string;
}.

(** [res.status(statusCode).json(payload)] *)
Record Response := {
  statusCode : Z;
  payload : json;
}.

Definition status_json (c : Z) (j : json) : Response :=
  {| statusCode := c; payload := j |}.

(** [res.json(j)]: the status stays 200 *)
Definition res_json (j : json) : Response := status_json 200 j.

(** [{ error: msg }] and [{ error: msg, message: m }] *)
Definition error_body (msg : string) : json := JObj [("error", JStr msg)].
Definition error_message_body (msg m : string) : json :=
  JObj [("error", JStr msg); ("message", JStr m)].

(** A request as it arrives: the body is the bytes the client sent, one
    [ascii] per byte. *)
Record WireRequest := {
  w_method : string;
  w_target : string;
  w_headers : gmap string string;
  w_body : string;
  w_ip : string;
}.

(** the target up to its query string *)
Fixpoint pathname (s : string) : string :=
  match s with
  | String "?" _ => EmptyString
  | String c r => String c (pathname r)
  | EmptyString => EmptyString
  end.

(** [app.use(express.json())] (index.ts line 187) on a request that
    declares [Content-Type: application/json] and whose body is a JSON text
    of the fragment [JS.JSON_parse] reads: [req.body] becomes the parsed
    value, which the parser's strict mode requires to be an object or an
    array.  [None] stands for every other request; nothing is claimed about
    those. *)
Definition express_json (w : WireRequest) : option Request :=
  match w_headers w !! "content-type" with
  | Some ct =>
      if seq ct "application/json" then
        match JSON_parse (w_body w) with
        | Some (JObj _ as v) | Some (JArr _ as v) =>
            Some {| method := w_method w; originalUrl := w_target w;
                    path := pathname (w_target w); headers := w_headers w;
                    body := Some v; ip := w_ip w |}
        | _ => None
        end
      else None
  | None => None
  end.

End Express.

(* ===================================================================== *)
(** ** The asynchronous calls of the handlers

    A handler is a tree of the calls it awaits; a host answers them.  A
    rejected promise (an exception at the [await]) is the [inl] answer. *)
(* ===================================================================== *)

Module Effects.

(** an [Error] instance; the handlers read its [message] *)
Record Error := { message : string }.

Record ExecOut := { stdout : string; stderr : string }.

Definition FileHandle := nat.

Inductive Eff : Type -> Type :=
| execAsync (cmd : string) : Eff (Error + ExecOut)
| setTimeout (ms : Z) : Eff unit
| open (path : string) (flags : Z) : Eff (Error + FileHandle)
| writeFile (fd : FileHandle) (data : string) : Eff (Error + unit)
| close (fd : FileHandle) : Eff (Error + unit).

Inductive Prog (A : Type) : Type :=
| Ret (a : A)
| Vis {X : Type} (e : Eff X) (k : X -> Prog A).
Arguments Ret {A} a.
Arguments Vis {A X} e k.

Fixpoint bind {A B} (p : Prog A) (f : A -> Prog B) : Prog B :=
  match p with
  | Ret a => f a
  | Vis e k => Vis e (fun x => bind (k x) f)
  end.

#[export] Instance prog_ret : MRet Prog := fun _ a => Ret a.
#[export] Instance prog_bind : MBind Prog := fun _ _ f p => bind p f.

(** [await e] *)
Definition await {X} (e : Eff X) : Prog X := Vis e Ret.

(** one awaited call and its answer *)
Inductive Event : Type :=
| called_exec (cmd : string) (r : Error + ExecOut)
| called_setTimeout (ms : Z)
| called_open (path : string) (flags : Z) (r : Error + FileHandle)
| called_writeFile (fd : FileHandle) (data : string) (r : Error + unit)
| called_close (fd : FileHandle) (r : Error + unit).

Definition Ev {X} (e : Eff X) : X -> Event :=
  match e in Eff X return X -> Event with
  | execAsync cmd => called_exec cmd
  | setTimeout ms => fun _ => called_setTimeout ms
  | open path flags => called_open path flags
  | writeFile fd data => called_writeFile fd data
  | close fd => called_close fd
  end.

(** A host: a state and the answer it gives to each call. *)
Record Host (W : Type) := {
  answer : forall X, Eff X -> W -> X * W;
}.
Arguments answer {W} _ {X} _ _.

(** the result of a program on a host, the calls it awaited in order, and
    the state it leaves the host in *)
Fixpoint run {W A} (h : Host W) (p : Prog A) (w : W) : A * list Event * W :=
  match p with
  | Ret a => (a, [], w)
  | Vis e k =>
      let '(x, w1) := answer h e w in
      let '(a, t, w2) := run h (k x) w1 in
      (a, Ev e x :: t, w2)
  end.

Definition result {W A} (h : Host W) (p : Prog A) (w : W) : A := (run h p w).1.1.
Definition calls {W A} (h : Host W) (p : Prog A) (w : W) : list Event :=
  (run h p w).1.2.
Definition after {W A} (h : Host W) (p : Prog A) (w : W) : W := (run h p w).2.

(** calls on a secret channel: opening it or writing to it *)
Definition is_channel_call (ev : Event) : bool :=
  match ev with
  | called_open _ _ _ | called_writeFile _ _ _ => true
  | _ => false
  end.

Definition is_write (ev : Event) : bool :=
  match ev with
  | called_writeFile _ _ _ => true
  | _ => false
  end.

(** calls that run the command [cmd] *)
Definition is_exec (cmd : string) (ev : Event) : bool :=
  match ev with
  | called_exec c _ => JS.seq c cmd
  | _ => false
  end.

(** the command [cmd] was run and failed with [error] *)
Definition failed_exec (cmd : string) (error : Error) (ev : Event) : Prop :=
  ev = called_exec cmd (inl error).

End Effects.

(* ===================================================================== *)
(** ** The limiter behind [rateLimit({...})]

    express-rate-limit is a dependency, not part of the repository; this is
    its memory store and middleware for the options index.ts passes, as
    the package documents them: one window per key, opened by the key's
    first request and [windowMs] long; every request adds a hit; a request
    whose hit count exceeds [max] is answered 429 with [message]; with
    [skipSuccessfulRequests] the hit of a request whose response has a
    status below 400 is taken back when the response is sent.  Requests are
    handled one after the other. *)
(* ===================================================================== *)

Module RateLimit.
Import JS Express Effects.

Record Options := {
  windowMs : Z;
  max : nat;
  message : json;
  skipSuccessfulRequests : bool;
}.

Record Client := { totalHits : nat; resetTime : Z }.

Definition increment (o : Options) (now : Z) (key : string)
    (s : gmap string Client) : Client * gmap string Client :=
  let c :=
    match s !! key with
    | Some c => if resetTime c <=? now
                then {| totalHits := 0; resetTime := now + windowMs o |}
                else c
    | None => {| totalHits := 0; resetTime := now + windowMs o |}
    end in
  let c' := {| totalHits := S (totalHits c); resetTime := resetTime c |} in
  (c', <[key := c']> s).

Definition decrement (key : string) (s : gmap string Client)
    : gmap string Client :=
  match s !! key with
  | Some c =>
      match totalHits c with
      | S n => <[key := {| totalHits := n; resetTime := resetTime c |}]> s
      | O => s
      end
  | None => s
  end.

(** the default [requestWasSuccessful] *)
Definition requestWasSuccessful (r : Response) : bool := statusCode r <? 400.

(** hits recorded for [key] in the window that is open at [now] *)
Definition hits (now : Z) (key : string) (s : gmap string Client) : nat :=
  match s !! key with
  | Some c => if resetTime c <=? now then O else totalHits c
  | None => O
  end.

(** The middleware over an application state [S] that holds the store
    ([get], [set]); [next] is the rest of the stack. *)
Definition rateLimit {S : Type} (o : Options)
    (get : S -> gmap string Client) (set : gmap string Client -> S -> S)
    (now : Z) (key : string) (next : S -> Prog (Response * S))
    : S -> Prog (Response * S) :=
  fun st =>
    let '(c, store) := increment o now key (get st) in
    let st1 := set store st in
    if (max o <? totalHits c)%nat then
      Ret (status_json 429 (message o), st1)
    else
      '(r, st2) ← next st1;
      if skipSuccessfulRequests o && requestWasSuccessful r
      then Ret (r, set (decrement key (get st2)) st2)
      else Ret (r, st2).

End RateLimit.

(* ===================================================================== *)
(** ** src/index.ts

    Modelled: the constants, both limiters, [verifySignature], the
    [/health], [/mount/:name] and [/unmount/:name] handlers and the order
    in which [app.use] stacks them from line 191 on.  [express.json()] and
    [express.static] run before that stack and may answer a request
    themselves; [/list], [tryListen] and the [console.log] calls are left
    out. *)
(* ===================================================================== *)

Module Server.
Import JS Express Effects RateLimit.

Definition PIPES_DIR : string := "/var/lib/secure-unlocker/pipes".
Definition SUDO : string := "/run/wrappers/bin/sudo".
Definition SYSTEMCTL : string := "/run/current-system/sw/bin/systemctl".

(** [s.split(',')] *)
Fixpoint split_comma (s : string) : list string :=
  match s with
  | EmptyString => [EmptyString]
  | String c r =>
      match split_comma r with
      | h :: t => if code c =? 44 then EmptyString :: h :: t else String c h :: t
      | [] => []
      end
  end.

(** [process.env.ALLOWED_PUBLIC_KEYS?.split(',').filter(s => s) || []]
    (line 20); [env] is the variable, [None] when it is not set. *)
Definition ALLOWED_PUBLIC_KEYS (env : option string) : list string :=
  match env with
  | Some s => filter (fun k => negb (seq k EmptyString) = true) (split_comma s)
  | None => []
  end.

(** [keys.includes(k)] *)
Definition includes (keys : list string) (k : string) : bool :=
  existsb (seq k) keys.

(** The two Node [crypto] calls of the signature check; [inl] is a throw. *)
Class Crypto := {
  KeyObject : Type;
  (** [createPublicKey({ key: der, format: 'der', type: 'spki' })] *)
  createPublicKey : list Z -> Error + KeyObject;
  (** [verify(null, message, key, signature)] *)
  verify : list Z -> KeyObject -> list Z -> Error + bool;
}.

(** what a middleware does with a request: [next()] or a response *)
Inductive Outcome :=
| next
| send (r : Response).

(** lines 46-47 *)
Definition skipsAuthentication (p : string) : bool :=
  seq p "/health" || startsWith p "/icon" || seq p "/manifest.json"
  || seq p "/sw.js" || seq p "/".

(** lines 116-121 *)
Definition spkiPrefix : list Z :=
  [ 0x30; 0x2a; 0x30; 0x05; 0x06; 0x03; 0x2b; 0x65; 0x70; 0x03; 0x21; 0x00 ].

(** line 89 *)
Definition bodyStr (b : value) : string :=
  match b with
  | Some v =>
      if truthy b && (0 <? Object_keys_length v) then JSON_stringify v
      else EmptyString
  | None => EmptyString
  end.

(** line 90 *)
Definition bodyHash (b : value) : string := sha256_hex (bodyStr b).

(** line 92 *)
Definition message (req : Request) (timestamp : string) : string :=
  method req +:+ ":" +:+ originalUrl req +:+ ":" +:+ timestamp +:+ ":"
  +:+ bodyHash (body req).

Definition authentication_failed : Response :=
  status_json 401 (error_body "Authentication failed").

(** a header that is present and not the empty string *)
Definition header (req : Request) (name : string) : option string :=
  match headers req !! name with
  | Some v => if seq v EmptyString then None else Some v
  | None => None
  end.

Section verifySignature.
Context `{Crypto}.
Variable allowed : list string.   (* the value of ALLOWED_PUBLIC_KEYS *)
Variable Date_now : Z.            (* Date.now(), in milliseconds *)

(** the [try] block, lines 67-145; [inl] is an exception reaching [catch] *)
Definition verifySignature_try (req : Request)
    (signature timestamp publicKey : string) : Error + Outcome :=
  if negb (includes allowed (toLowerCase publicKey)) then
    inr (send authentication_failed)
  else
    let now := Date_now / 1000 in
    match parseInt timestamp with
    | None => inr (send authentication_failed)
    | Some requestTimestamp =>
        if 300 <? Math_abs (now - requestTimestamp) then
          inr (send authentication_failed)
        else
          let signatureBuffer := Buffer_from_hex signature in
          let messageBuffer := Buffer_from_utf8 (message req timestamp) in
          let rawPublicKey := Buffer_from_hex publicKey in
          let derPublicKey := spkiPrefix ++ rawPublicKey in
          match createPublicKey derPublicKey with
          | inl error => inl error
          | inr keyObject =>
              match verify messageBuffer keyObject signatureBuffer with
              | inl error => inl error
              | inr verified =>
                  if negb verified then inr (send authentication_failed)
                  else inr next
              end
          end
    end.

(** lines 44-150 *)
Definition verifySignature (req : Request) : Outcome :=
  if skipsAuthentication (path req) then next
  else if Z.of_nat (length allowed) =? 0 then
    send (status_json 503 (error_body "Authentication not configured"))
  else
    match header req "x-signature", header req "x-timestamp",
          header req "x-public-key" with
    | Some signature, Some timestamp, Some publicKey =>
        match verifySignature_try req signature timestamp publicKey with
        | inr o => o
        | inl error =>
            send (status_json 401 (error_body "Signature verification failed"))
        end
    | _, _, _ =>
        send (status_json 401 (error_body "Missing authentication headers"))
    end.

End verifySignature.

(** *** The handlers *)

Definition unit_name (name : string) : string :=
  "secure-unlocker-" +:+ name +:+ ".service".

Definition is_active_cmd (name : string) : string :=
  SUDO +:+ " " +:+ SYSTEMCTL +:+ " is-active " +:+ unit_name name.
Definition reset_failed_cmd (name : string) : string :=
  SUDO +:+ " " +:+ SYSTEMCTL +:+ " reset-failed " +:+ unit_name name
  +:+ " 2>/dev/null || true".
Definition start_cmd (name : string) : string :=
  SUDO +:+ " " +:+ SYSTEMCTL +:+ " start " +:+ unit_name name.
Definition stop_cmd (name : string) : string :=
  SUDO +:+ " " +:+ SYSTEMCTL +:+ " stop " +:+ unit_name name.

Definition name_char (c : ascii) : bool :=
  let n := code c in
  ((97 <=? n) && (n <=? 122)) || ((65 <=? n) && (n <=? 90))
  || ((48 <=? n) && (n <=? 57)) || (n =? 46) || (n =? 95) || (n =? 45).

(** [/^[a-zA-Z0-9._-]+$/.test(name)] *)
Definition nameRegex_test (name : string) : bool :=
  negb (seq name EmptyString) && forallb name_char (chars name).

Definition invalid_name : Response :=
  status_json 400 (error_body
    "Invalid name format. Only alphanumeric characters, dots, hyphens, and underscores are allowed.").

Definition O_WRONLY : Z := 1.
Definition O_NONBLOCK : Z := 2048.

Definition newline : string := String (char 10) EmptyString.

(** [stdout.trim() === 'active'] for an answer of [execAsync]; a rejected
    call gives no [stdout] *)
Definition reports_active (r : Error + ExecOut) : bool :=
  match r with
  | inr out => seq (trim (stdout out)) "active"
  | inl _ => false
  end.

Definition write_failed (error : Error) : Response :=
  status_json 500 (error_message_body "Failed to write to pipe" (Effects.message error)).
Definition start_failed (error : Error) : Response :=
  status_json 500
    (error_message_body "Failed to start mount service" (Effects.message error)).
Definition unmount_failed (error : Error) : Response :=
  status_json 500 (error_message_body "Failed to unmount" (Effects.message error)).

Definition success : Response := res_json (JObj [("success", JBool true)]).

(** the TypeError of [const { password } = req.body] when [req.body] is
    [undefined] or [null] *)
Definition destructure_undefined : Error :=
  {| Effects.message :=
       "Cannot destructure property 'password' of 'req.body' as it is undefined." |}.
Definition destructure_null : Error :=
  {| Effects.message :=
       "Cannot destructure property 'password' of 'req.body' as it is null." |}.

(** the TypeError of [password + '\n'] for a password that has no string *)
Definition cannot_convert : Error :=
  {| Effects.message := "Cannot convert object to primitive value" |}.

Definition already_mounted : Response :=
  status_json 400 (error_body "Already mounted").
Definition not_active : Response :=
  status_json 400 (error_body "Mount is not active").
Definition password_required : Response :=
  status_json 400 (error_body "Password is required in request body").

Definition pipePath (name : string) : string := PIPES_DIR +:+ "/" +:+ name.

(** lines 250-288 of the mount handler: what it does once [name] and
    [password] have passed validation *)
Definition mount_after_validation (name : string) (password : json)
    : Prog Response :=
  (* Check if already mounted *)
  status ← await (execAsync (is_active_cmd name));
  if reports_active status then Ret already_mounted
  else
    (* Ensure the service is running and waiting for the password *)
    reset ← await (execAsync (reset_failed_cmd name));
    match reset with
    | inl error => Ret (start_failed error)
    | inr _ =>
        started ← await (execAsync (start_cmd name));
        match started with
        | inl error => Ret (start_failed error)
        | inr _ =>
            _ ← await (setTimeout 500);
            (* Open the pipe in non-blocking write mode *)
            opened ← await (open (pipePath name) (Z.lor O_WRONLY O_NONBLOCK));
            match opened with
            | inl error => Ret (write_failed error)
            | inr fd =>
                match ToString password with   (* password + '\n' *)
                | None =>
                    closed ← await (close fd);   (* finally *)
                    match closed with
                    | inl error => Ret (write_failed error)
                    | inr _ => Ret (write_failed cannot_convert)
                    end
                | Some secret =>
                    written ← await (writeFile fd (secret +:+ newline));
                    closed ← await (close fd);   (* finally *)
                    match closed, written with
                    | inl error, _ => Ret (write_failed error)
                    | inr _, inl error => Ret (write_failed error)
                    | inr _, inr _ => Ret success
                    end
                end
            end
        end
    end.

(** [app.post('/mount/:name', ...)], lines 233-295; [name] is
    [req.params.name] *)
Definition mountHandler (req : Request) (name : string) : Prog Response :=
  match body req with
  | None => Ret (write_failed destructure_undefined)
  | Some JNull => Ret (write_failed destructure_null)
  | Some b =>
      let password := get_prop "password" b in
      if negb (nameRegex_test name) then Ret invalid_name
      else
        match password with
        | Some pw =>
            if negb (truthy password) then Ret password_required
            else mount_after_validation name pw
        | None => Ret password_required
        end
  end.

(** [app.post('/unmount/:name', ...)], lines 297-330 *)
Definition unmountHandler (req : Request) (name : string) : Prog Response :=
  if negb (nameRegex_test name) then Ret invalid_name
  else
    status ← await (execAsync (is_active_cmd name));
    if negb (reports_active status) then Ret not_active
    else
      stopped ← await (execAsync (stop_cmd name));
      match stopped with
      | inl error => Ret (unmount_failed error)
      | inr _ => Ret success
      end.

(** [app.get('/health', ...)] *)
Definition healthHandler : Prog Response :=
  Ret (res_json (JObj [("status", JStr "ok")])).

(** *** The stack *)

(** the two stores, one per [rateLimit] instance *)
Record AppState := {
  authFailures : gmap string Client;
  mountFailures : gmap string Client;
}.

Definition set_authFailures (s : gmap string Client) (st : AppState) : AppState :=
  {| authFailures := s; mountFailures := mountFailures st |}.
Definition set_mountFailures (s : gmap string Client) (st : AppState) : AppState :=
  {| authFailures := authFailures st; mountFailures := s |}.

(** lines 24-31 *)
Definition authFailureOptions : Options :=
  {| windowMs := 15 * 60 * 1000;
     max := 20%nat;
     RateLimit.message := error_body "Too many failed authentication attempts, please try again later";
     skipSuccessfulRequests := true |}.

(** lines 34-41 *)
Definition mountOptions : Options :=
  {| windowMs := 15 * 60 * 1000;
     max := 10%nat;
     RateLimit.message := error_body "Too many failed mount attempts, please try again later";
     skipSuccessfulRequests := true |}.

Definition authFailureLimiter :=
  rateLimit authFailureOptions authFailures set_authFailures.
Definition mountLimiter :=
  rateLimit mountOptions mountFailures set_mountFailures.

(** a handler, as the last element of the stack *)
Definition handler (h : Prog Response) : AppState -> Prog (Response * AppState) :=
  fun st => r ← h; Ret (r, st).

(** the routes with a handler in this model *)
Inductive Route :=
| GET_health
| POST_mount (name : string)
| POST_unmount (name : string).

Section app.
Context `{Crypto}.
Variable allowed : list string.

(** what follows [verifySignature] for a request Express routes to [r] *)
Definition route (Date_now : Z) (req : Request) (r : Route)
    : AppState -> Prog (Response * AppState) :=
  match r with
  | GET_health => handler healthHandler
  | POST_mount name => mountLimiter Date_now (ip req) (handler (mountHandler req name))
  | POST_unmount name =>
      mountLimiter Date_now (ip req) (handler (unmountHandler req name))
  end.

(** lines 191 and 194, then the route: one request, received at
    [Date_now], from the state [st] of the limiters *)
Definition app (Date_now : Z) (req : Request) (r : Route)
    : AppState -> Prog (Response * AppState) :=
  authFailureLimiter Date_now (ip req)
    (fun st =>
       match verifySignature allowed Date_now req with
       | next => route Date_now req r st
       | send res => Ret (res, st)
       end).

End app.

Definition initial : AppState := {| authFailures := ∅; mountFailures := ∅ |}.

(** requests handled one after the other: each with the time it is
    received at and the route Express matches it to *)
Fixpoint serve `{Crypto} {W} (allowed : list string) (h : Host W)
    (reqs : list (Z * Request * Route)) (st : AppState) (w : W)
    : list Response * AppState * W :=
  match reqs with
  | [] => ([], st, w)
  | (Date_now, req, r) :: rest =>
      let '((res, st1), _, w1) := run h (app allowed Date_now req r st) w in
      let '(out, st2, w2) := serve allowed h rest st1 w1 in
      (res :: out, st2, w2)
  end.

End Server.

(* ===================================================================== *)
(** ** module.nix: the unlock script, the cleanup script and the unit

    One volume [name] with its [mount] entry.  The commands the scripts
    call ([cat], [losetup], [cryptsetup], [mkdir], [mount], [umount]) are
    outside the repository: each pass takes their exit statuses as an
    input ([true] is status 0) and applies the effect of the ones that
    succeeded to the record of what exists on the host. *)
(* ===================================================================== *)

Module Unit.
Import JS.

Inductive MountType := loop | block.

(** an entry of [services.secure-unlocker.mounts] *)
Record Mount := {
  type : MountType;
  source : string;
  mountPoint : string;
}.

(** what exists on the host for the volume: the worker instances whose
    [mount] is in place at the mount point (the last one first), whether
    the mapper device is there, how many loop devices are attached to the
    source, and the lines the scripts have echoed *)
Record Volume := {
  mounts : list nat;
  mapper : bool;
  loops : nat;
  journal : list string;
}.

Definition echo (line : string) (v : Volume) : Volume :=
  {| mounts := mounts v; mapper := mapper v; loops := loops v;
     journal := journal v ++ [line] |}.

Record UnlockTools := {
  losetup_find : bool;
  luksOpen : bool;
  mkdir_p : bool;
  mount_cmd : bool;
}.

Record CleanupTools := {
  umount : bool;
  luksClose : bool;
  losetup_d : bool;
}.

(** what a pass of the [while true] loop ends in *)
Inductive Pass :=
| again             (* back to [cat "$PIPE_PATH"] *)
| exit (code : Z).  (* the script is over *)

(** [$(...)] drops the newlines that end the output *)
Fixpoint strip_newlines (s : string) : string :=
  match s with
  | EmptyString => EmptyString
  | String c r =>
      match strip_newlines r with
      | EmptyString => if code c =? 10 then EmptyString else String c EmptyString
      | r' => String c r'
      end
  end.

Definition mapper_name (name : string) : string := "secure-unlocker-" +:+ name.

(** One pass of the loop of [mkUnlockScript] (lines 108-143) run by the
    worker instance [self], when [cat] has returned [data]. *)
Definition mkUnlockScript (name : string) (m : Mount) (self : nat)
    (data : string) (t : UnlockTools) (v : Volume) : Pass * Volume :=
  let PASSWORD := strip_newlines data in
  if seq PASSWORD EmptyString then
    (again, echo "Received empty password, ignoring..." v)
  else
    let v := echo ("Password received, unlocking " +:+ source m +:+ "...") v in
    let attach :=
      match type m with
      | loop => if losetup_find t
                then Some {| mounts := mounts v; mapper := mapper v;
                             loops := S (loops v); journal := journal v |}
                else None
      | block => Some v
      end in
    match attach with
    | None => (exit 1, v)
    | Some v =>
        if luksOpen t then
          let v := {| mounts := mounts v; mapper := true; loops := loops v;
                      journal := journal v |} in
          if negb (mkdir_p t) then (exit 1, v)
          else if negb (mount_cmd t) then (exit 1, v)
          else
            let v := {| mounts := self :: mounts v; mapper := mapper v;
                        loops := loops v; journal := journal v |} in
            (exit 0,
             echo ("Successfully mounted " +:+ mapper_name name +:+ " at "
                   +:+ mountPoint m) v)
        else
          (again, echo ("Failed to unlock " +:+ source m +:+ ", waiting for retry...") v)
    end.

(** [mkCleanupScript] (lines 62-93): three steps, each behind [|| true] *)
Definition mkCleanupScript (name : string) (m : Mount) (t : CleanupTools)
    (v : Volume) : Volume :=
  let v := echo ("Cleaning up " +:+ mapper_name name +:+ "...") v in
  let v :=
    match mounts v with
    | _ :: rest =>
        let v := echo ("Unmounting " +:+ mountPoint m +:+ "...") v in
        if umount t
        then {| mounts := rest; mapper := mapper v; loops := loops v;
                journal := journal v |}
        else v
    | [] => v
    end in
  let v :=
    if mapper v then
      let v := echo ("Closing LUKS device " +:+ mapper_name name +:+ "...") v in
      if luksClose t
      then {| mounts := mounts v; mapper := false; loops := loops v;
              journal := journal v |}
      else v
    else v in
  let v :=
    match type m with
    | loop => if losetup_d t
              then {| mounts := mounts v; mapper := mapper v; loops := O;
                      journal := journal v |}
              else v
    | block => v
    end in
  echo ("Cleanup complete for " +:+ mapper_name name) v.

(** The unit [secure-unlocker-NAME.service] (lines 288-313) under the
    service manager: [ExecStart] is the unlock script, [ExecStopPost] the
    cleanup script, [RemainAfterExit] keeps the unit active once the script
    has exited with status 0, and [ConditionPathIsMountPoint = "!mountPoint"]
    skips a start while the mount point is mounted.  A unit has at most one
    instance of its script: starting a unit that is running or active does
    nothing. *)
Inductive UnitState :=
| inactive
| running (instance : nat)   (* the script is in its loop *)
| exited                     (* the script has exited 0; the unit is active *)
| failed.

Record System := {
  unit : UnitState;
  volume : Volume;
  spawned : nat;     (* instances started so far *)
}.

Inductive Action :=
| systemctl_start
| pipe_delivers (data : string) (t : UnlockTools) (c : CleanupTools)
| systemctl_stop (c : CleanupTools).

Definition step (name : string) (m : Mount) (a : Action) (s : System) : System :=
  match a with
  | systemctl_start =>
      match unit s with
      | running _ | exited => s
      | inactive | failed =>
          match mounts (volume s) with
          | [] => {| unit := running (spawned s); volume := volume s;
                     spawned := S (spawned s) |}
          | _ :: _ => s
          end
      end
  | pipe_delivers data t c =>
      match unit s with
      | running self =>
          match mkUnlockScript name m self data t (volume s) with
          | (again, v) => {| unit := running self; volume := v; spawned := spawned s |}
          | (exit code, v) =>
              if code =? 0
              then {| unit := exited; volume := v; spawned := spawned s |}
              else {| unit := failed; volume := mkCleanupScript name m c v;
                      spawned := spawned s |}
          end
      | _ => s
      end
  | systemctl_stop c =>
      match unit s with
      | running _ | exited =>
          {| unit := inactive; volume := mkCleanupScript name m c (volume s);
             spawned := spawned s |}
      | inactive | failed => s
      end
  end.

Definition steps (name : string) (m : Mount) (l : list Action) (s : System)
    : System :=
  fold_left (fun s a => step name m a s) l s.

(** at most one mount at the mount point, and none while the script is
    still in its loop *)
Definition at_most_one_mount (s : System) : Prop :=
  (length (mounts (volume s)) <= 1)%nat
  /\ match unit s with
     | running _ => mounts (volume s) = []
     | _ => True
     end.

(** after boot: nothing mounted, nothing started *)
Definition boot : System :=
  {| unit := inactive;
     volume := {| mounts := []; mapper := false; loops := O; journal := [] |};
     spawned := O |}.

End Unit.

(* ===================================================================== *)
(** ** The canonical message in the words of the specification

    [METHOD + ":" + PATH_WITH_QUERY + ":" + TIMESTAMP + ":" + BODYHASH],
    BODYHASH being the hexadecimal SHA-256 digest of the exact body bytes
    (of no bytes when there is no body).  Kept apart from [Server.message],
    to compare the two. *)
(* ===================================================================== *)

Module Spec.
Import JS Express.

Definition body_bytes (w : WireRequest) : list Z := map code (chars (w_body w)).

Definition canonical_message (w : WireRequest) (timestamp : string) : string :=
  w_method w +:+ ":" +:+ w_target w +:+ ":" +:+ timestamp +:+ ":"
  +:+ to_hex (Sha256.digest (body_bytes w)).

End Spec.

(* ===================================================================== *)
(** ** Concrete hosts, keys and requests, to run the definitions on *)
(* ===================================================================== *)

Module Demo.
Import JS Express Effects RateLimit Server.

(** A stand-in for the two [crypto] calls: a key is accepted when its DER
    form is the 12-byte prefix and 32 more bytes, and the signature of a
    message under a key is the digest of the key followed by the message.
    It is not Ed25519; it only lets a concrete request pass or fail the
    signature check.  The theorems hold for every [Crypto]. *)
Definition sign (key msg : list Z) : list Z := Sha256.digest (key ++ msg).

Definition demo_crypto : Crypto :=
  {| KeyObject := list Z;
     createPublicKey der :=
       if (length der =? 44)%nat then inr (drop 12 der)
       else inl {| Effects.message := "Invalid key length" |};
     verify msg key sig := inr (bool_decide (sig = sign key msg)) |}.

(** A host without state that answers every call the same way. *)
Record Script := {
  exec : string -> Error + ExecOut;
  opens : Error + FileHandle;
  writes : Error + unit;
  closes : Error + unit;
}.

Definition scripted (s : Script) : Host unit :=
  {| answer X e w :=
       match e in Eff X return X * unit with
       | execAsync cmd => (exec s cmd, tt)
       | setTimeout _ => (tt, tt)
       | open _ _ => (opens s, tt)
       | writeFile _ _ => (writes s, tt)
       | close _ => (closes s, tt)
       end |}.

Definition ok : Error + ExecOut := inr {| stdout := EmptyString; stderr := EmptyString |}.
Definition exit_status (n : string) : Error + ExecOut :=
  inl {| Effects.message := "Command failed with exit code " +:+ n |}.

(** [systemctl is-active] prints the state and a newline, with a non-zero
    status unless the state is [active] *)
Definition unit_is (state : string) (cmd : string) : Error + ExecOut :=
  if startsWith cmd (SUDO +:+ " " +:+ SYSTEMCTL +:+ " is-active ") then
    if seq state "active"
    then inr {| stdout := state +:+ newline; stderr := EmptyString |}
    else exit_status "3"
  else ok.

(** the worker is not active, starts, and reads the pipe *)
Definition listening : Script :=
  {| exec := unit_is "inactive"; opens := inr 20%nat; writes := inr tt; closes := inr tt |}.

(** the worker is active *)
Definition mounted : Script :=
  {| exec := unit_is "active"; opens := inr 20%nat; writes := inr tt; closes := inr tt |}.

(** the worker starts but has not opened the pipe for reading: a
    non-blocking open for writing fails with ENXIO *)
Definition no_reader : Script :=
  {| exec := unit_is "inactive";
     opens := inl {| Effects.message := "ENXIO: no such device or address, open" |};
     writes := inr tt; closes := inr tt |}.

(** [systemctl start] fails *)
Definition start_fails : Script :=
  {| exec cmd := if startsWith cmd (SUDO +:+ " " +:+ SYSTEMCTL +:+ " start ")
                 then exit_status "1" else unit_is "inactive" cmd;
     opens := inr 20%nat; writes := inr tt; closes := inr tt |}.

Definition key_hex : string :=
  "00112233445566778899aabbccddeeff00112233445566778899aabbccddeeff".

Definition headers_of (l : list (string * string)) : gmap string string :=
  list_to_map l.

(** a request signed under [key] (32 bytes in hexadecimal, as sent in
    [X-Public-Key]) at [timestamp], for the body Express has parsed *)
Definition signed (m url p : string) (b : value) (key timestamp : string)
    : Request :=
  let unsigned :=
    {| method := m; originalUrl := url; path := p; headers := ∅; body := b;
       ip := "192.0.2.7" |} in
  let sig := sign (Buffer_from_hex key)
                  (Buffer_from_utf8 (Server.message unsigned timestamp)) in
  {| method := m; originalUrl := url; path := p;
     headers := headers_of [("x-signature", to_hex sig);
                            ("x-timestamp", timestamp);
                            ("x-public-key", key)];
     body := b; ip := "192.0.2.7" |}.

Definition password_body (pw : string) : value :=
  Some (JObj [("password", JStr pw)]).

(** 2023-11-14T22:13:20Z *)
Definition now : Z := 1700000000000.

Definition mount_vault : Request :=
  signed "POST" "/mount/vault" "/mount/vault" (password_body "P") key_hex "1700000000".

(** a signed mount request whose password is an object with a member
    [toString] *)
Definition mount_vault_object : Request :=
  signed "POST" "/mount/vault" "/mount/vault"
    (Some (JObj [("password", JObj [("toString", JNum 1)])])) key_hex "1700000000".

(** the same request without the three headers *)
Definition unsigned_mount_vault : Request :=
  {| method := "POST"; originalUrl := "/mount/vault"; path := "/mount/vault";
     headers := ∅; body := password_body "P"; ip := "192.0.2.7" |}.

(** the same request under a key that is not configured *)
Definition other_key_hex : string :=
  "ffeeddccbbaa99887766554433221100ffeeddccbbaa99887766554433221100".
Definition untrusted_mount_vault : Request :=
  signed "POST" "/mount/vault" "/mount/vault" (password_body "P")
         other_key_hex "1700000000".

(** [key_hex] with its letters in upper case: the same 32 bytes *)
Definition KEY_HEX : string :=
  "00112233445566778899AABBCCDDEEFF00112233445566778899AABBCCDDEEFF".
Definition mount_vault_upper : Request :=
  signed "POST" "/mount/vault" "/mount/vault" (password_body "P") KEY_HEX "1700000000".

(** a configured entry that is not a key at all, presented as it is *)
Definition mount_vault_bad_key : Request :=
  signed "POST" "/mount/vault" "/mount/vault" (password_body "P") "zz" "1700000000".

(** the request stamped 301 seconds before [now], and 300 seconds before *)
Definition mount_vault_301 : Request :=
  signed "POST" "/mount/vault" "/mount/vault" (password_body "P") key_hex "1699999699".
Definition mount_vault_300 : Request :=
  signed "POST" "/mount/vault" "/mount/vault" (password_body "P") key_hex "1699999700".

(** the request with text after the digits of its timestamp, signed as
    such *)
Definition mount_vault_trailing : Request :=
  signed "POST" "/mount/vault" "/mount/vault" (password_body "P") key_hex
         "1700000000abc".

(** [mount_vault] with another password in the body, under the signature
    made for the first one *)
Definition mount_vault_mutated : Request :=
  {| method := method mount_vault; originalUrl := originalUrl mount_vault;
     path := path mount_vault; headers := headers mount_vault;
     body := password_body "Q"; ip := ip mount_vault |}.

(** the request stamped 300 and 301 seconds after the server's clock *)
Definition mount_vault_ahead_300 : Request :=
  signed "POST" "/mount/vault" "/mount/vault" (password_body "P") key_hex "1700000300".
Definition mount_vault_ahead_301 : Request :=
  signed "POST" "/mount/vault" "/mount/vault" (password_body "P") key_hex "1700000301".

(** A second stand-in, whose signatures verify for one message only: the
    signature of a message is the message. *)
Definition literal_crypto : Crypto :=
  {| KeyObject := list Z;
     createPublicKey der := inr der;
     verify msg key sig := inr (bool_decide (sig = msg)) |}.

(** the mount request signed that way for the password "P", carrying the
    body [b] *)
Definition literally_signed (b : value) : Request :=
  let signed_request :=
    {| method := "POST"; originalUrl := "/mount/vault"; path := "/mount/vault";
       headers := ∅; body := password_body "P"; ip := "192.0.2.7" |} in
  {| method := "POST"; originalUrl := "/mount/vault"; path := "/mount/vault";
     headers :=
       headers_of
         [("x-signature",
           to_hex (Buffer_from_utf8 (Server.message signed_request "1700000000")));
          ("x-timestamp", "1700000000");
          ("x-public-key", key_hex)];
     body := b; ip := "192.0.2.7" |}.

(** A client that serialises its body with a space after the colon (the
    default of Python's [json.dumps]) and signs the digest of those bytes. *)
Definition spaced_body : string :=
  "{" +:+ dquote +:+ "password" +:+ dquote +:+ ": " +:+ dquote +:+ "P" +:+ dquote +:+ "}".

Definition wire_mount_vault : WireRequest :=
  let unsigned :=
    {| w_method := "POST"; w_target := "/mount/vault"; w_headers := ∅;
       w_body := spaced_body; w_ip := "192.0.2.7" |} in
  let sig := sign (Buffer_from_hex key_hex)
                  (Buffer_from_utf8 (Spec.canonical_message unsigned "1700000000")) in
  {| w_method := "POST"; w_target := "/mount/vault";
     w_headers := headers_of [("content-type", "application/json");
                              ("x-signature", to_hex sig);
                              ("x-timestamp", "1700000000");
                              ("x-public-key", key_hex)];
     w_body := spaced_body; w_ip := "192.0.2.7" |}.

End Demo.

(* ===================================================================== *)
(** ** The vocabulary of the statements *)
(* ===================================================================== *)

Module Statements.
Import JS Express Effects RateLimit Server.

(** the response of a limiter that denies *)
Definition too_many_authentication_failures : Response :=
  status_json 429 (RateLimit.message authFailureOptions).
Definition too_many_mount_failures : Response :=
  status_json 429 (RateLimit.message mountOptions).
Definition missing_headers : Response :=
  status_json 401 (error_body "Missing authentication headers").

(** hits of a client in the two stores *)
Definition auth_hits (now : Z) (req : Request) (st : AppState) : nat :=
  hits now (ip req) (authFailures st).
Definition mount_hits (now : Z) (req : Request) (st : AppState) : nat :=
  hits now (ip req) (mountFailures st).

Definition verification_error : Response :=
  status_json 401 (error_body "Signature verification failed").

(** the signature header of a concrete request *)
Definition signature_of (req : Request) : string :=
  default EmptyString (headers req !! "x-signature").

(** the requests that pass the validation of the mount handler, with the
    password they carry *)
Definition passes_validation (req : Request) (name : string) (pw : json) : Prop :=
  nameRegex_test name = true
  /\ (exists b, body req = Some b /\ get_prop "password" b = Some pw)
  /\ truthy (Some pw) = true.

(** the handler of a route *)
Definition route_handler (req : Request) (r : Route) : Prog Response :=
  match r with
  | GET_health => healthHandler
  | POST_mount name => mountHandler req name
  | POST_unmount name => unmountHandler req name
  end.

Definition rate_limited (r : Route) : Prop :=
  match r with
  | GET_health => False
  | POST_mount _ | POST_unmount _ => True
  end.

Section checks.
Context `{Crypto}.
Variable allowed : list string.
Variable Date_now : Z.

(** what has to hold of the three headers for [next()] to be reached *)
Definition accepted (req : Request) (signature timestamp publicKey : string)
    : Prop :=
  includes allowed (toLowerCase publicKey) = true
  /\ (exists t, parseInt timestamp = Some t
                /\ Math_abs (Date_now / 1000 - t) <= 300)
  /\ exists keyObject,
       createPublicKey (spkiPrefix ++ Buffer_from_hex publicKey) = inr keyObject
       /\ verify (Buffer_from_utf8 (message req timestamp)) keyObject
                 (Buffer_from_hex signature) = inr true.

(** a request with its three headers, on a path that is verified, with
    keys configured *)
Definition presented (req : Request) (sg ts pk : string) : Prop :=
  skipsAuthentication (path req) = false
  /\ allowed <> []
  /\ header req "x-signature" = Some sg
  /\ header req "x-timestamp" = Some ts
  /\ header req "x-public-key" = Some pk.

(** the three checks that answer "Authentication failed" *)
Definition fails_a_check (req : Request) (sg ts pk : string) : Prop :=
  includes allowed (toLowerCase pk) = false
  \/ parseInt ts = None
  \/ (exists t, parseInt ts = Some t /\ 300 < Math_abs (Date_now / 1000 - t))
  \/ (exists keyObject,
        createPublicKey (spkiPrefix ++ Buffer_from_hex pk) = inr keyObject
        /\ verify (Buffer_from_utf8 (message req ts)) keyObject
                  (Buffer_from_hex sg) = inr false).

End checks.

Section calls.
Context {W : Type}.
Variable h : Host W.

(** the calls on the pipe, from the answer to [open] on *)
Inductive channel_run (name : string) (pw : json)
    : Error + FileHandle -> W -> Response * list Event * W -> Prop :=
| run_open_failed error w5 :
    channel_run name pw (inl error) w5 (write_failed error, [], w5)
| run_not_converted fd w5 closed w6 :
    ToString pw = None ->
    answer h (close fd) w5 = (closed, w6) ->
    channel_run name pw (inr fd) w5
      (match closed with
       | inl error => write_failed error
       | inr _ => write_failed cannot_convert
       end,
       [called_close fd closed], w6)
| run_written fd secret w5 written w6 closed w7 :
    ToString pw = Some secret ->
    answer h (writeFile fd (secret +:+ newline)) w5 = (written, w6) ->
    answer h (close fd) w6 = (closed, w7) ->
    channel_run name pw (inr fd) w5
      (match closed, written with
       | inl error, _ => write_failed error
       | inr _, inl error => write_failed error
       | inr _, inr _ => success
       end,
       [called_writeFile fd (secret +:+ newline) written;
        called_close fd closed], w7).

(** The calls of the mount handler after validation, and the response each
    outcome leads to. *)
Inductive mount_run (name : string) (pw : json) (w : W)
    : Response * list Event * W -> Prop :=
| run_already_mounted status w1 :
    answer h (execAsync (is_active_cmd name)) w = (status, w1) ->
    reports_active status = true ->
    mount_run name pw w
      (already_mounted, [called_exec (is_active_cmd name) status], w1)
| run_reset_failed status w1 error w2 :
    answer h (execAsync (is_active_cmd name)) w = (status, w1) ->
    reports_active status = false ->
    answer h (execAsync (reset_failed_cmd name)) w1 = (inl error, w2) ->
    mount_run name pw w
      (start_failed error,
       [called_exec (is_active_cmd name) status;
        called_exec (reset_failed_cmd name) (inl error)], w2)
| run_start_failed status w1 o1 w2 error w3 :
    answer h (execAsync (is_active_cmd name)) w = (status, w1) ->
    reports_active status = false ->
    answer h (execAsync (reset_failed_cmd name)) w1 = (inr o1, w2) ->
    answer h (execAsync (start_cmd name)) w2 = (inl error, w3) ->
    mount_run name pw w
      (start_failed error,
       [called_exec (is_active_cmd name) status;
        called_exec (reset_failed_cmd name) (inr o1);
        called_exec (start_cmd name) (inl error)], w3)
| run_started status w1 o1 w2 o2 w3 w4 opened w5 res t w' :
    answer h (execAsync (is_active_cmd name)) w = (status, w1) ->
    reports_active status = false ->
    answer h (execAsync (reset_failed_cmd name)) w1 = (inr o1, w2) ->
    answer h (execAsync (start_cmd name)) w2 = (inr o2, w3) ->
    answer h (setTimeout 500) w3 = (tt, w4) ->
    answer h (open (pipePath name) 2049) w4 = (opened, w5) ->
    channel_run name pw opened w5 (res, t, w') ->
    mount_run name pw w
      (res,
       [called_exec (is_active_cmd name) status;
        called_exec (reset_failed_cmd name) (inr o1);
        called_exec (start_cmd name) (inr o2);
        called_setTimeout 500;
        called_open (pipePath name) 2049 opened] ++ t, w').

End calls.

End Statements.

Arguments Server.is_active_cmd : simpl never.
Arguments Server.reset_failed_cmd : simpl never.
Arguments Server.start_cmd : simpl never.
Arguments Server.stop_cmd : simpl never.
Arguments Server.pipePath : simpl never.
Arguments JS.ToString : simpl never.
Arguments Unit.mkUnlockScript : simpl never.
Arguments Unit.mkCleanupScript : simpl never.

(** discharging a side condition on a concrete request *)
Ltac by_computation :=
  vm_compute;
  first [ reflexivity
        | let H := fresh in intro H; discriminate H
        | lia ].

(** a concrete request has its three headers *)
Ltac presented_by_computation :=
  split; [by_computation|]; split; [by_computation|];
  split; [by_computation|]; split; by_computation.

(* ===================================================================== *)
(** ** module.nix, line 364: the keys as they are handed to the server *)
(* ===================================================================== *)

Module Nix.

(** [builtins.concatStringsSep sep l] *)
Definition concatStringsSep (sep : string) (l : list string) : string :=
  String.concat sep l.

(** the value given to [ALLOWED_PUBLIC_KEYS] in the environment of the
    server, from the option [allowedPublicKeys] *)
Definition environment_ALLOWED_PUBLIC_KEYS (allowedPublicKeys : list string)
    : string :=
  concatStringsSep "," allowedPublicKeys.

End Nix.

(* ===================================================================== *)
(** ** More vocabulary: what the further properties are stated with *)
(* ===================================================================== *)

Module Properties.
Import JS Express Effects RateLimit Server.

(** a string without a comma *)
Definition comma_free (k : string) : Prop :=
  Forall (fun c => code c <> 44) (chars k).

(** [req] with the header [name] set to [v] *)
Definition with_header (name v : string) (req : Request) : Request :=
  {| method := method req; originalUrl := originalUrl req; path := path req;
     headers := <[name := v]> (headers req); body := body req; ip := ip req |}.

(** [req] with another [originalUrl] *)
Definition with_url (url : string) (req : Request) : Request :=
  {| method := method req; originalUrl := url; path := path req;
     headers := headers req; body := body req; ip := ip req |}.

(** the tools of one pass of the unlock script refuse the secret, or
    accept it and mount *)
Definition refuses (m : Unit.Mount) (t : Unit.UnlockTools) : Prop :=
  Unit.luksOpen t = false
  /\ (Unit.type m = Unit.loop -> Unit.losetup_find t = true).

Definition unlocks (m : Unit.Mount) (t : Unit.UnlockTools) : Prop :=
  Unit.luksOpen t = true /\ Unit.mkdir_p t = true /\ Unit.mount_cmd t = true
  /\ (Unit.type m = Unit.loop -> Unit.losetup_find t = true).

(** every command of the cleanup script succeeds *)
Definition cleans (c : Unit.CleanupTools) : Prop :=
  Unit.umount c = true /\ Unit.luksClose c = true /\ Unit.losetup_d c = true.

(** the answer of a server without configured keys *)
Definition not_configured : Response :=
  status_json 503 (error_body "Authentication not configured").

(** the answer of the health route *)
Definition health_ok : Response := res_json (JObj [("status", JStr "ok")]).

(** a health check, as a monitoring client sends it: no headers, no body *)
Definition health_check : Request :=
  {| method := "GET"; originalUrl := "/health"; path := "/health";
     headers := ∅; body := None; ip := "192.0.2.7" |}.

(** the stores of a server on which the client [key] has [auth] and
    [mount] hits in windows that close at [reset] *)
Definition with_hits (auth mount : nat) (reset : Z) (key : string) : AppState :=
  {| authFailures := {[ key := {| totalHits := auth; resetTime := reset |} ]};
     mountFailures := {[ key := {| totalHits := mount; resetTime := reset |} ]} |}.

(** [s] ends in a line feed *)
Fixpoint ends_in_newline (s : string) : bool :=
  match s with
  | EmptyString => false
  | String c EmptyString => code c =? 10
  | String _ r => ends_in_newline r
  end.

(** [echo -n "$PASSWORD"] in bash (module.nix line 129): an argument made
    of a dash and one or more letters among n, e and E is taken as
    options, and nothing is printed for it; any other argument is printed
    as it is *)
Definition echo_option (p : string) : bool :=
  match p with
  | String c r =>
      (code c =? 45) && negb (seq r EmptyString)
      && forallb (fun d => (code d =? 110) || (code d =? 101) || (code d =? 69))
                 (chars r)
  | EmptyString => false
  end.

Definition echo_n (p : string) : string :=
  if echo_option p then EmptyString else p.

(** what [cryptsetup luksOpen ... -] reads as the passphrase when [cat]
    has returned [data] (module.nix lines 110-129); [None] when the script
    finds [$PASSWORD] empty and runs no [cryptsetup] *)
Definition passphrase (data : string) : option string :=
  let PASSWORD := Unit.strip_newlines data in
  if seq PASSWORD EmptyString then None else Some (echo_n PASSWORD).

(** the first character of a text in UTF-8, and the bytes after it *)
Definition utf8_head (bs : list Z) : option (ascii * list Z) :=
  match bs with
  | b :: r =>
      if b <? 128 then Some (char b, r)
      else match r with
           | b2 :: r2 =>
               Some (char (Z.lor (Z.shiftl (Z.land b 3) 6) (Z.land b2 63)), r2)
           | [] => None
           end
  | [] => None
  end.

(** an action that is no [systemctl stop] *)
Definition start_or_delivery (a : Unit.Action) : Prop :=
  match a with
  | Unit.systemctl_stop _ => False
  | _ => True
  end.

(** a loop volume, and tools that refuse, unlock and clean up *)
Definition vault : Unit.Mount :=
  {| Unit.type := Unit.loop; Unit.source := "/var/encrypted/vault.img";
     Unit.mountPoint := "/mnt/vault" |}.
Definition wrong_secret : Unit.UnlockTools :=
  {| Unit.losetup_find := true; Unit.luksOpen := false; Unit.mkdir_p := true;
     Unit.mount_cmd := true |}.
Definition right_secret : Unit.UnlockTools :=
  {| Unit.losetup_find := true; Unit.luksOpen := true; Unit.mkdir_p := true;
     Unit.mount_cmd := true |}.
Definition clean : Unit.CleanupTools :=
  {| Unit.umount := true; Unit.luksClose := true; Unit.losetup_d := true |}.
Definition busy : Unit.CleanupTools :=
  {| Unit.umount := false; Unit.luksClose := false; Unit.losetup_d := false |}.

(** the characters that separate words or start an expansion, a
    redirection, a quotation or a comment in a command line of [/bin/sh],
    and the slash of a path *)
Definition shell_special (c : ascii) : bool :=
  existsb (Z.eqb (code c))
    [9; 10; 32;                       (* tab, line feed, space *)
     33; 34; 35; 36; 38; 39;          (* ! dquote # $ & quote *)
     40; 41; 42; 47;                  (* ( ) * / *)
     59; 60; 61; 62; 63;              (* ; < = > ? *)
     91; 92; 93; 94; 96;              (* [ \ ] ^ backquote *)
     123; 124; 125; 126].             (* { | } ~ *)

(** the words of a command line without quotation: the runs between
    spaces *)
Fixpoint words_from (cur : string) (s : string) : list string :=
  match s with
  | EmptyString => if seq cur EmptyString then [] else [cur]
  | String c r =>
      if code c =? 32
      then (if seq cur EmptyString then [] else [cur]) ++ words_from EmptyString r
      else words_from (cur +:+ String c EmptyString) r
  end.
Definition words (s : string) : list string := words_from EmptyString s.

(** what a call of the mount handler for [name] may be, the request
    carrying the password [pw] *)
Definition mount_call (name : string) (pw : json) (ev : Event) : Prop :=
  match ev with
  | called_exec cmd _ =>
      cmd = is_active_cmd name \/ cmd = reset_failed_cmd name
      \/ cmd = start_cmd name
  | called_setTimeout ms => ms = 500
  | called_open p flags _ => p = pipePath name /\ flags = 2049
  | called_writeFile _ data _ =>
      exists secret, ToString pw = Some secret /\ data = secret +:+ newline
  | called_close _ _ => True
  end.

(** a request signed for a URL that ends in a colon and a number, and the
    request for the URL before the colon that carries the same signature,
    the number being moved to the front of the timestamp header *)
Definition signed_with_colon : Request :=
  Demo.signed "POST" "/mount/vault:1700000000" "/mount/vault:1700000000"
    (Demo.password_body "P") Demo.key_hex "1700000000".
Definition colon_moved : Request :=
  {| method := "POST"; originalUrl := "/mount/vault"; path := "/mount/vault";
     headers := <["x-timestamp" := "1700000000:1700000000"]>
                  (headers signed_with_colon);
     body := body signed_with_colon; ip := ip signed_with_colon |}.

(** every window of the two stores closes at [t] or before *)
Definition windows_close_by (t : Z) (st : AppState) : Prop :=
  forall key c,
    authFailures st !! key = Some c \/ mountFailures st !! key = Some c ->
    resetTime c <= t.

(** requests received in the order of their times, none before [t0] *)
Fixpoint in_order (t0 : Z) (reqs : list (Z * Request * Route)) : Prop :=
  match reqs with
  | [] => True
  | (t, _, _) :: rest => t0 <= t /\ in_order t rest
  end.

(** the time of the last of them *)
Fixpoint last_time (t0 : Z) (reqs : list (Z * Request * Route)) : Z :=
  match reqs with
  | [] => t0
  | (t, _, _) :: rest => last_time t rest
  end.

(** a delivery of a secret that is not empty and is refused *)
Definition refused_delivery (m : Unit.Mount) (a : Unit.Action) : Prop :=
  match a with
  | Unit.pipe_delivers data t _ =>
      Unit.strip_newlines data <> EmptyString /\ refuses m t
  | _ => False
  end.

End Properties.

(* ===================================================================== *)
(** ** The list handler, index.ts lines 200-231

    [readdir] is the first call of the handler; [listHandler] takes its
    outcome.  The callbacks of [files.map] each start their command before
    any answer arrives, in the order of [files]; the host answers them in
    that order.  [statusObject] is a JavaScript object: assigning to
    [__proto__] adds no property, and the keys that are array indices
    (canonical numerals up to 2^32 - 2) are enumerated first, in
    increasing order, before the other keys in the order of their
    creation. *)
(* ===================================================================== *)

Module Listing.
Import JS Express Effects Server.

(** [isActive ? 'mounted' : 'unmounted'], and ['unmounted'] in [catch] *)
Definition status_of (r : Error + ExecOut) : string :=
  if reports_active r then "mounted" else "unmounted".

(** [files.map(async (name) => ...)] awaited by [Promise.all] *)
Fixpoint statusPromises (files : list string) : Prog (list (string * string)) :=
  match files with
  | [] => Ret []
  | name :: rest =>
      r ← await (execAsync (is_active_cmd name));
      statusResults ← statusPromises rest;
      Ret ((name, status_of r) :: statusResults)
  end.

(** the array index a property key stands for *)
Definition array_index (k : string) : option Z :=
  match k with
  | EmptyString => None
  | String c r =>
      if forallb is_digit (chars k)
         && (seq k "0" || negb (code c =? 48))
      then match digits 0 false k with
           | Some i => if i <=? 4294967294 then Some i else None
           | None => None
           end
      else None
  end.

(** a new index key goes before the first index key that is larger and
    before the keys that are no indices *)
Fixpoint insert_index {A} (i : Z) (k : string) (v : A)
    (props : list (string * A)) : list (string * A) :=
  match props with
  | [] => [(k, v)]
  | (k', v') :: rest =>
      match array_index k' with
      | Some j => if i <? j then (k, v) :: props
                  else (k', v') :: insert_index i k v rest
      | None => (k, v) :: props
      end
  end.

(** [acc[name] = status] on an object that started as [{}] *)
Definition set_property {A} (acc : list (string * A)) (k : string) (v : A)
    : list (string * A) :=
  if seq k "__proto__" then acc
  else if existsb (fun p => seq p.1 k) acc
  then map (fun p => if seq p.1 k then (k, v) else p) acc
  else match array_index k with
       | Some i => insert_index i k v acc
       | None => acc ++ [(k, v)]
       end.

(** [statusResults.reduce(..., {})] *)
Definition statusObject (statusResults : list (string * string))
    : list (string * string) :=
  fold_left (fun acc '(name, status) => set_property acc name status)
            statusResults [].

Definition read_failed (error : Error) : Response :=
  status_json 500
    (error_message_body "Failed to read pipes directory" (Effects.message error)).

(** [app.get('/list', ...)] from the outcome of [readdir(PIPES_DIR)] on *)
Definition listHandler (files : Error + list string) : Prog Response :=
  match files with
  | inl error => Ret (read_failed error)
  | inr files =>
      statusResults ← statusPromises files;
      Ret (res_json (JObj (map (fun '(name, status) => (name, JStr status))
                               (statusObject statusResults))))
  end.

End Listing.

(* ===================================================================== *)
(** ** Binding the address, index.ts lines 152-185

    [tryListen] loops until [app.listen] succeeds, fails with an error
    that is no address error, or the clock has passed [maxWaitMs].  The
    process is a state with a clock, the outcome of each [listen] and what
    a wait does to it; the loop is unfolded [fuel] times. *)
(* ===================================================================== *)

Module Startup.

(** a [NodeJS.ErrnoException]: [code] may be [undefined] *)
Record ErrnoException := { code : option string; message : string }.

(** an [http.Server] *)
Definition Server := nat.

(** what [tryListen] throws *)
Inductive Thrown :=
| timed_out (message : string)       (* [new Error(`Timed out ...`)] *)
| rethrown (error : ErrnoException). (* [throw error] *)

Record Node (W : Type) := {
  Date_now : W -> Z;
  (** the promise around [app.listen(Number(PORT), LISTEN_ADDRESS, ...)]:
      resolved by the callback, rejected by the ['error'] event *)
  app_listen : Z -> string -> W -> (ErrnoException + Server) * W;
  (** [await new Promise(resolve => setTimeout(resolve, ms))] *)
  setTimeout : Z -> W -> W;
}.
Arguments Date_now {W} _ _.
Arguments app_listen {W} _ _ _ _.
Arguments setTimeout {W} _ _ _.

Definition is_address_error (err : ErrnoException) : bool :=
  match code err with
  | Some c => String.eqb c "EADDRNOTAVAIL" || String.eqb c "EADDRINUSE"
  | None => false
  end.

Section tryListen.
Context {W : Type}.
Variable n : Node W.
Variable PORT : Z.
Variable LISTEN_ADDRESS : string.
Variables maxWaitMs intervalMs : Z.

Definition timeout_message : string :=
  "Timed out waiting for address " +:+ LISTEN_ADDRESS +:+ " to become available".

(** the [while (true)] loop; the result carries the number of calls of
    [app.listen] *)
Fixpoint tryListen_loop (fuel : nat) (startTime : Z) (w : W)
    : option ((Thrown + Server) * nat * W) :=
  match fuel with
  | O => None
  | S fuel =>
      let '(outcome, w1) := app_listen n PORT LISTEN_ADDRESS w in
      match outcome with
      | inr server => Some (inr server, 1%nat, w1)
      | inl err =>
          if is_address_error err then
            if maxWaitMs <? Date_now n w1 - startTime then
              Some (inl (timed_out timeout_message), 1%nat, w1)
            else
              match tryListen_loop fuel startTime (setTimeout n intervalMs w1) with
              | Some (r, attempts, w') => Some (r, S attempts, w')
              | None => None
              end
          else Some (inl (rethrown err), 1%nat, w1)
      end
  end.

Definition tryListen (fuel : nat) (w : W) : option ((Thrown + Server) * nat * W) :=
  tryListen_loop fuel (Date_now n w) w.

(** the clock does not go back during a [listen], and a wait of [ms]
    takes at least [ms] *)
Definition clock_advances : Prop :=
  (forall w, Date_now n w <= Date_now n (app_listen n PORT LISTEN_ADDRESS w).2)
  /\ (forall ms w, Date_now n w + ms <= Date_now n (setTimeout n ms w)).

End tryListen.

(** a process whose state is its clock; [listen] takes a millisecond and
    succeeds from the time [ready] on, failing with [busy] before *)
Definition ready_at (ready : Z) (busy : string) : Node Z :=
  {| Date_now w := w;
     app_listen _ _ w :=
       (if ready <=? w then inr 1%nat
        else inl {| code := Some busy; message := "listen " +:+ busy |}, w + 1);
     setTimeout ms w := w + ms |}.

End Startup.

(* ===================================================================== *)
(** * Theorems *)
(* ===================================================================== *)

Import JS Express Effects RateLimit Server Statements.

(** ** The digest and the built-ins, on known values *)

Example sha256_empty :
  sha256_hex EmptyString
  = "e3b0c44298fc1c149afbf4c8996fb92427ae41e4649b934ca495991b7852b855".
Proof. vm_compute. reflexivity. Qed.

Example sha256_abc :
  sha256_hex "abc"
  = "ba7816bf8f01cfea414140de5dae2223b00361a396177a9cb410ff61f20015ad".
Proof. vm_compute. reflexivity. Qed.

Example sha256_two_blocks :
  sha256_hex "abcdbcdecdefdefgefghfghighijhijkijkljklmklmnlmnomnopnopq"
  = "248d6a61d20638b8e5c026930c3e6039a33ce45964ff2167f6ecedd419db06c1".
Proof. vm_compute. reflexivity. Qed.

Example parseInt_prefix :
  parseInt "1700000000" = Some 1700000000 /\ parseInt " 12abc" = Some 12
  /\ parseInt "-5" = Some (-5) /\ parseInt "abc" = None
  /\ parseInt EmptyString = None /\ parseInt "+" = None.
Proof. vm_compute. repeat split. Qed.

Example stringify_password :
  JSON_stringify (JObj [("password", JStr "P")])
  = "{" +:+ quote "password" +:+ ":" +:+ quote "P" +:+ "}".
Proof. reflexivity. Qed.

Example allowed_keys_split :
  ALLOWED_PUBLIC_KEYS (Some "ab,,CD,") = ["ab"; "CD"]
  /\ ALLOWED_PUBLIC_KEYS (Some EmptyString) = []
  /\ ALLOWED_PUBLIC_KEYS None = [].
Proof. vm_compute. repeat split. Qed.

(** ** [toLowerCase] *)

Lemma lower_char_idem (c : ascii) : lower_char (lower_char c) = lower_char c.
Proof. destruct c as [[] [] [] [] [] [] [] []]; vm_compute; reflexivity. Qed.

Lemma toLowerCase_idem (s : string) : toLowerCase (toLowerCase s) = toLowerCase s.
Proof.
  induction s as [|c s IH]; simpl; [reflexivity|].
  now rewrite lower_char_idem, IH.
Qed.

Lemma seq_true (a b : string) : seq a b = true <-> a = b.
Proof. apply String.eqb_eq. Qed.

Lemma seq_false (a b : string) : seq a b = false <-> a <> b.
Proof. apply String.eqb_neq. Qed.

Lemma includes_In (keys : list string) (k : string) :
  includes keys k = true <-> In k keys.
Proof.
  unfold includes. rewrite existsb_exists. split.
  - intros (x & Hx & Heq). apply seq_true in Heq. now subst.
  - intros Hin. exists k. split; [assumption|]. now apply seq_true.
Qed.

(** ** [verifySignature], case by case *)

Section verifySignature_facts.
Context `{Crypto}.
Variable allowed : list string.
Variable Date_now : Z.

Lemma verifySignature_try_next (req : Request) (sg ts pk : string) :
  verifySignature_try allowed Date_now req sg ts pk = inr next
  <-> accepted allowed Date_now req sg ts pk.
Proof.
  unfold verifySignature_try, accepted.
  destruct (includes allowed (toLowerCase pk)); simpl.
  2:{ split; [discriminate | intros (? & _); discriminate]. }
  destruct (parseInt ts) as [t|].
  2:{ split; [discriminate | intros (_ & (t & ? & _) & _); discriminate]. }
  destruct (Z.ltb_spec 300 (Math_abs (Date_now / 1000 - t))) as [Hlt|Hle].
  { split; [discriminate|]. intros (_ & (t' & [= <-] & ?) & _). lia. }
  destruct (createPublicKey _) as [e|k] eqn:Hk.
  { split; [discriminate|]. intros (_ & _ & (k & ? & _)). discriminate. }
  destruct (verify _ k _) as [e|[|]] eqn:Hv; simpl.
  - split; [discriminate|]. intros (_ & _ & (k' & [= <-] & ?)). congruence.
  - split; [|reflexivity]. intros _. split; [reflexivity|].
    split; [now exists t|]. now exists k.
  - split; [discriminate|]. intros (_ & _ & (k' & [= <-] & ?)). congruence.
Qed.

Lemma verifySignature_next (req : Request) :
  skipsAuthentication (path req) = false ->
  (verifySignature allowed Date_now req = next
   <-> exists sg ts pk,
         header req "x-signature" = Some sg
         /\ header req "x-timestamp" = Some ts
         /\ header req "x-public-key" = Some pk
         /\ accepted allowed Date_now req sg ts pk).
Proof.
  intros Hskip. unfold verifySignature. rewrite Hskip.
  destruct (Z.eqb_spec (Z.of_nat (length allowed)) 0) as [Hz|Hnz].
  { split; [discriminate|].
    intros (sg & ts & pk & _ & _ & _ & Hin & _).
    apply includes_In in Hin.
    assert (Hnil : allowed = []) by (apply length_zero_iff_nil; lia).
    rewrite Hnil in Hin. destruct Hin. }
  destruct (header req "x-signature") as [sg|].
  2:{ split; [discriminate | intros (? & ? & ? & ? & _); discriminate]. }
  destruct (header req "x-timestamp") as [ts|].
  2:{ split; [discriminate | intros (? & ? & ? & _ & ? & _); discriminate]. }
  destruct (header req "x-public-key") as [pk|].
  2:{ split; [discriminate | intros (? & ? & ? & _ & _ & ? & _); discriminate]. }
  pose proof (verifySignature_try_next req sg ts pk) as Htry.
  destruct (verifySignature_try allowed Date_now req sg ts pk) as [e|o] eqn:Ht.
  - split; [discriminate|].
    intros (? & ? & ? & [= <-] & [= <-] & [= <-] & Hacc).
    apply Htry in Hacc. discriminate.
  - split.
    + intros ->. exists sg, ts, pk. repeat split; try reflexivity; now apply Htry.
    + intros (? & ? & ? & [= <-] & [= <-] & [= <-] & Hacc).
      apply Htry in Hacc. congruence.
Qed.

End verifySignature_facts.

(** ** Running a program *)

Lemma run_bind {W A B} (h : Host W) (p : Prog A) (f : A -> Prog B) (w : W) :
  run h (p ≫= f) w
  = let '(a, t, w1) := run h p w in
    let '(b, t', w2) := run h (f a) w1 in
    (b, t ++ t', w2).
Proof.
  unfold mbind, prog_bind. revert w.
  induction p as [a|X e k IH]; intros w; simpl.
  - now destruct (run h (f a) w) as [[b t'] w2].
  - destruct (answer h e w) as [x w1]. rewrite IH.
    destruct (run h (k x) w1) as [[a t] w2].
    now destruct (run h (f a) w2) as [[b t'] w3].
Qed.

Lemma run_handler {W} (h : Host W) (p : Prog Response) (st : AppState) (w : W) :
  run h (handler p st) w
  = let '(r, t, w') := run h p w in ((r, st), t, w').
Proof.
  unfold handler. rewrite run_bind.
  destruct (run h p w) as [[r t] w']. simpl. now rewrite app_nil_r.
Qed.

(** ** The limiter *)

Section limiter_facts.
Variable o : Options.
Hypothesis window_positive : 0 < windowMs o.

Lemma increment_totalHits (now : Z) (key : string) (s : gmap string Client) :
  totalHits (increment o now key s).1 = S (hits now key s).
Proof.
  unfold increment, hits. simpl.
  destruct (s !! key) as [c|]; [|reflexivity].
  now destruct (resetTime c <=? now).
Qed.

Lemma increment_hits (now : Z) (key : string) (s : gmap string Client) :
  hits now key (increment o now key s).2 = S (hits now key s).
Proof.
  unfold increment, hits. simpl. rewrite lookup_insert_eq. simpl.
  destruct (s !! key) as [c|].
  - destruct (Z.leb_spec (resetTime c) now) as [Hexp|Hopen]; simpl.
    + destruct (Z.leb_spec (now + windowMs o) now); [lia | reflexivity].
    + destruct (Z.leb_spec (resetTime c) now); [lia | reflexivity].
  - simpl. destruct (Z.leb_spec (now + windowMs o) now); [lia | reflexivity].
Qed.

Lemma decrement_increment (now : Z) (key : string) (s : gmap string Client) :
  hits now key (decrement key (increment o now key s).2) = hits now key s.
Proof.
  unfold decrement, increment, hits. simpl. rewrite lookup_insert_eq. simpl.
  rewrite lookup_insert_eq. simpl.
  destruct (s !! key) as [c|].
  - destruct (Z.leb_spec (resetTime c) now) as [Hexp|Hopen]; simpl.
    + destruct (Z.leb_spec (now + windowMs o) now); [lia | reflexivity].
    + destruct (Z.leb_spec (resetTime c) now); [lia | reflexivity].
  - simpl. destruct (Z.leb_spec (now + windowMs o) now); [lia | reflexivity].
Qed.

End limiter_facts.

Lemma run_rateLimit {S W} (o : Options) (get : S -> gmap string Client)
    (set : gmap string Client -> S -> S) (now : Z) (key : string)
    (nxt : S -> Prog (Response * S)) (st : S) (h : Host W) (w : W) :
  run h (rateLimit o get set now key nxt st) w
  = let st1 := set (increment o now key (get st)).2 st in
    if (max o <? totalHits (increment o now key (get st)).1)%nat then
      ((status_json 429 (RateLimit.message o), st1), [], w)
    else
      let '((r, st2), t, w') := run h (nxt st1) w in
      ((r, if skipSuccessfulRequests o && requestWasSuccessful r
           then set (decrement key (get st2)) st2 else st2), t, w').
Proof.
  unfold rateLimit.
  destruct (increment o now key (get st)) as [c store]. simpl.
  destruct (max o <? totalHits c)%nat; [reflexivity|].
  rewrite run_bind.
  destruct (run h (nxt (set store st)) w) as [[[r st2] t] w'].
  destruct (skipSuccessfulRequests o && requestWasSuccessful r);
    simpl; now rewrite app_nil_r.
Qed.

Lemma authFailure_window : 0 < windowMs authFailureOptions.
Proof. reflexivity. Qed.
Lemma mount_window : 0 < windowMs mountOptions.
Proof. reflexivity. Qed.

Section app_facts.
Context `{Crypto}.
Variable allowed : list string.

(** A request that [verifySignature] answers itself: the response goes
    out unless the limiter denies, no call is awaited, the mount store is
    not touched, and the client's hit in the authentication store stays
    when the status is 400 or more. *)
Lemma app_rejected {W} (h : Host W) (w : W) (now : Z) (req : Request)
    (r : Route) (st : AppState) (res : Response) :
  verifySignature allowed now req = send res ->
  exists st',
    run h (app allowed now req r st) w
    = ((if (20 <=? auth_hits now req st)%nat
        then too_many_authentication_failures else res, st'), [], w)
    /\ mountFailures st' = mountFailures st
    /\ auth_hits now req st'
       = if (20 <=? auth_hits now req st)%nat then S (auth_hits now req st)
         else if statusCode res <? 400 then auth_hits now req st
         else S (auth_hits now req st).
Proof.
  intros Hv. unfold app, authFailureLimiter. rewrite run_rateLimit.
  rewrite increment_totalHits by exact authFailure_window.
  change (max authFailureOptions) with 20%nat.
  cbv zeta. unfold auth_hits.
  change (20 <? S ?n)%nat with (20 <=? n)%nat.
  destruct (20 <=? hits now (ip req) (authFailures st))%nat eqn:Hfull.
  - eexists. split; [reflexivity|]. split; [reflexivity|].
    unfold set_authFailures; cbn [authFailures].
    exact (increment_hits authFailureOptions authFailure_window _ _ _).
  - rewrite Hv. simpl run. unfold requestWasSuccessful.
    change (skipSuccessfulRequests authFailureOptions) with true.
    cbn [andb].
    destruct (statusCode res <? 400).
    + eexists. split; [reflexivity|]. split; [reflexivity|].
      unfold set_authFailures; cbn [authFailures].
      exact (decrement_increment authFailureOptions _ _ _).
    + eexists. split; [reflexivity|]. split; [reflexivity|].
      unfold set_authFailures; cbn [authFailures].
      exact (increment_hits authFailureOptions authFailure_window _ _ _).
Qed.

End app_facts.

(* ===================================================================== *)
(** ** C1: the canonical message *)
(* ===================================================================== *)

Section canonical_message.
Context `{Crypto}.
Variable allowed : list string.
Variable Date_now : Z.

(** C1, as amended.  For a request that is subject to verification, has
    its three headers, a configured key and a timestamp in the window, the
    message is METHOD ":" originalUrl ":" timestamp ":" BODYHASH where
    BODYHASH is the hexadecimal SHA-256 digest of [JSON.stringify(req.body)]
    when the parsed body has at least one key, and of the empty string
    otherwise; and [next()] is reached exactly when the key can be built
    and [verify] accepts the signature over the UTF-8 bytes of that
    message. *)
Theorem signature_over_reserialised_body
    (req : Request) (sg ts pk : string) (t : Z) :
  skipsAuthentication (path req) = false ->
  header req "x-signature" = Some sg ->
  header req "x-timestamp" = Some ts ->
  header req "x-public-key" = Some pk ->
  includes allowed (toLowerCase pk) = true ->
  parseInt ts = Some t ->
  Math_abs (Date_now / 1000 - t) <= 300 ->
  message req ts
  = method req +:+ ":" +:+ originalUrl req +:+ ":" +:+ ts +:+ ":"
    +:+ sha256_hex
          match body req with
          | Some (JObj (_ :: _) as v) | Some (JArr (_ :: _) as v)
          | Some (JStr (String _ _) as v) => JSON_stringify v
          | _ => EmptyString
          end
  /\ (verifySignature allowed Date_now req = next
      <-> exists keyObject,
            createPublicKey (spkiPrefix ++ Buffer_from_hex pk) = inr keyObject
            /\ verify (Buffer_from_utf8 (message req ts)) keyObject
                      (Buffer_from_hex sg) = inr true).
Proof.
  intros Hskip Hsg Hts Hpk Hin Ht Hfresh. split.
  - unfold message, bodyHash, bodyStr. do 2 f_equal.
    destruct (body req) as [[| b | n | s | l | l]|]; try reflexivity.
    + simpl. now destruct b.
    + simpl. now destruct (negb (n =? 0)).
    + now destruct s.
    + now destruct l.
    + now destruct l.
  - rewrite (verifySignature_next allowed Date_now req Hskip). split.
    + intros (sg' & ts' & pk' & Hsg' & Hts' & Hpk' & _ & _ & Hk).
      rewrite Hsg in Hsg'. rewrite Hts in Hts'. rewrite Hpk in Hpk'.
      injection Hsg' as <-. injection Hts' as <-. injection Hpk' as <-.
      exact Hk.
    + intros Hk. exists sg, ts, pk. repeat split; try assumption.
      now exists t.
Qed.

End canonical_message.

(** C1, witness: the signed mount request. *)
Lemma signature_over_reserialised_body_witness :
  skipsAuthentication (path Demo.mount_vault) = false
  /\ parseInt "1700000000" = Some 1700000000
  /\ (@verifySignature Demo.demo_crypto [Demo.key_hex] Demo.now Demo.mount_vault
      = next
      <-> exists keyObject,
            @createPublicKey Demo.demo_crypto
              (spkiPrefix ++ Buffer_from_hex Demo.key_hex) = inr keyObject
            /\ @verify Demo.demo_crypto
                 (Buffer_from_utf8 (message Demo.mount_vault "1700000000"))
                 keyObject
                 (Buffer_from_hex
                    (default EmptyString
                       (headers Demo.mount_vault !! "x-signature")))
               = inr true).
Proof.
  split; [by_computation|]. split; [by_computation|].
  apply (@signature_over_reserialised_body Demo.demo_crypto [Demo.key_hex]
           Demo.now Demo.mount_vault _ "1700000000" Demo.key_hex 1700000000);
    by_computation.
Defined.

(** C1, counterexample.  A client sends the body with a space after the
    colon and signs the message built on the digest of those bytes: the
    parsed body is re-serialised without the space, the verifier's message
    differs from the client's, and the request is rejected. *)
Lemma body_bytes_are_not_what_is_hashed :
  exists req,
    express_json Demo.wire_mount_vault = Some req
    /\ message req "1700000000"
       <> Spec.canonical_message Demo.wire_mount_vault "1700000000"
    /\ @verifySignature Demo.demo_crypto [Demo.key_hex] Demo.now req
       = send authentication_failed.
Proof.
  eexists. split; [vm_compute; reflexivity|].
  split; [vm_compute; discriminate | vm_compute; reflexivity].
Qed.

(* ===================================================================== *)
(** ** C2: requests without the authentication headers *)
(* ===================================================================== *)

Section missing_headers.
Context `{Crypto}.
Variable allowed : list string.

Lemma verifySignature_missing (now : Z) (req : Request) :
  skipsAuthentication (path req) = false ->
  allowed <> [] ->
  header req "x-signature" = None \/ header req "x-timestamp" = None
  \/ header req "x-public-key" = None ->
  verifySignature allowed now req = send missing_headers.
Proof.
  intros Hskip Hkeys Hmiss. unfold verifySignature. rewrite Hskip.
  destruct (Z.eqb_spec (Z.of_nat (length allowed)) 0) as [Hz|_].
  { destruct allowed; [congruence | simpl in Hz; lia]. }
  destruct Hmiss as [-> | [-> | ->]]; [reflexivity | |].
  - now destruct (header req "x-signature").
  - now destruct (header req "x-signature"), (header req "x-timestamp").
Qed.

(** C2, as amended.  A request that is subject to verification and lacks
    one of the three headers is answered 401 "Missing authentication
    headers", and that response is counted by the authentication-failure
    limiter like any response with a status of 400 or more: the client's
    hit count goes up by one, and from 20 hits on the limiter answers 429
    instead. *)
Theorem missing_headers_rejected_and_counted {W} (h : Host W) (w : W)
    (now : Z) (req : Request) (r : Route) (st : AppState) :
  skipsAuthentication (path req) = false ->
  allowed <> [] ->
  header req "x-signature" = None \/ header req "x-timestamp" = None
  \/ header req "x-public-key" = None ->
  verifySignature allowed now req = send missing_headers
  /\ exists st',
       run h (app allowed now req r st) w
       = ((if (20 <=? auth_hits now req st)%nat
           then too_many_authentication_failures else missing_headers, st'),
          [], w)
       /\ auth_hits now req st' = S (auth_hits now req st).
Proof.
  intros Hskip Hkeys Hmiss.
  pose proof (verifySignature_missing now req Hskip Hkeys Hmiss) as Hv.
  split; [exact Hv|].
  destruct (app_rejected allowed h w now req r st missing_headers Hv)
    as (st' & Hrun & _ & Hhits).
  exists st'. split; [exact Hrun|]. rewrite Hhits.
  now destruct (20 <=? auth_hits now req st)%nat.
Qed.

End missing_headers.

(** C2, witness: the mount request without its headers, on a fresh server. *)
Lemma missing_headers_rejected_and_counted_witness :
  skipsAuthentication (path Demo.unsigned_mount_vault) = false
  /\ exists st',
       run (Demo.scripted Demo.listening)
           (@app Demo.demo_crypto [Demo.key_hex] Demo.now
                 Demo.unsigned_mount_vault (POST_mount "vault") initial) tt
       = ((if (20 <=? auth_hits Demo.now Demo.unsigned_mount_vault initial)%nat
           then too_many_authentication_failures else missing_headers, st'),
          [], tt)
       /\ auth_hits Demo.now Demo.unsigned_mount_vault st'
          = S (auth_hits Demo.now Demo.unsigned_mount_vault initial).
Proof.
  split; [by_computation|].
  apply (@missing_headers_rejected_and_counted Demo.demo_crypto [Demo.key_hex]
           unit (Demo.scripted Demo.listening) tt Demo.now
           Demo.unsigned_mount_vault (POST_mount "vault") initial).
  - by_computation.
  - discriminate.
  - left. by_computation.
Defined.

(** C2, counterexample.  A client that sends nothing but requests without
    headers: the first one already leaves a hit, and the twenty-first is
    denied by the limiter. *)
Lemma missing_headers_reach_denial :
  let one := (Demo.now, Demo.unsigned_mount_vault, POST_mount "vault") in
  let after n :=
    @serve Demo.demo_crypto unit [Demo.key_hex] (Demo.scripted Demo.listening)
           (repeat one n) initial tt in
  auth_hits Demo.now Demo.unsigned_mount_vault initial = 0%nat
  /\ (after 1%nat).1.1 = [missing_headers]
  /\ auth_hits Demo.now Demo.unsigned_mount_vault (after 1%nat).1.2 = 1%nat
  /\ (after 21%nat).1.1
     = repeat missing_headers 20 ++ [too_many_authentication_failures].
Proof. vm_compute. repeat split. Qed.

(* ===================================================================== *)
(** ** C4, C5, C9: what each check of [verifySignature] answers *)
(* ===================================================================== *)

(** *** [parseInt] on a header that starts with digits *)

Lemma parseInt_digit_start (c : ascii) (r : string) :
  is_digit c = true -> parseInt (String c r) = digits 0 false (String c r).
Proof.
  destruct c as [[] [] [] [] [] [] [] []]; intros Hc;
    first [discriminate Hc | reflexivity].
Qed.

Lemma digits_leading (d rest : string) (acc : Z) (seen : bool) :
  forallb is_digit (chars d) = true ->
  (forall c r, rest = String c r -> is_digit c = false) ->
  seen = true \/ d <> EmptyString ->
  digits acc seen (d +:+ rest) = digits acc seen d
  /\ digits acc seen d <> None.
Proof.
  intros Hd Hrest. revert acc seen Hd.
  induction d as [|c d' IH]; intros acc seen Hd Hseen.
  - destruct Hseen as [-> | Hne]; [|now destruct Hne].
    change (EmptyString +:+ rest) with rest. cbn [digits].
    split; [|discriminate].
    destruct rest as [|c r]; [reflexivity|].
    cbn [digits]. pose proof (Hrest c r eq_refl) as Hc.
    unfold is_digit in Hc. now destruct (digit c).
  - change (chars (String c d')) with (c :: chars d') in Hd.
    cbn [forallb] in Hd. apply andb_true_iff in Hd as [Hc Hd'].
    change (String c d' +:+ rest) with (String c (d' +:+ rest)).
    cbn [digits]. unfold is_digit in Hc.
    destruct (digit c) as [v|]; [|discriminate Hc].
    apply IH; [exact Hd' | now left].
Qed.

(** what follows the digits a header starts with is not read *)
Lemma parseInt_leading_digits (d rest : string) :
  d <> EmptyString ->
  forallb is_digit (chars d) = true ->
  (forall c r, rest = String c r -> is_digit c = false) ->
  parseInt (d +:+ rest) = parseInt d /\ parseInt d <> None.
Proof.
  intros Hne Hd Hrest. destruct d as [|c d']; [now destruct Hne|].
  assert (Hc : is_digit c = true).
  { change (chars (String c d')) with (c :: chars d') in Hd.
    cbn [forallb] in Hd. now apply andb_true_iff in Hd as [Hc _]. }
  change (String c d' +:+ rest) with (String c (d' +:+ rest)).
  rewrite !(parseInt_digit_start c _ Hc).
  change (String c (d' +:+ rest)) with (String c d' +:+ rest).
  apply digits_leading; [exact Hd | exact Hrest | right; discriminate].
Qed.

(** *** The message determines its bytes, and the hash of the body its
    message *)

Lemma utf8_head_char (c : ascii) (r : list Z) :
  Properties.utf8_head (utf8_char c ++ r) = Some (c, r).
Proof. destruct c as [[] [] [] [] [] [] [] []]; reflexivity. Qed.

Lemma Buffer_from_utf8_inj (a b : string) :
  Buffer_from_utf8 a = Buffer_from_utf8 b -> a = b.
Proof.
  unfold Buffer_from_utf8. revert b.
  induction a as [|c r IH]; intros [|c' r'] Heq.
  - reflexivity.
  - change (chars (String c' r')) with (c' :: chars r') in Heq.
    cbn [flat_map] in Heq. apply (f_equal Properties.utf8_head) in Heq.
    rewrite utf8_head_char in Heq. discriminate Heq.
  - change (chars (String c r)) with (c :: chars r) in Heq.
    cbn [flat_map] in Heq. apply (f_equal Properties.utf8_head) in Heq.
    rewrite utf8_head_char in Heq. discriminate Heq.
  - change (chars (String c r)) with (c :: chars r) in Heq.
    change (chars (String c' r')) with (c' :: chars r') in Heq.
    cbn [flat_map] in Heq. apply (f_equal Properties.utf8_head) in Heq.
    rewrite !utf8_head_char in Heq. injection Heq as -> Hrest.
    now rewrite (IH r' Hrest).
Qed.

Lemma message_bodyHash (req req' : Request) (ts : string) :
  method req' = method req ->
  originalUrl req' = originalUrl req ->
  message req' ts = message req ts ->
  bodyHash (body req') = bodyHash (body req).
Proof.
  unfold message. intros -> -> Heq.
  repeat (apply String.app_inj in Heq). exact Heq.
Qed.

Section checks.
Context `{Crypto}.
Variable allowed : list string.
Variable Date_now : Z.

Lemma verifySignature_presented (req : Request) (sg ts pk : string) :
  presented allowed req sg ts pk ->
  verifySignature allowed Date_now req
  = match verifySignature_try allowed Date_now req sg ts pk with
    | inr o => o
    | inl _ => send verification_error
    end.
Proof.
  intros (Hskip & Hkeys & Hsg & Hts & Hpk).
  unfold verifySignature. rewrite Hskip, Hsg, Hts, Hpk.
  destruct (Z.eqb_spec (Z.of_nat (length allowed)) 0) as [Hz|_]; [|reflexivity].
  destruct allowed; [congruence | simpl in Hz; lia].
Qed.

Lemma verifySignature_try_failed (req : Request) (sg ts pk : string) :
  fails_a_check allowed Date_now req sg ts pk ->
  verifySignature_try allowed Date_now req sg ts pk
  = inr (send authentication_failed).
Proof.
  unfold verifySignature_try, fails_a_check. intros Hfail.
  destruct (includes allowed (toLowerCase pk)); cbn [negb]; [|reflexivity].
  destruct (parseInt ts) as [t|]; [|reflexivity].
  destruct (Z.ltb_spec 300 (Math_abs (Date_now / 1000 - t))) as [|Hle];
    [reflexivity|].
  destruct Hfail as [Hf | [Hf | [(t' & Ht' & Hlt) | (k & Hk & Hv)]]];
    try discriminate.
  - injection Ht' as <-. lia.
  - rewrite Hk, Hv. reflexivity.
Qed.

Lemma verifySignature_failed (req : Request) (sg ts pk : string) :
  presented allowed req sg ts pk -> fails_a_check allowed Date_now req sg ts pk ->
  verifySignature allowed Date_now req = send authentication_failed.
Proof.
  intros Hp Hf. rewrite (verifySignature_presented req sg ts pk Hp).
  now rewrite (verifySignature_try_failed req sg ts pk Hf).
Qed.

Lemma verifySignature_try_sends (req : Request) (sg ts pk : string) (res : Response) :
  verifySignature_try allowed Date_now req sg ts pk = inr (send res) ->
  res = authentication_failed.
Proof.
  unfold verifySignature_try.
  destruct (includes allowed (toLowerCase pk)); cbn [negb]; [|congruence].
  destruct (parseInt ts) as [t|]; [|congruence].
  destruct (300 <? Math_abs (Date_now / 1000 - t)); [congruence|].
  destruct (createPublicKey _) as [e|k]; [discriminate|].
  destruct (verify _ k _) as [e|[|]]; cbn [negb]; congruence.
Qed.

(** a rejection is one of three responses *)
Lemma verifySignature_sends (req : Request) (res : Response) :
  skipsAuthentication (path req) = false ->
  allowed <> [] ->
  verifySignature allowed Date_now req = send res ->
  res = missing_headers \/ res = authentication_failed
  \/ res = verification_error.
Proof.
  intros Hskip Hkeys Hsend.
  destruct (header req "x-signature") as [sg|] eqn:Hsg;
    [destruct (header req "x-timestamp") as [ts|] eqn:Hts;
     [destruct (header req "x-public-key") as [pk|] eqn:Hpk|]|].
  - rewrite (verifySignature_presented req sg ts pk) in Hsend
      by (repeat split; assumption).
    destruct (verifySignature_try allowed Date_now req sg ts pk) as [e|o] eqn:Ht.
    + injection Hsend as <-. auto.
    + subst o. apply verifySignature_try_sends in Ht. auto.
  - rewrite verifySignature_missing in Hsend by auto. injection Hsend as <-. auto.
  - rewrite verifySignature_missing in Hsend by auto. injection Hsend as <-. auto.
  - rewrite verifySignature_missing in Hsend by auto. injection Hsend as <-. auto.
Qed.

(** C4, as amended.  With keys configured, every rejection of a request
    that is subject to verification has status 401.  A key that is not
    configured, a timestamp that is not a number or is out of the window,
    and a signature that [verify] reports false are answered with the very
    same response, "Authentication failed".  The two other rejections have
    bodies of their own: "Missing authentication headers" when a header is
    missing, "Signature verification failed" when building the key or
    verifying throws. *)
Theorem rejections_by_check (req : Request) :
  skipsAuthentication (path req) = false ->
  allowed <> [] ->
  (forall res, verifySignature allowed Date_now req = send res ->
     statusCode res = 401
     /\ (res = missing_headers \/ res = authentication_failed
         \/ res = verification_error))
  /\ (forall sg ts pk, presented allowed req sg ts pk ->
        fails_a_check allowed Date_now req sg ts pk ->
        verifySignature allowed Date_now req = send authentication_failed)
  /\ (header req "x-signature" = None \/ header req "x-timestamp" = None
      \/ header req "x-public-key" = None ->
      verifySignature allowed Date_now req = send missing_headers)
  /\ (forall sg ts pk error, presented allowed req sg ts pk ->
        verifySignature_try allowed Date_now req sg ts pk = inl error ->
        verifySignature allowed Date_now req = send verification_error).
Proof.
  intros Hskip Hkeys. split; [|split; [|split]].
  - intros res Hsend.
    pose proof (verifySignature_sends req res Hskip Hkeys Hsend) as Hres.
    split; [|exact Hres]. destruct Hres as [-> | [-> | ->]]; reflexivity.
  - intros sg ts pk. apply verifySignature_failed.
  - now apply verifySignature_missing.
  - intros sg ts pk error Hp Ht.
    rewrite (verifySignature_presented req sg ts pk Hp). now rewrite Ht.
Qed.

(** C5, as amended.  For a request that is subject to verification:
    [next()] is reached only if the timestamp header starts with a
    number, as [parseInt] reads it, that is at most 300 seconds before or
    after the server's clock; with keys configured and the headers
    present, a timestamp with no number to read, or one whose number is
    more than 300 seconds away on either side (301 for one), is answered
    401 and the limiter keeps the hit.  What follows the digits is not
    read: a header made of digits and any text after them passes the
    freshness check like the digits alone.  A configured key, a timestamp
    in the window and a signature that verifies over the message
    METHOD:originalUrl:timestamp:hash, the hash being that of the parsed
    body written out again by [JSON.stringify] (of the empty string for a
    body without keys), reach [next()]; each single deviation (the key not
    configured, the timestamp out of the window, a signature that does not
    verify over that message) is answered 401; and so is a request whose
    body was changed so that its hash differs, under a signature that
    verifies for the signed message only. *)
Theorem freshness_window (req : Request) :
  skipsAuthentication (path req) = false ->
  (verifySignature allowed Date_now req = next ->
   exists ts t, header req "x-timestamp" = Some ts /\ parseInt ts = Some t
                /\ Math_abs (Date_now / 1000 - t) <= 300
                /\ t - 300 <= Date_now / 1000 <= t + 300)
  /\ (forall sg ts pk, presented allowed req sg ts pk ->
        (parseInt ts = None
         \/ exists t, parseInt ts = Some t
                      /\ (300 < Math_abs (Date_now / 1000 - t)
                          \/ Date_now / 1000 < t - 300
                          \/ t + 300 < Date_now / 1000)) ->
        verifySignature allowed Date_now req = send authentication_failed
        /\ forall W (h : Host W) w r st,
             (auth_hits Date_now req st < 20)%nat ->
             exists st',
               run h (app allowed Date_now req r st) w
               = ((authentication_failed, st'), [], w)
               /\ auth_hits Date_now req st' = S (auth_hits Date_now req st))
  /\ (forall sg ts pk t, presented allowed req sg ts pk -> parseInt ts = Some t ->
        Math_abs (Date_now / 1000 - t) = 301 ->
        verifySignature allowed Date_now req = send authentication_failed)
  /\ (forall sg ts pk t keyObject,
        header req "x-signature" = Some sg ->
        header req "x-timestamp" = Some ts ->
        header req "x-public-key" = Some pk ->
        includes allowed (toLowerCase pk) = true ->
        parseInt ts = Some t ->
        t - 300 <= Date_now / 1000 <= t + 300 ->
        createPublicKey (spkiPrefix ++ Buffer_from_hex pk) = inr keyObject ->
        verify (Buffer_from_utf8
                  (method req +:+ ":" +:+ originalUrl req +:+ ":" +:+ ts +:+ ":"
                   +:+ sha256_hex (bodyStr (body req))))
               keyObject (Buffer_from_hex sg) = inr true ->
        verifySignature allowed Date_now req = next)
  /\ (forall d rest,
        d <> EmptyString ->
        forallb is_digit (chars d) = true ->
        (forall c r, rest = String c r -> is_digit c = false) ->
        parseInt (d +:+ rest) = parseInt d /\ parseInt d <> None)
  /\ (forall sg ts pk, presented allowed req sg ts pk -> fails_a_check allowed Date_now req sg ts pk ->
        verifySignature allowed Date_now req = send authentication_failed)
  /\ (forall req' sg ts pk keyObject,
        presented allowed req' sg ts pk ->
        method req' = method req ->
        originalUrl req' = originalUrl req ->
        bodyHash (body req') <> bodyHash (body req) ->
        createPublicKey (spkiPrefix ++ Buffer_from_hex pk) = inr keyObject ->
        (forall msg, verify msg keyObject (Buffer_from_hex sg) = inr true ->
                     msg = Buffer_from_utf8 (message req ts)) ->
        exists res, verifySignature allowed Date_now req' = send res
                    /\ statusCode res = 401).
Proof.
  intros Hskip. split; [|split; [|split; [|split; [|split; [|split]]]]].
  - intros Hn. apply (verifySignature_next allowed Date_now req Hskip) in Hn.
    destruct Hn as (sg & ts & pk & _ & Hts & _ & _ & (t & Ht & Hw) & _).
    exists ts, t. split; [exact Hts|]. split; [exact Ht|].
    split; [exact Hw|]. unfold Math_abs in Hw. lia.
  - intros sg ts pk Hp Hbad.
    assert (Hv : verifySignature allowed Date_now req = send authentication_failed).
    { apply (verifySignature_failed req sg ts pk Hp).
      destruct Hbad as [Hn | (t & Ht & Hout)]; [right; left; exact Hn|].
      right; right; left. exists t. split; [exact Ht|].
      unfold Math_abs in *. lia. }
    split; [exact Hv|]. intros W h w r st Hroom.
    destruct (app_rejected allowed h w Date_now req r st authentication_failed Hv)
      as (st' & Hrun & _ & Hhits).
    assert (Hlt : (20 <=? auth_hits Date_now req st)%nat = false)
      by (apply Nat.leb_gt; exact Hroom).
    rewrite Hlt in Hrun, Hhits. exists st'. split; [exact Hrun | exact Hhits].
  - intros sg ts pk t Hp Ht H301.
    apply (verifySignature_failed req sg ts pk Hp).
    right; right; left. exists t. split; [assumption | lia].
  - intros sg ts pk t k Hsg Hts Hpk Hin Ht Hw Hk Hv.
    apply (verifySignature_next allowed Date_now req Hskip).
    exists sg, ts, pk. split; [exact Hsg|]. split; [exact Hts|].
    split; [exact Hpk|]. split; [exact Hin|]. split.
    + exists t. split; [exact Ht|]. unfold Math_abs. lia.
    + exists k. split; [exact Hk | exact Hv].
  - intros d rest. apply parseInt_leading_digits.
  - intros sg ts pk. apply verifySignature_failed.
  - intros req' sg ts pk k Hp Hmethod Hurl Hhash Hk Hbound.
    pose proof Hp as (Hskip' & Hkeys & Hsg & Hts & Hpk).
    destruct (verifySignature allowed Date_now req') as [|res] eqn:Hv.
    + exfalso. apply (verifySignature_next allowed Date_now req' Hskip') in Hv.
      destruct Hv as (sg' & ts' & pk' & Hsg' & Hts' & Hpk' & _ & _ & (k' & Hk' & Hver)).
      assert (sg' = sg) by congruence. assert (ts' = ts) by congruence.
      assert (pk' = pk) by congruence. subst sg' ts' pk'.
      assert (k' = k) by congruence. subst k'.
      apply Hbound, Buffer_from_utf8_inj in Hver.
      now apply Hhash, (message_bodyHash req req' ts).
    + exists res. split; [reflexivity|].
      destruct (verifySignature_sends req' res Hskip' Hkeys Hv) as [-> | [-> | ->]];
        reflexivity.
Qed.

(** C9.  [verifySignature] answers every request: it calls [next()] or
    sends a 401 or a 503.  In particular, when building the key throws
    (the key header is not the hexadecimal form of a key) or [verify]
    throws, the exception is caught and the answer is 401 "Signature
    verification failed". *)
Theorem verifySignature_catches (req : Request) :
  (verifySignature allowed Date_now req = next
   \/ exists res, verifySignature allowed Date_now req = send res
                  /\ (statusCode res = 401 \/ statusCode res = 503))
  /\ (forall sg ts pk t error, presented allowed req sg ts pk ->
        includes allowed (toLowerCase pk) = true ->
        parseInt ts = Some t -> Math_abs (Date_now / 1000 - t) <= 300 ->
        createPublicKey (spkiPrefix ++ Buffer_from_hex pk) = inl error ->
        verifySignature allowed Date_now req = send verification_error)
  /\ (forall sg ts pk t keyObject error, presented allowed req sg ts pk ->
        includes allowed (toLowerCase pk) = true ->
        parseInt ts = Some t -> Math_abs (Date_now / 1000 - t) <= 300 ->
        createPublicKey (spkiPrefix ++ Buffer_from_hex pk) = inr keyObject ->
        verify (Buffer_from_utf8 (message req ts)) keyObject
               (Buffer_from_hex sg) = inl error ->
        verifySignature allowed Date_now req = send verification_error).
Proof.
  split; [|split].
  - unfold verifySignature.
    destruct (skipsAuthentication (path req)); [now left|].
    destruct (Z.of_nat (length allowed) =? 0);
      [right; eexists; split; [reflexivity | now right]|].
    destruct (header req "x-signature") as [sg|];
      [|right; eexists; split; [reflexivity | now left]].
    destruct (header req "x-timestamp") as [ts|];
      [|right; eexists; split; [reflexivity | now left]].
    destruct (header req "x-public-key") as [pk|];
      [|right; eexists; split; [reflexivity | now left]].
    destruct (verifySignature_try allowed Date_now req sg ts pk) as [e|[|res]] eqn:Ht.
    + right; eexists; split; [reflexivity | now left].
    + now left.
    + apply verifySignature_try_sends in Ht. subst res.
      right; eexists; split; [reflexivity | now left].
  - intros sg ts pk t error Hp Hin Ht Hw Hk.
    rewrite (verifySignature_presented req sg ts pk Hp).
    unfold verifySignature_try. rewrite Hin, Ht. cbn [negb].
    destruct (Z.ltb_spec 300 (Math_abs (Date_now / 1000 - t))); [lia|].
    now rewrite Hk.
  - intros sg ts pk t k error Hp Hin Ht Hw Hk Hv.
    rewrite (verifySignature_presented req sg ts pk Hp).
    unfold verifySignature_try. rewrite Hin, Ht. cbn [negb].
    destruct (Z.ltb_spec 300 (Math_abs (Date_now / 1000 - t))); [lia|].
    now rewrite Hk, Hv.
Qed.

End checks.

(** C4, witness: the request signed under a key that is not configured. *)
Lemma rejections_by_check_witness :
  skipsAuthentication (path Demo.untrusted_mount_vault) = false
  /\ [Demo.key_hex] <> []
  /\ forall res,
       @verifySignature Demo.demo_crypto [Demo.key_hex] Demo.now
         Demo.untrusted_mount_vault = send res ->
       statusCode res = 401
       /\ (res = missing_headers \/ res = authentication_failed
           \/ res = verification_error).
Proof.
  split; [by_computation|]. split; [discriminate|].
  exact (proj1 (@rejections_by_check Demo.demo_crypto [Demo.key_hex] Demo.now
                  Demo.untrusted_mount_vault
                  ltac:(by_computation) ltac:(discriminate))).
Defined.

(** C4, counterexample.  The request without headers and the request under
    a key that is not configured are both rejected, with different
    responses: the body tells which check failed. *)
Lemma missing_headers_told_apart :
  @verifySignature Demo.demo_crypto [Demo.key_hex] Demo.now
    Demo.unsigned_mount_vault = send missing_headers
  /\ @verifySignature Demo.demo_crypto [Demo.key_hex] Demo.now
       Demo.untrusted_mount_vault = send authentication_failed
  /\ missing_headers <> authentication_failed.
Proof.
  split; [vm_compute; reflexivity|]. split; [vm_compute; reflexivity|].
  discriminate.
Qed.

(** C5, witness: the mount request stamped 300 seconds before the server's
    clock passes, the one stamped 301 seconds before is rejected; and
    under signatures that verify for one message only, the request whose
    body was changed after signing is rejected. *)
Lemma freshness_window_witness :
  skipsAuthentication (path Demo.mount_vault_300) = false
  /\ @verifySignature Demo.demo_crypto [Demo.key_hex] Demo.now
       Demo.mount_vault_300 = next
  /\ @verifySignature Demo.demo_crypto [Demo.key_hex] Demo.now
       Demo.mount_vault_301 = send authentication_failed
  /\ @verifySignature Demo.literal_crypto [Demo.key_hex] Demo.now
       (Demo.literally_signed (Demo.password_body "P")) = next
  /\ exists res,
       @verifySignature Demo.literal_crypto [Demo.key_hex] Demo.now
         (Demo.literally_signed (Demo.password_body "Q")) = send res
       /\ statusCode res = 401.
Proof.
  split; [by_computation|]. split; [|split; [|split]].
  - apply (proj1 (proj2 (proj2 (proj2
             (@freshness_window Demo.demo_crypto [Demo.key_hex] Demo.now
                Demo.mount_vault_300 ltac:(by_computation)))))
           (signature_of Demo.mount_vault_300) "1699999700" Demo.key_hex
           1699999700 (Buffer_from_hex Demo.key_hex));
      first [ by_computation
            | vm_compute; split; intros Hc; discriminate Hc ].
  - apply (proj1 (proj2 (proj2
             (@freshness_window Demo.demo_crypto [Demo.key_hex] Demo.now
                Demo.mount_vault_301 ltac:(by_computation))))
           (signature_of Demo.mount_vault_301) "1699999699" Demo.key_hex
           1699999699);
      [presented_by_computation | by_computation | by_computation].
  - by_computation.
  - apply (proj2 (proj2 (proj2 (proj2 (proj2 (proj2
             (@freshness_window Demo.literal_crypto [Demo.key_hex] Demo.now
                (Demo.literally_signed (Demo.password_body "P"))
                ltac:(by_computation)))))))
           (Demo.literally_signed (Demo.password_body "Q"))
           (signature_of (Demo.literally_signed (Demo.password_body "Q")))
           "1700000000" Demo.key_hex (spkiPrefix ++ Buffer_from_hex Demo.key_hex)).
    + presented_by_computation.
    + reflexivity.
    + reflexivity.
    + by_computation.
    + reflexivity.
    + intros msg Hmsg.
      assert (Hsig : Buffer_from_hex
                       (signature_of (Demo.literally_signed (Demo.password_body "Q")))
                     = Buffer_from_utf8
                         (message (Demo.literally_signed (Demo.password_body "P"))
                                  "1700000000")) by by_computation.
      rewrite Hsig in Hmsg. cbn [verify Demo.literal_crypto] in Hmsg.
      injection Hmsg as Hmsg. apply bool_decide_eq_true in Hmsg.
      symmetry. exact Hmsg.
Defined.

(** C5, counterexample.  A request under a configured key, stamped with
    the server's own time, whose signature is valid over the canonical
    message of the specification (the digest of the body bytes as sent),
    is rejected: the body was sent with a space after the colon.  And a
    timestamp that is no number, "1700000000abc", is accepted, signed as
    such; so is one 300 seconds ahead of the clock, while 301 seconds
    ahead is rejected. *)
Lemma fresh_signature_over_body_bytes_rejected :
  exists req,
    express_json Demo.wire_mount_vault = Some req
    /\ header req "x-public-key" = Some Demo.key_hex
    /\ includes [Demo.key_hex] (toLowerCase Demo.key_hex) = true
    /\ header req "x-timestamp" = Some "1700000000"
    /\ parseInt "1700000000" = Some (Demo.now / 1000)
    /\ @verify Demo.demo_crypto
         (Buffer_from_utf8
            (Spec.canonical_message Demo.wire_mount_vault "1700000000"))
         (Buffer_from_hex Demo.key_hex)
         (Buffer_from_hex (signature_of req)) = inr true
    /\ @verifySignature Demo.demo_crypto [Demo.key_hex] Demo.now req
       = send authentication_failed
    /\ header Demo.mount_vault_trailing "x-timestamp" = Some "1700000000abc"
    /\ @verifySignature Demo.demo_crypto [Demo.key_hex] Demo.now
         Demo.mount_vault_trailing = next
    /\ @verifySignature Demo.demo_crypto [Demo.key_hex] Demo.now
         Demo.mount_vault_ahead_300 = next
    /\ @verifySignature Demo.demo_crypto [Demo.key_hex] Demo.now
         Demo.mount_vault_ahead_301 = send authentication_failed.
Proof.
  eexists. split; [vm_compute; reflexivity|].
  do 9 (split; [vm_compute; reflexivity|]). vm_compute; reflexivity.
Qed.

(** What "parses as a number" means in C5: [parseInt] reads the digits a
    timestamp starts with and ignores what follows them, so a timestamp
    such as "1700000000abc" is a number for the freshness check; the
    message that is verified carries the header as sent. *)
Remark timestamp_with_trailing_text :
  parseInt "1700000000abc" = Some 1700000000
  /\ @verifySignature Demo.demo_crypto [Demo.key_hex] Demo.now
       Demo.mount_vault_trailing = next
  /\ @verifySignature Demo.demo_crypto [Demo.key_hex] Demo.now
       Demo.mount_vault_mutated = send authentication_failed.
Proof. vm_compute. repeat split. Qed.

(** C9, witness: the configured entry "zz" is no key; presenting it makes
    [createPublicKey] throw, and the answer is a 401. *)
Lemma verifySignature_catches_witness :
  @createPublicKey Demo.demo_crypto (spkiPrefix ++ Buffer_from_hex "zz")
  = inl {| Effects.message := "Invalid key length" |}
  /\ @verifySignature Demo.demo_crypto ["zz"] Demo.now Demo.mount_vault_bad_key
     = send verification_error.
Proof.
  split; [by_computation|].
  apply (proj1 (proj2
           (@verifySignature_catches Demo.demo_crypto ["zz"] Demo.now
              Demo.mount_vault_bad_key))
         (signature_of Demo.mount_vault_bad_key) "1700000000" "zz" 1700000000
         {| Effects.message := "Invalid key length" |});
    [presented_by_computation | by_computation ..].
Defined.

(* ===================================================================== *)
(** ** C6: the comparison with the configured keys *)
(* ===================================================================== *)

(** A configured entry with an upper-case letter equals no lower-cased
    key. *)
Lemma uppercase_entry_matches_nothing (k pk : string) :
  toLowerCase k <> k -> seq (toLowerCase pk) k = false.
Proof.
  intros Hup. apply seq_false. intros Heq. apply Hup.
  rewrite <- Heq. apply toLowerCase_idem.
Qed.

(** With entries in lower case, a key is configured exactly when it equals
    an entry up to the case of its letters. *)
Lemma lowercase_entries_case_insensitive (allowed : list string) (pk : string) :
  Forall (fun k => toLowerCase k = k) allowed ->
  (includes allowed (toLowerCase pk) = true
   <-> exists k, In k allowed /\ toLowerCase k = toLowerCase pk).
Proof.
  intros Hlow. rewrite includes_In. rewrite Forall_forall in Hlow. split.
  - intros Hin. exists (toLowerCase pk). split; [assumption|].
    apply toLowerCase_idem.
  - intros (k & Hin & Heq). rewrite <- Heq.
    rewrite (Hlow k); [assumption|]. now apply list_elem_of_In.
Qed.

(** C6, the code at the failing input.  The server is configured with a key
    written in upper case.  The client that presents this very key, with a
    signature that verifies, is rejected, and so is the client that
    presents it in lower case; with the entry in lower case, the key is
    accepted in either case. *)
Theorem uppercase_entry_rejects_its_own_key :
  Server.ALLOWED_PUBLIC_KEYS (Some Demo.KEY_HEX) = [Demo.KEY_HEX]
  /\ toLowerCase Demo.KEY_HEX = Demo.key_hex
  /\ @verifySignature Demo.demo_crypto [Demo.KEY_HEX] Demo.now
       Demo.mount_vault_upper = send authentication_failed
  /\ @verifySignature Demo.demo_crypto [Demo.KEY_HEX] Demo.now
       Demo.mount_vault = send authentication_failed
  /\ @verifySignature Demo.demo_crypto [Demo.key_hex] Demo.now
       Demo.mount_vault_upper = next
  /\ @verifySignature Demo.demo_crypto [Demo.key_hex] Demo.now
       Demo.mount_vault = next.
Proof. vm_compute. repeat split. Qed.

(* ===================================================================== *)
(** ** The mount and unmount handlers, call by call *)
(* ===================================================================== *)

(** the three commands of the mount handler differ in their verb *)
Lemma verb_differs (verb1 verb2 name1 name2 : string) :
  String.get 60 (SUDO +:+ " " +:+ SYSTEMCTL +:+ " " +:+ verb1 +:+ name1)
  <> String.get 60 (SUDO +:+ " " +:+ SYSTEMCTL +:+ " " +:+ verb2 +:+ name2) ->
  SUDO +:+ " " +:+ SYSTEMCTL +:+ " " +:+ verb1 +:+ name1
  <> SUDO +:+ " " +:+ SYSTEMCTL +:+ " " +:+ verb2 +:+ name2.
Proof. intros Hne Heq. apply Hne. now rewrite Heq. Qed.

Lemma is_active_not_start (name : string) : is_active_cmd name <> start_cmd name.
Proof.
  apply (verb_differs "is-active " "start " (unit_name name) (unit_name name)).
  vm_compute. discriminate.
Qed.

Lemma reset_failed_not_start (name : string) :
  reset_failed_cmd name <> start_cmd name.
Proof.
  apply (verb_differs "reset-failed "  "start " (unit_name name +:+ " 2>/dev/null || true")
           (unit_name name)).
  vm_compute. discriminate.
Qed.

Lemma is_active_not_reset_failed (name : string) :
  is_active_cmd name <> reset_failed_cmd name.
Proof.
  apply (verb_differs "is-active " "reset-failed " (unit_name name)
           (unit_name name +:+ " 2>/dev/null || true")).
  vm_compute. discriminate.
Qed.

Lemma mountHandler_valid (req : Request) (name : string) (pw : json) :
  passes_validation req name pw ->
  mountHandler req name = mount_after_validation name pw.
Proof.
  intros (Hname & (b & Hb & Hpw) & Htruthy). unfold mountHandler.
  rewrite Hb, Hname. destruct b; try discriminate Hpw; now rewrite Hpw, Htruthy.
Qed.

(** without a valid name and password nothing is awaited *)
Lemma mountHandler_invalid {W} (h : Host W) (w : W) (req : Request) (name : string) :
  (forall pw, ~ passes_validation req name pw) ->
  exists res, run h (mountHandler req name) w = (res, [], w)
              /\ (statusCode res = 400 \/ statusCode res = 500).
Proof.
  intros Hinv. unfold mountHandler.
  destruct (body req) as [b|] eqn:Hb;
    [|eexists; split; [reflexivity | now right]].
  assert (Hcases :
    forall pw, get_prop "password" b = Some pw ->
               nameRegex_test name = true -> truthy (Some pw) = false).
  { intros pw Hpw Hname. destruct (truthy (Some pw)) eqn:Ht; [|reflexivity].
    exfalso. apply (Hinv pw). repeat split; eauto. }
  destruct (nameRegex_test name) eqn:Hname; cbn [negb].
  - destruct (get_prop "password" b) as [pw|] eqn:Hpw.
    + rewrite (Hcases pw eq_refl eq_refl). cbn [negb].
      destruct b; eexists; (split; [reflexivity | auto]).
    + destruct b; eexists; (split; [reflexivity | auto]).
  - destruct b; eexists; (split; [reflexivity | auto]).
Qed.

Section mount_calls.
Context {W : Type}.
Variable h : Host W.

Lemma mount_after_validation_run (name : string) (pw : json) (w : W) :
  mount_run h name pw w (run h (mount_after_validation name pw) w).
Proof.
  unfold mount_after_validation. simpl.
  destruct (answer h (execAsync (is_active_cmd name)) w) as [status w1] eqn:E0.
  destruct (reports_active status) eqn:Hact; simpl.
  { now apply run_already_mounted. }
  destruct (answer h (execAsync (reset_failed_cmd name)) w1) as [[error|o1] w2] eqn:E1;
    simpl.
  { now apply run_reset_failed with (w1 := w1). }
  destruct (answer h (execAsync (start_cmd name)) w2) as [[error|o2] w3] eqn:E2;
    simpl.
  { now apply run_start_failed with (w1 := w1) (w2 := w2). }
  destruct (answer h (setTimeout 500) w3) as [[] w4] eqn:E3.
  destruct (answer h (open (pipePath name) (Z.lor O_WRONLY O_NONBLOCK)) w4)
    as [opened w5] eqn:E4.
  destruct opened as [error|fd]; simpl.
  { apply run_started with (w1 := w1) (w2 := w2) (w3 := w3) (w4 := w4) (w5 := w5)
                           (t := []); try assumption.
    apply run_open_failed. }
  destruct (ToString pw) as [secret|] eqn:Econv; simpl.
  - destruct (answer h (writeFile fd (secret +:+ newline)) w5)
      as [written w6] eqn:E5.
    destruct (answer h (close fd) w6) as [closed w7] eqn:E6.
    assert (Hch : channel_run h name pw (inr fd) w5
                    (match closed, written with
                     | inl error, _ => write_failed error
                     | inr _, inl error => write_failed error
                     | inr _, inr _ => success
                     end,
                     [called_writeFile fd (secret +:+ newline) written;
                      called_close fd closed], w7))
      by now apply run_written with (w6 := w6).
    pose proof (run_started h name pw w status w1 o1 w2 o2 w3 w4 (inr fd) w5 _ _ _
                  E0 Hact E1 E2 E3 E4 Hch) as Hrun.
    destruct closed as [e|[]], written as [e'|[]]; exact Hrun.
  - destruct (answer h (close fd) w5) as [closed w6] eqn:E6.
    assert (Hch : channel_run h name pw (inr fd) w5
                    (match closed with
                     | inl error => write_failed error
                     | inr _ => write_failed cannot_convert
                     end,
                     [called_close fd closed], w6))
      by now apply run_not_converted.
    pose proof (run_started h name pw w status w1 o1 w2 o2 w3 w4 (inr fd) w5 _ _ _
                  E0 Hact E1 E2 E3 E4 Hch) as Hrun.
    destruct closed as [e|[]]; exact Hrun.
Qed.

End mount_calls.

Lemma validation_decided (req : Request) (name : string) :
  (exists pw, passes_validation req name pw)
  \/ (forall pw, ~ passes_validation req name pw).
Proof.
  unfold passes_validation.
  destruct (nameRegex_test name); [|right; intros pw (? & _); discriminate].
  destruct (body req) as [b|];
    [|right; intros pw (_ & (b & ? & _) & _); discriminate].
  destruct (get_prop "password" b) as [pw|] eqn:Hpw.
  - destruct (truthy (Some pw)) eqn:Ht.
    + left. exists pw. repeat split; eauto.
    + right. intros pw' (_ & (b' & [= <-] & Hpw') & Ht'). congruence.
  - right. intros pw' (_ & (b' & [= <-] & Hpw') & _). congruence.
Qed.

Lemma responses_differ :
  already_mounted <> success
  /\ (forall e, start_failed e <> success)
  /\ (forall e, write_failed e <> success).
Proof. repeat split; intros; discriminate. Qed.

(* ===================================================================== *)
(** ** C10: a worker that does not start *)
(* ===================================================================== *)

(** C10.  When [systemctl start] fails during a mount request (or the
    [reset-failed] before it), the response is the 500 "Failed to start
    mount service" with the message of that failure, and the handler has
    awaited no call on the secret channel: it neither opened it nor wrote
    to it. *)
Theorem start_failure_leaves_channel_alone {W} (h : Host W) (w : W)
    (req : Request) (name : string) (error : Error) :
  Exists (failed_exec (start_cmd name) error) (calls h (mountHandler req name) w)
  \/ Exists (failed_exec (reset_failed_cmd name) error)
            (calls h (mountHandler req name) w) ->
  result h (mountHandler req name) w = start_failed error
  /\ statusCode (result h (mountHandler req name) w) = 500
  /\ List.filter is_channel_call (calls h (mountHandler req name) w) = [].
Proof.
  unfold calls, result.
  destruct (validation_decided req name) as [(pw & Hvalid) | Hinvalid].
  2:{ destruct (mountHandler_invalid h w req name Hinvalid) as (res & -> & _).
      simpl. intros [Hex | Hex]; inversion Hex. }
  rewrite (mountHandler_valid req name pw Hvalid).
  pose proof (mount_after_validation_run h name pw w) as Hrun.
  pose proof (is_active_not_start name) as Hne1.
  pose proof (reset_failed_not_start name) as Hne2.
  pose proof (is_active_not_reset_failed name) as Hne3.
  destruct (run h (mount_after_validation name pw) w) as [[res t] w'].
  unfold failed_exec. simpl.
  inversion Hrun as [| | | ? ? ? ? ? ? ? ? ? ? ? ? ? ? ? ? ? ? Hch]; subst;
    try (inversion Hch; subst); simpl;
    intros [Hex | Hex];
    repeat match goal with
           | Hx : Exists _ (_ :: _) |- _ => apply Exists_cons in Hx; destruct Hx as [Hx | Hx]
           | Hx : Exists _ [] |- _ => inversion Hx
           | Hx : called_exec _ _ = called_exec _ _ |- _ =>
               inversion Hx; clear Hx; subst
           | Hx : _ = called_exec _ _ |- _ => discriminate Hx
           end;
    try congruence;
    repeat split; reflexivity.
Qed.

(** C10, witness: [systemctl start] exits with status 1. *)
Lemma start_failure_leaves_channel_alone_witness :
  result (Demo.scripted Demo.start_fails)
         (mountHandler Demo.mount_vault "vault") tt
  = start_failed {| Effects.message := "Command failed with exit code 1" |}
  /\ List.filter is_channel_call
       (calls (Demo.scripted Demo.start_fails)
              (mountHandler Demo.mount_vault "vault") tt) = [].
Proof.
  pose proof (start_failure_leaves_channel_alone
                (Demo.scripted Demo.start_fails) tt Demo.mount_vault "vault"
                {| Effects.message := "Command failed with exit code 1" |}) as Hthm.
  assert (Hfail :
    Exists (failed_exec (start_cmd "vault")
              {| Effects.message := "Command failed with exit code 1" |})
           (calls (Demo.scripted Demo.start_fails)
                  (mountHandler Demo.mount_vault "vault") tt)).
  { vm_compute. do 2 apply Exists_cons_tl. apply Exists_cons_hd. reflexivity. }
  destruct (Hthm (or_introl Hfail)) as (Hres & _ & Hch). split; assumption.
Defined.

(* ===================================================================== *)
(** ** The unlock unit: one mount at most *)
(* ===================================================================== *)

Section unit_facts.
Import Unit.
Variable name : string.
Variable m : Mount.

Lemma echo_mounts (line : string) (v : Volume) : mounts (echo line v) = mounts v.
Proof. reflexivity. Qed.

(** the unlock script adds its mount when it exits 0 and not otherwise *)
Lemma mkUnlockScript_mounts (self : nat) (data : string) (t : UnlockTools)
    (v : Volume) :
  let '(p, v') := mkUnlockScript name m self data t v in
  (p = exit 0 /\ mounts v' = self :: mounts v)
  \/ (p <> exit 0 /\ mounts v' = mounts v).
Proof.
  unfold mkUnlockScript.
  destruct (seq (strip_newlines data) EmptyString); [right; now split|].
  destruct (type m), (losetup_find t), (luksOpen t), (mkdir_p t), (mount_cmd t);
    simpl; first [left; now split | right; now split].
Qed.

(** the cleanup script removes a mount or leaves the mounts as they are *)
Lemma mkCleanupScript_mounts (t : CleanupTools) (v : Volume) :
  mounts (mkCleanupScript name m t v) = mounts v
  \/ mounts (mkCleanupScript name m t v) = tl (mounts v).
Proof.
  unfold mkCleanupScript, echo. destruct v as [ms mp lp jn]. simpl.
  destruct ms as [|i rest], (umount t), mp, (luksClose t), (type m),
    (losetup_d t); simpl; auto.
Qed.

Lemma mkCleanupScript_length (t : CleanupTools) (v : Volume) :
  (length (mounts (mkCleanupScript name m t v)) <= length (mounts v))%nat.
Proof.
  destruct (mkCleanupScript_mounts t v) as [-> | ->]; [lia|].
  destruct (mounts v); simpl; lia.
Qed.

Lemma step_at_most_one_mount (a : Action) (s : System) :
  at_most_one_mount s -> at_most_one_mount (step name m a s).
Proof.
  unfold at_most_one_mount, step. destruct s as [u v sp].
  cbn [unit volume spawned]. intros [Hlen Hrun].
  destruct a as [| data t c | c].
  - destruct u as [| self | |]; cbn [unit volume spawned]; try now split.
    + destruct (mounts v) eqn:Hm; cbn [unit volume spawned]; rewrite ?Hm;
        now split.
    + destruct (mounts v) eqn:Hm; cbn [unit volume spawned]; rewrite ?Hm;
        now split.
  - destruct u as [| self | |]; cbn [unit volume spawned]; try now split.
    pose proof (mkUnlockScript_mounts self data t v) as Hscript.
    destruct (mkUnlockScript name m self data t v) as [[|code] v'].
    + cbn [unit volume spawned].
      destruct Hscript as [[? _] | [_ ->]]; [discriminate|]. now split.
    + destruct (Z.eqb_spec code 0) as [-> | Hcode]; cbn [unit volume spawned].
      * destruct Hscript as [[_ ->] | [? _]]; [|congruence].
        rewrite Hrun. split; [simpl; lia | exact I].
      * destruct Hscript as [[[= ?] _] | [_ Hsame]]; [congruence|].
        split; [|exact I].
        pose proof (mkCleanupScript_length c v') as Hc.
        rewrite Hsame in Hc. lia.
  - destruct u as [| self | |]; cbn [unit volume spawned]; try now split.
    + split; [|exact I]. pose proof (mkCleanupScript_length c v). lia.
    + split; [|exact I]. pose proof (mkCleanupScript_length c v). lia.
Qed.

Lemma steps_at_most_one_mount (l : list Action) (s : System) :
  at_most_one_mount s -> at_most_one_mount (steps name m l s).
Proof.
  unfold steps. revert s.
  induction l as [|a l IH]; intros s Hs; simpl; [exact Hs|].
  apply IH. now apply step_at_most_one_mount.
Qed.

Lemma boot_at_most_one_mount : at_most_one_mount boot.
Proof. split; simpl; [lia | exact I]. Qed.

(** starting a unit that is running or active starts nothing *)
Lemma start_while_active (s : System) :
  unit s <> inactive -> unit s <> failed -> step name m systemctl_start s = s.
Proof. intros Hi Hf. simpl. now destruct (unit s). Qed.

(** a wrong secret: the script echoes the failure and goes back to
    reading the pipe, with nothing mounted *)
Lemma mkUnlockScript_wrong_secret (self : nat) (data : string)
    (t : UnlockTools) (v : Volume) :
  strip_newlines data <> EmptyString ->
  luksOpen t = false ->
  (type m = loop -> losetup_find t = true) ->
  exists v',
    mkUnlockScript name m self data t v = (again, v')
    /\ mounts v' = mounts v
    /\ last (journal v')
       = Some ("Failed to unlock " +:+ source m +:+ ", waiting for retry...").
Proof.
  intros Hdata Hopen Hloop. unfold mkUnlockScript.
  apply seq_false in Hdata. rewrite Hdata, Hopen.
  destruct (type m) eqn:Ht.
  - rewrite (Hloop eq_refl). eexists. split; [reflexivity|].
    split; [reflexivity|]. simpl. apply last_snoc.
  - eexists. split; [reflexivity|]. split; [reflexivity|]. simpl. apply last_snoc.
Qed.

End unit_facts.

(* ===================================================================== *)
(** ** C7: mount while the worker is active *)
(* ===================================================================== *)

(** C7.  Two mount calls for the same volume, one after the other.  If the
    worker is active when the second call queries it, the second call does
    not succeed, so at most one of the two does; it runs no [systemctl
    start] and makes no call on the secret channel; and when it passes
    validation its response is the 400 "Already mounted" after that single
    query.  On the side of the unit: whatever sequence of starts, stops and
    deliveries, the mount point carries at most one mount of a worker, and
    a start of a unit that is running or active starts nothing. *)
Theorem mount_twice_while_active {W} (h : Host W) (w : W)
    (req1 req2 : Request) (name : string) (m : Unit.Mount) :
  let w1 := after h (mountHandler req1 name) w in
  let status := (answer h (execAsync (is_active_cmd name)) w1).1 in
  reports_active status = true ->
  (result h (mountHandler req2 name) w1 <> success
   /\ ~ (result h (mountHandler req1 name) w = success
         /\ result h (mountHandler req2 name) w1 = success)
   /\ List.filter (fun ev => is_exec (start_cmd name) ev || is_channel_call ev)
             (calls h (mountHandler req2 name) w1) = []
   /\ forall pw, passes_validation req2 name pw ->
        result h (mountHandler req2 name) w1 = already_mounted
        /\ calls h (mountHandler req2 name) w1
           = [called_exec (is_active_cmd name) status])
  /\ (forall actions,
        Unit.at_most_one_mount (Unit.steps name m actions Unit.boot))
  /\ (forall s, Unit.unit s <> Unit.inactive -> Unit.unit s <> Unit.failed ->
        Unit.step name m Unit.systemctl_start s = s).
Proof.
  intros w1 status Hactive.
  split; [|split;
           [intros actions; apply steps_at_most_one_mount, boot_at_most_one_mount
           |apply start_while_active]].
  assert (Hsecond :
    result h (mountHandler req2 name) w1 <> success
    /\ List.filter (fun ev => is_exec (start_cmd name) ev || is_channel_call ev)
              (calls h (mountHandler req2 name) w1) = []
    /\ forall pw, passes_validation req2 name pw ->
         result h (mountHandler req2 name) w1 = already_mounted
         /\ calls h (mountHandler req2 name) w1
            = [called_exec (is_active_cmd name) status]).
  { unfold result, calls.
    destruct (validation_decided req2 name) as [(pw & Hvalid) | Hinvalid].
    - rewrite (mountHandler_valid req2 name pw Hvalid).
      pose proof (mount_after_validation_run h name pw w1) as Hrun.
      destruct (run h (mount_after_validation name pw) w1) as [[res t] w'].
      subst status.
      inversion Hrun as [st' ? Hans Hact | st' ? ? ? Hans Hact
                         | st' ? ? ? ? ? Hans Hact
                         | st' ? ? ? ? ? ? ? ? ? ? ? Hans Hact]; subst;
        rewrite Hans in Hactive; simpl in Hactive; try congruence.
      simpl. split; [discriminate|]. split.
      + reflexivity.
      + intros pw' _. rewrite Hans. now split.
    - destruct (mountHandler_invalid h w1 req2 name Hinvalid) as (res & -> & Hst).
      simpl. split; [|split; [reflexivity|]].
      + intros ->. destruct Hst; discriminate.
      + intros pw Hvalid. destruct (Hinvalid pw Hvalid). }
  destruct Hsecond as (Hne & Hcalls & Hvalid).
  split; [exact Hne|]. split; [intros [_ Hs]; now apply Hne|].
  split; [exact Hcalls | exact Hvalid].
Qed.

(** C7, witness: the worker is active; the second of two signed mount
    requests is answered "Already mounted". *)
Lemma mount_twice_while_active_witness :
  reports_active
    (answer (Demo.scripted Demo.mounted) (execAsync (is_active_cmd "vault")) tt).1
  = true
  /\ result (Demo.scripted Demo.mounted) (mountHandler Demo.mount_vault "vault") tt
     = already_mounted.
Proof.
  split; [by_computation|].
  pose proof (mount_twice_while_active (Demo.scripted Demo.mounted) tt
                Demo.mount_vault Demo.mount_vault "vault"
                {| Unit.type := Unit.loop; Unit.source := "/var/encrypted/vault.img";
                   Unit.mountPoint := "/mnt/vault" |}) as Hthm.
  cbv zeta in Hthm.
  replace (after (Demo.scripted Demo.mounted)
                 (mountHandler Demo.mount_vault "vault") tt) with tt in Hthm
    by (now destruct (after _ _ _)).
  destruct (Hthm ltac:(by_computation)) as ((_ & _ & _ & Hvalid) & _).
  apply (Hvalid (JStr "P")).
  repeat split; try by_computation. eexists. split; by_computation.
Defined.

(** The condition on the worker matters: while the worker is reported
    inactive, as it is on this host, a second mount call is served like the
    first one. *)
Remark mount_twice_while_listening :
  result (Demo.scripted Demo.listening) (mountHandler Demo.mount_vault "vault") tt
  = success
  /\ result (Demo.scripted Demo.listening) (mountHandler Demo.mount_vault "vault")
       (after (Demo.scripted Demo.listening)
              (mountHandler Demo.mount_vault "vault") tt)
     = success.
Proof. vm_compute. split; reflexivity. Qed.

(* ===================================================================== *)
(** ** C8: what a successful mount response means *)
(* ===================================================================== *)

(** C8, as amended.  For a mount request that passes validation, the
    response is [{ success: true }] exactly when the worker was not
    reported active, [reset-failed] and [start] succeeded, the password
    has a string, and opening the pipe, writing and closing all succeeded;
    the calls are then these seven, in this order: the string of the
    password followed by a newline is written once, the writer is closed,
    and nothing is queried afterwards, so the response says that the
    secret was delivered and nothing about the unlock.  Whatever the
    outcome, the handler writes at most once.  A password that has no
    string (an object with a member [toString], also as an element of an
    array) makes [password + '\n'] throw once the pipe is open: nothing
    is written, the writer is closed, and the response is a 500.  On the
    side of the worker, a secret that [cryptsetup] refuses makes the script
    echo the failure and go back to reading the pipe: the unit stays
    running, with nothing mounted. *)
Theorem secret_delivered_once {W} (h : Host W) (w : W) (req : Request)
    (name : string) (pw : json) :
  passes_validation req name pw ->
  (result h (mountHandler req name) w = success
   <-> exists status o1 o2 fd secret,
         reports_active status = false
         /\ ToString pw = Some secret
         /\ calls h (mountHandler req name) w
            = [called_exec (is_active_cmd name) status;
               called_exec (reset_failed_cmd name) (inr o1);
               called_exec (start_cmd name) (inr o2);
               called_setTimeout 500;
               called_open (pipePath name) 2049 (inr fd);
               called_writeFile fd (secret +:+ newline) (inr tt);
               called_close fd (inr tt)])
  /\ (length (List.filter is_write (calls h (mountHandler req name) w)) <= 1)%nat
  /\ (ToString pw = None ->
      statusCode (result h (mountHandler req name) w) <> 200
      /\ List.filter is_write (calls h (mountHandler req name) w) = []
      /\ forall fd,
           In (called_open (pipePath name) 2049 (inr fd))
              (calls h (mountHandler req name) w) ->
           exists closed,
             last (calls h (mountHandler req name) w) = Some (called_close fd closed)
             /\ result h (mountHandler req name) w
                = write_failed (match closed with
                                | inl error => error
                                | inr _ => cannot_convert
                                end))
  /\ (forall m self data tools c s,
        Unit.strip_newlines data <> EmptyString ->
        Unit.luksOpen tools = false ->
        (Unit.type m = Unit.loop -> Unit.losetup_find tools = true) ->
        Unit.unit s = Unit.running self ->
        let s' := Unit.step name m (Unit.pipe_delivers data tools c) s in
        Unit.unit s' = Unit.running self
        /\ Unit.mounts (Unit.volume s') = Unit.mounts (Unit.volume s)
        /\ last (Unit.journal (Unit.volume s'))
           = Some ("Failed to unlock " +:+ Unit.source m
                   +:+ ", waiting for retry...")).
Proof.
  intros Hvalid. unfold result, calls.
  rewrite (mountHandler_valid req name pw Hvalid).
  pose proof (mount_after_validation_run h name pw w) as Hrun.
  destruct (run h (mount_after_validation name pw) w) as [[res t] w'].
  cbn [fst snd]. split; [|split; [|split]].
  - inversion Hrun as [| | | ? ? ? ? ? ? ? ? ? ? ? ? ? ? ? ? ? ? Hch]; subst;
      try (inversion Hch; subst); cbn [List.app].
    + split; [discriminate | intros (? & ? & ? & ? & ? & _ & _ & Heq); discriminate Heq].
    + split; [discriminate | intros (? & ? & ? & ? & ? & _ & _ & Heq); discriminate Heq].
    + split; [discriminate | intros (? & ? & ? & ? & ? & _ & _ & Heq); discriminate Heq].
    + split; [discriminate | intros (? & ? & ? & ? & ? & _ & _ & Heq); discriminate Heq].
    + split; [destruct closed; discriminate|].
      intros (? & ? & ? & ? & ? & _ & _ & Heq); discriminate Heq.
    + destruct closed as [e|[]], written as [e'|[]]; split;
        first [ discriminate
              | intros (? & ? & ? & ? & ? & _ & _ & Heq); discriminate Heq
              | intros _; reflexivity
              | intros _; eexists _, _, _, _, _;
                split; [eassumption | split; [eassumption | reflexivity]] ].
  - inversion Hrun as [| | | ? ? ? ? ? ? ? ? ? ? ? ? ? ? ? ? ? ? Hch]; subst;
      try (inversion Hch; subst); simpl; lia.
  - intros Hnone.
    inversion Hrun as [| | | ? ? ? ? ? ? ? ? ? ? ? ? ? ? ? ? ? ? Hch]; subst;
      try (inversion Hch; subst); try congruence; cbn [List.app].
    + split; [discriminate|]. split; [reflexivity|].
      intros fd [Hin | []]. discriminate Hin.
    + split; [discriminate|]. split; [reflexivity|].
      intros fd [Hin | [Hin | []]]; discriminate Hin.
    + split; [discriminate|]. split; [reflexivity|].
      intros fd [Hin | [Hin | [Hin | []]]]; discriminate Hin.
    + split; [discriminate|]. split; [reflexivity|].
      intros fd [Hin | [Hin | [Hin | [Hin | [Hin | []]]]]]; discriminate Hin.
    + split; [destruct closed; discriminate|]. split; [reflexivity|].
      intros fd' [Hin | [Hin | [Hin | [Hin | [Hin | [Hin | []]]]]]];
        try discriminate Hin.
      injection Hin as <-. exists closed. split; [reflexivity|].
      now destruct closed.
  - intros m self data tools c s Hdata Hopen Hloop Hunit. simpl.
    rewrite Hunit.
    destruct (mkUnlockScript_wrong_secret name m self data tools
                (Unit.volume s) Hdata Hopen Hloop) as (v' & -> & Hm & Hj).
    simpl. now repeat split.
Qed.

(** C8, witness: the worker listens, the secret "P" is written once. *)
Lemma secret_delivered_once_witness :
  passes_validation Demo.mount_vault "vault" (JStr "P")
  /\ result (Demo.scripted Demo.listening)
            (mountHandler Demo.mount_vault "vault") tt = success
  /\ List.filter is_write
       (calls (Demo.scripted Demo.listening)
              (mountHandler Demo.mount_vault "vault") tt)
     = [called_writeFile 20%nat ("P" +:+ newline) (inr tt)].
Proof.
  assert (Hvalid : passes_validation Demo.mount_vault "vault" (JStr "P")).
  { repeat split; try by_computation. eexists. split; by_computation. }
  split; [exact Hvalid|].
  destruct (secret_delivered_once (Demo.scripted Demo.listening) tt
              Demo.mount_vault "vault" (JStr "P") Hvalid) as (Hiff & _ & _).
  split; [|by_computation].
  apply Hiff.
  exists (Demo.exit_status "3"),
         {| stdout := EmptyString; stderr := EmptyString |},
         {| stdout := EmptyString; stderr := EmptyString |}, 20%nat, "P".
  split; [by_computation|]. split; by_computation.
Defined.

(** A password that has no string: the object [{ "toString": 1 }] passes
    validation, the worker is started and the pipe opened; then
    [password + '\n'] throws, nothing is written, the pipe is closed and
    the answer is a 500.  The same object inside an array does the same. *)
Remark password_without_string :
  passes_validation Demo.mount_vault_object "vault" (JObj [("toString", JNum 1)])
  /\ ToString (JObj [("toString", JNum 1)]) = None
  /\ ToString (JArr [JStr "a"; JObj [("toString", JNum 1)]]) = None
  /\ ToString (JArr [JStr "a"; JNull; JObj [("valueOf", JNum 1)]; JArr [JNum 2; JBool true]])
     = Some "a,,[object Object],2,true"
  /\ run (Demo.scripted Demo.listening)
         (mountHandler Demo.mount_vault_object "vault") tt
     = (write_failed cannot_convert,
        [called_exec (is_active_cmd "vault") (Demo.exit_status "3");
         called_exec (reset_failed_cmd "vault") Demo.ok;
         called_exec (start_cmd "vault") Demo.ok;
         called_setTimeout 500;
         called_open (pipePath "vault") 2049 (inr 20%nat);
         called_close 20%nat (inr tt)], tt).
Proof.
  split.
  { repeat split; try by_computation. eexists. split; by_computation. }
  repeat split; vm_compute; reflexivity.
Qed.

(** C8, counterexample.  The request passes validation and the worker
    starts, but it has not opened the pipe for reading yet: the
    non-blocking open fails, nothing is written, and the response is a
    500. *)
Lemma started_worker_without_reader :
  passes_validation Demo.mount_vault "vault" (JStr "P")
  /\ In (called_exec (start_cmd "vault") Demo.ok)
        (calls (Demo.scripted Demo.no_reader)
               (mountHandler Demo.mount_vault "vault") tt)
  /\ result (Demo.scripted Demo.no_reader)
            (mountHandler Demo.mount_vault "vault") tt
     = write_failed
         {| Effects.message := "ENXIO: no such device or address, open" |}
  /\ List.filter is_write
       (calls (Demo.scripted Demo.no_reader)
              (mountHandler Demo.mount_vault "vault") tt) = [].
Proof.
  split.
  { repeat split; try by_computation. eexists. split; by_computation. }
  split; [vm_compute; auto|]. split; vm_compute; reflexivity.
Qed.

(* ===================================================================== *)
(** ** C3: what the mount limiter records *)
(* ===================================================================== *)

(** a rate-limited route: the mount limiter, then the handler *)
Lemma run_route {W} (h : Host W) (w : W) (now : Z) (req : Request) (r : Route)
    (st : AppState) :
  rate_limited r ->
  (mount_hits now req st < 10)%nat ->
  exists st',
    run h (route now req r st) w
    = ((result h (route_handler req r) w, st'),
       calls h (route_handler req r) w, after h (route_handler req r) w)
    /\ authFailures st' = authFailures st
    /\ mount_hits now req st'
       = if statusCode (result h (route_handler req r) w) <? 400
         then mount_hits now req st else S (mount_hits now req st).
Proof.
  intros Hr Hroom.
  assert (Hgen : forall p : Prog Response,
    exists st',
      run h (mountLimiter now (ip req) (handler p) st) w
      = ((result h p w, st'), calls h p w, after h p w)
      /\ authFailures st' = authFailures st
      /\ mount_hits now req st'
         = if statusCode (result h p w) <? 400
           then mount_hits now req st else S (mount_hits now req st)).
  { intros p. unfold mountLimiter. rewrite run_rateLimit.
    rewrite increment_totalHits by exact mount_window.
    change (max mountOptions) with 10%nat. cbv zeta.
    assert (Hlt : (10 <? S (hits now (ip req) (mountFailures st)))%nat = false)
      by (apply Nat.ltb_ge; unfold mount_hits in Hroom; lia).
    rewrite Hlt. rewrite run_handler.
    unfold result, calls, after, mount_hits.
    destruct (run h p w) as [[res t] w']. simpl fst; simpl snd.
    unfold requestWasSuccessful.
    change (skipSuccessfulRequests mountOptions) with true. cbn [andb].
    destruct (statusCode res <? 400).
    - eexists. split; [reflexivity|]. split; [reflexivity|].
      unfold set_mountFailures; cbn [mountFailures].
      exact (decrement_increment mountOptions _ _ _).
    - eexists. split; [reflexivity|]. split; [reflexivity|].
      unfold set_mountFailures; cbn [mountFailures].
      exact (increment_hits mountOptions mount_window _ _ _). }
  destruct r as [| name | name]; [destruct Hr | apply Hgen | apply Hgen].
Qed.

Section mount_limiter.
Context `{Crypto}.
Variable allowed : list string.

(** C3, as amended.  A mount or unmount request from a client that neither
    limiter denies.  If [verifySignature] lets it through, the response is
    the handler's, and the mount limiter keeps the client's hit exactly
    when the status is 400 or more: that holds for "Already mounted" and
    "Mount is not active" as for the validation errors and the 500s.  If
    [verifySignature] rejects it, the mount limiter is never reached: its
    store is left as it was, and the hit is kept by the
    authentication-failure limiter alone. *)
Theorem mount_limiter_counts {W} (h : Host W) (w : W) (now : Z)
    (req : Request) (r : Route) (st : AppState) :
  rate_limited r ->
  (auth_hits now req st < 20)%nat ->
  (mount_hits now req st < 10)%nat ->
  (verifySignature allowed now req = next ->
   exists st',
     run h (app allowed now req r st) w
     = ((result h (route_handler req r) w, st'),
        calls h (route_handler req r) w, after h (route_handler req r) w)
     /\ mount_hits now req st'
        = (if statusCode (result h (route_handler req r) w) <? 400
           then mount_hits now req st else S (mount_hits now req st))
     /\ (result h (route_handler req r) w = already_mounted
         \/ result h (route_handler req r) w = not_active ->
         mount_hits now req st' = S (mount_hits now req st)))
  /\ (forall res,
        verifySignature allowed now req = send res ->
        exists st',
          run h (app allowed now req r st) w = ((res, st'), [], w)
          /\ mountFailures st' = mountFailures st
          /\ auth_hits now req st'
             = if statusCode res <? 400 then auth_hits now req st
               else S (auth_hits now req st)).
Proof.
  intros Hr Hauth Hmount. split.
  - intros Hnext. unfold app, authFailureLimiter. rewrite run_rateLimit.
    rewrite increment_totalHits by exact authFailure_window.
    change (max authFailureOptions) with 20%nat. cbv zeta.
    assert (Hlt : (20 <? S (hits now (ip req) (authFailures st)))%nat = false)
      by (apply Nat.ltb_ge; unfold auth_hits in Hauth; lia).
    rewrite Hlt, Hnext.
    set (st1 := set_authFailures
                  (increment authFailureOptions now (ip req) (authFailures st)).2 st).
    destruct (run_route h w now req r st1 Hr Hmount) as (st2 & Hrun & _ & Hhits).
    rewrite Hrun.
    set (res := result h (route_handler req r) w) in *.
    eexists. split; [reflexivity|].
    assert (Hfinal :
      mount_hits now req
        (if skipSuccessfulRequests authFailureOptions && requestWasSuccessful res
         then set_authFailures (decrement (ip req) (authFailures st2)) st2
         else st2)
      = if statusCode res <? 400 then mount_hits now req st
        else S (mount_hits now req st)).
    { destruct (skipSuccessfulRequests authFailureOptions && requestWasSuccessful res);
        exact Hhits. }
    split; [exact Hfinal|].
    intros [Hres | Hres]; rewrite Hfinal, Hres; reflexivity.
  - intros res Hsend.
    destruct (app_rejected allowed h w now req r st res Hsend)
      as (st' & Hrun & Hm & Hhits).
    assert (Hlt : (20 <=? auth_hits now req st)%nat = false)
      by (apply Nat.leb_gt; exact Hauth).
    rewrite Hlt in Hrun, Hhits. now exists st'.
Qed.

End mount_limiter.

(** C3, witness: the signed mount request on a fresh server, the worker
    being active. *)
Lemma mount_limiter_counts_witness :
  @verifySignature Demo.demo_crypto [Demo.key_hex] Demo.now Demo.mount_vault = next
  /\ exists st',
       run (Demo.scripted Demo.mounted)
           (@app Demo.demo_crypto [Demo.key_hex] Demo.now Demo.mount_vault
                 (POST_mount "vault") initial) tt
       = ((already_mounted, st'),
          [called_exec (is_active_cmd "vault")
             (inr {| stdout := "active" +:+ newline; stderr := EmptyString |})],
          tt)
       /\ mount_hits Demo.now Demo.mount_vault st' = 1%nat.
Proof.
  assert (Hauth : (auth_hits Demo.now Demo.mount_vault initial < 20)%nat)
    by by_computation.
  assert (Hmount : (mount_hits Demo.now Demo.mount_vault initial < 10)%nat)
    by by_computation.
  assert (Hnext : @verifySignature Demo.demo_crypto [Demo.key_hex] Demo.now
                    Demo.mount_vault = next) by by_computation.
  split; [exact Hnext|].
  pose proof (@mount_limiter_counts Demo.demo_crypto [Demo.key_hex] unit
                (Demo.scripted Demo.mounted) tt Demo.now Demo.mount_vault
                (POST_mount "vault") initial I Hauth Hmount) as Hthm.
  destruct Hthm as (Haccepted & _).
  destruct (Haccepted Hnext) as (st' & Hrun & _ & Hcounted).
  exists st'. split.
  - rewrite Hrun. vm_compute. reflexivity.
  - rewrite Hcounted; [by_computation|]. left. by_computation.
Defined.

(** C3, counterexample.  A signed mount request while the worker is active
    is answered "Already mounted" and leaves a hit in the mount limiter;
    eleven of them and the limiter denies.  A mount request under a key
    that is not configured is answered 401 and leaves no hit in the mount
    limiter. *)
Lemma already_mounted_is_counted :
  let signed := (Demo.now, Demo.mount_vault, POST_mount "vault") in
  let untrusted := (Demo.now, Demo.untrusted_mount_vault, POST_mount "vault") in
  let mounted n :=
    @serve Demo.demo_crypto unit [Demo.key_hex] (Demo.scripted Demo.mounted)
           (repeat signed n) initial tt in
  let rejected :=
    @serve Demo.demo_crypto unit [Demo.key_hex] (Demo.scripted Demo.mounted)
           [untrusted] initial tt in
  (mounted 1%nat).1.1 = [already_mounted]
  /\ mount_hits Demo.now Demo.mount_vault (mounted 1%nat).1.2 = 1%nat
  /\ (mounted 11%nat).1.1 = repeat already_mounted 10 ++ [too_many_mount_failures]
  /\ rejected.1.1 = [authentication_failed]
  /\ mount_hits Demo.now Demo.untrusted_mount_vault rejected.1.2 = 0%nat
  /\ auth_hits Demo.now Demo.untrusted_mount_vault rejected.1.2 = 1%nat.
Proof. vm_compute. repeat split. Qed.

(* ===================================================================== *)
(** * Further properties of the code *)
(* ===================================================================== *)

Import Properties.

(** ** The configured keys: module.nix line 364 and index.ts line 20 *)

Lemma split_comma_cons (s : string) : exists h t, split_comma s = h :: t.
Proof.
  induction s as [|c r (h & t & IH)]; simpl; [now eexists _, _|].
  rewrite IH. destruct (code c =? 44); now eexists _, _.
Qed.

Lemma split_comma_comma_free (k : string) :
  comma_free k -> split_comma k = [k].
Proof.
  unfold comma_free. induction k as [|c r IH]; intros Hk; simpl; [reflexivity|].
  inversion Hk as [|? ? Hc Hr]; subst.
  rewrite (IH Hr). destruct (Z.eqb_spec (code c) 44); [contradiction | reflexivity].
Qed.

Lemma split_comma_app (k rest : string) :
  comma_free k ->
  split_comma (k +:+ "," +:+ rest) = k :: split_comma rest.
Proof.
  unfold comma_free. induction k as [|c r IH]; intros Hk; simpl.
  - change (EmptyString +:+ rest) with rest.
    now destruct (split_comma_cons rest) as (h & t & ->).
  - inversion Hk as [|? ? Hc Hr]; subst.
    rewrite (IH Hr).
    destruct (Z.eqb_spec (code c) 44); [contradiction | reflexivity].
Qed.

(** X1.  Round trip of the configuration: a list of keys that are not
    empty and contain no comma (as hexadecimal keys are), joined with
    commas by module.nix and split again by index.ts, is the list the
    server checks membership in.  (The variable is taken to reach the
    process as the module writes it, which the unit file does for text
    without white space or quotation, hexadecimal keys included.) *)
Theorem allowed_keys_round_trip (keys : list string) :
  Forall (fun k => k <> EmptyString /\ comma_free k) keys ->
  ALLOWED_PUBLIC_KEYS (Some (Nix.environment_ALLOWED_PUBLIC_KEYS keys)) = keys.
Proof.
  unfold ALLOWED_PUBLIC_KEYS, Nix.environment_ALLOWED_PUBLIC_KEYS,
    Nix.concatStringsSep.
  induction keys as [|k ks IH]; intros Hkeys; [reflexivity|].
  inversion Hkeys as [|? ? [Hne Hfree] Hks]; subst.
  assert (Hkeep : negb (seq k EmptyString) = true)
    by (apply negb_true_iff, seq_false; exact Hne).
  destruct ks as [|k' ks'].
  - simpl String.concat. rewrite (split_comma_comma_free k Hfree).
    rewrite filter_cons_True by exact Hkeep. reflexivity.
  - change (String.concat "," (k :: k' :: ks'))
      with (k +:+ "," +:+ String.concat "," (k' :: ks')).
    rewrite (split_comma_app k _ Hfree).
    rewrite filter_cons_True by exact Hkeep.
    now rewrite (IH Hks).
Qed.

(** X1, witness: two keys. *)
Lemma allowed_keys_round_trip_witness :
  ALLOWED_PUBLIC_KEYS
    (Some (Nix.environment_ALLOWED_PUBLIC_KEYS [Demo.key_hex; Demo.other_key_hex]))
  = [Demo.key_hex; Demo.other_key_hex].
Proof.
  apply allowed_keys_round_trip.
  repeat constructor; try discriminate;
    intros Hc; vm_compute in Hc; discriminate Hc.
Defined.

Lemma split_comma_entries (s k : string) :
  In k (split_comma s) -> comma_free k.
Proof.
  unfold comma_free. revert k.
  induction s as [|c r IH]; intros k; simpl.
  - intros [<- | []]. constructor.
  - destruct (split_comma r) as [|h t] eqn:Hr; [intros []|].
    destruct (Z.eqb_spec (code c) 44) as [Hc|Hc].
    + intros [<- | Hin]; [constructor | apply IH; exact Hin].
    + intros [<- | Hin].
      * simpl. constructor; [exact Hc | apply IH; now left].
      * apply IH. now right.
Qed.

(** X2.  Whatever the environment holds, no configured entry is empty and
    none contains a comma: empty pieces (a trailing comma, two commas in a
    row, an empty variable) are dropped. *)
Theorem allowed_keys_entries (env : option string) (k : string) :
  In k (ALLOWED_PUBLIC_KEYS env) -> k <> EmptyString /\ comma_free k.
Proof.
  unfold ALLOWED_PUBLIC_KEYS. destruct env as [s|]; [|intros []].
  intros Hin. apply list_elem_of_In, list_elem_of_filter in Hin.
  destruct Hin as [Hne Hin]. split.
  - apply negb_true_iff, seq_false in Hne. exact Hne.
  - apply list_elem_of_In in Hin. exact (split_comma_entries s k Hin).
Qed.

(** X2, witness: a variable with empty pieces. *)
Lemma allowed_keys_entries_witness :
  In "CD" (ALLOWED_PUBLIC_KEYS (Some "ab,,CD,"))
  /\ "CD" <> EmptyString /\ comma_free "CD".
Proof.
  assert (Hin : In "CD" (ALLOWED_PUBLIC_KEYS (Some "ab,,CD,")))
    by (vm_compute; auto).
  split; [exact Hin|]. exact (allowed_keys_entries _ _ Hin).
Defined.

Section not_configured.
Context `{Crypto}.

(** X3.  Without configured keys the server fails closed: a request that
    is subject to verification is answered 503 "Authentication not
    configured" whatever its headers and signature, no handler runs, and
    the authentication-failure limiter keeps the hit. *)
Theorem unconfigured_server_refuses {W} (h : Host W) (w : W) (now : Z)
    (req : Request) (r : Route) (st : AppState) :
  skipsAuthentication (path req) = false ->
  verifySignature [] now req = send not_configured
  /\ exists st',
       run h (app [] now req r st) w
       = ((if (20 <=? auth_hits now req st)%nat
           then too_many_authentication_failures else not_configured, st'),
          [], w)
       /\ auth_hits now req st' = S (auth_hits now req st).
Proof.
  intros Hskip.
  assert (Hv : verifySignature [] now req = send not_configured)
    by (unfold verifySignature; now rewrite Hskip).
  split; [exact Hv|].
  destruct (app_rejected [] h w now req r st not_configured Hv)
    as (st' & Hrun & _ & Hhits).
  exists st'. split; [exact Hrun|]. rewrite Hhits.
  now destruct (20 <=? auth_hits now req st)%nat.
Qed.

End not_configured.

(** X3, witness: the signed mount request, on a server whose variable is
    not set. *)
Lemma unconfigured_server_refuses_witness :
  skipsAuthentication (path Demo.mount_vault) = false
  /\ @verifySignature Demo.demo_crypto (ALLOWED_PUBLIC_KEYS None) Demo.now
       Demo.mount_vault = send not_configured.
Proof.
  split; [by_computation|].
  exact (proj1 (@unconfigured_server_refuses Demo.demo_crypto unit
                  (Demo.scripted Demo.listening) tt Demo.now Demo.mount_vault
                  (POST_mount "vault") initial ltac:(by_computation))).
Defined.

(** ** The unmount handler, index.ts lines 297-330 *)

Section unmount_calls.
Context {W : Type}.
Variable h : Host W.

(** the run of the unmount handler for a name that passes the pattern *)
Lemma run_unmountHandler (w : W) (req : Request) (name : string) :
  nameRegex_test name = true ->
  run h (unmountHandler req name) w
  = let '(status, w1) := answer h (execAsync (is_active_cmd name)) w in
    if reports_active status then
      let '(stopped, w2) := answer h (execAsync (stop_cmd name)) w1 in
      (match stopped with
       | inl error => unmount_failed error
       | inr _ => success
       end,
       [called_exec (is_active_cmd name) status;
        called_exec (stop_cmd name) stopped], w2)
    else (not_active, [called_exec (is_active_cmd name) status], w1).
Proof.
  intros Hname. unfold unmountHandler. rewrite Hname. simpl.
  destruct (answer h (execAsync (is_active_cmd name)) w) as [status w1].
  destruct (reports_active status); simpl; [|reflexivity].
  destruct (answer h (execAsync (stop_cmd name)) w1) as [[error|o] w2];
    reflexivity.
Qed.

(** X4.  An unmount request succeeds exactly when the name passes the
    pattern, the worker is reported active and [systemctl stop] succeeds;
    the handler has then awaited these two commands and nothing else. *)
Theorem unmount_succeeds_iff (w : W) (req : Request) (name : string) :
  result h (unmountHandler req name) w = success
  <-> nameRegex_test name = true
      /\ exists status o,
           reports_active status = true
           /\ calls h (unmountHandler req name) w
              = [called_exec (is_active_cmd name) status;
                 called_exec (stop_cmd name) (inr o)].
Proof.
  unfold result, calls.
  destruct (nameRegex_test name) eqn:Hname.
  - rewrite (run_unmountHandler w req name Hname).
    destruct (answer h (execAsync (is_active_cmd name)) w) as [status w1].
    destruct (reports_active status) eqn:Hact.
    + destruct (answer h (execAsync (stop_cmd name)) w1) as [[error|o] w2];
        simpl.
      * split; [discriminate|]. intros (_ & st' & o & _ & Heq). discriminate Heq.
      * split; [|reflexivity]. intros _. split; [reflexivity|].
        now exists status, o.
    + simpl. split; [discriminate|].
      intros (_ & st' & o & _ & Heq). discriminate Heq.
  - unfold unmountHandler. rewrite Hname. simpl.
    split; [discriminate | intros [? _]; discriminate].
Qed.

(** X5.  An unmount request for a worker that is not reported active (the
    query fails, or prints anything but "active") is answered 400 "Mount
    is not active" after that one query: nothing is stopped. *)
Theorem unmount_of_inactive (w : W) (req : Request) (name : string) :
  nameRegex_test name = true ->
  reports_active (answer h (execAsync (is_active_cmd name)) w).1 = false ->
  run h (unmountHandler req name) w
  = (not_active,
     [called_exec (is_active_cmd name)
        (answer h (execAsync (is_active_cmd name)) w).1],
     (answer h (execAsync (is_active_cmd name)) w).2).
Proof.
  intros Hname Hact. rewrite (run_unmountHandler w req name Hname).
  destruct (answer h (execAsync (is_active_cmd name)) w) as [status w1].
  simpl in *. now rewrite Hact.
Qed.

(** X6.  Nothing is awaited before validation has passed: the mount
    handler awaits a call only for a request with a valid name and a
    password, the unmount handler only for a valid name; for a name that
    fails the pattern the answer is the 400 "Invalid name format" (for a
    mount, when the request has a body). *)
Theorem nothing_runs_before_validation (w : W) (req : Request) (name : string) :
  (calls h (mountHandler req name) w <> [] ->
   exists pw, passes_validation req name pw)
  /\ (calls h (unmountHandler req name) w <> [] -> nameRegex_test name = true)
  /\ (nameRegex_test name = false ->
      result h (unmountHandler req name) w = invalid_name
      /\ forall b, body req = Some b -> b <> JNull ->
           result h (mountHandler req name) w = invalid_name).
Proof.
  unfold calls, result. split; [|split].
  - intros Hcalls.
    destruct (validation_decided req name) as [Hvalid | Hinvalid];
      [exact Hvalid|].
    destruct (mountHandler_invalid h w req name Hinvalid) as (res & Hrun & _).
    rewrite Hrun in Hcalls. now destruct Hcalls.
  - destruct (nameRegex_test name) eqn:Hname; [reflexivity|].
    unfold unmountHandler. rewrite Hname. simpl. intros Hcalls.
    now destruct Hcalls.
  - intros Hname. split.
    + unfold unmountHandler. now rewrite Hname.
    + intros b Hb Hnull. unfold mountHandler. rewrite Hb, Hname.
      destruct b; try reflexivity. now destruct Hnull.
Qed.

End unmount_calls.

(** X5, witness: the worker is not active. *)
Lemma unmount_of_inactive_witness :
  nameRegex_test "vault" = true
  /\ result (Demo.scripted Demo.listening)
            (unmountHandler Demo.mount_vault "vault") tt = not_active.
Proof.
  split; [by_computation|].
  unfold result.
  rewrite (unmount_of_inactive (Demo.scripted Demo.listening) tt
             Demo.mount_vault "vault" ltac:(by_computation)
             ltac:(by_computation)).
  reflexivity.
Defined.

(** ** The two limiters in the stack, index.ts lines 24-41 and 187-194 *)

Lemma increment_other (o : Options) (now : Z) (key key' : string)
    (s : gmap string Client) :
  key <> key' -> (increment o now key s).2 !! key' = s !! key'.
Proof. intros Hne. unfold increment. simpl. now rewrite lookup_insert_ne. Qed.

Lemma decrement_other (key key' : string) (s : gmap string Client) :
  key <> key' -> decrement key s !! key' = s !! key'.
Proof.
  intros Hne. unfold decrement.
  destruct (s !! key) as [c|]; [|reflexivity].
  destruct (totalHits c); [reflexivity|]. now rewrite lookup_insert_ne.
Qed.

Section stack.
Context `{Crypto}.
Variable allowed : list string.

(** X7.  A client with 20 hits or more in its window is denied before
    anything else is looked at: whatever the route, the headers and the
    signature (a health check and a request that would verify included),
    the answer is the 429 of the authentication-failure limiter, no call is
    awaited, the mount limiter is not touched, and the denied request adds
    a hit. *)
Theorem limiter_denies_first {W} (h : Host W) (w : W) (now : Z)
    (req : Request) (r : Route) (st : AppState) :
  (20 <= auth_hits now req st)%nat ->
  exists st',
    run h (app allowed now req r st) w
    = ((too_many_authentication_failures, st'), [], w)
    /\ mountFailures st' = mountFailures st
    /\ auth_hits now req st' = S (auth_hits now req st).
Proof.
  intros Hfull. unfold app, authFailureLimiter. rewrite run_rateLimit.
  rewrite increment_totalHits by exact authFailure_window.
  change (max authFailureOptions) with 20%nat. cbv zeta.
  assert (Hlt : (20 <? S (hits now (ip req) (authFailures st)))%nat = true)
    by (apply Nat.ltb_lt; unfold auth_hits in Hfull; lia).
  rewrite Hlt. eexists. split; [reflexivity|]. split; [reflexivity|].
  unfold auth_hits, set_authFailures; cbn [authFailures].
  exact (increment_hits authFailureOptions authFailure_window _ _ _).
Qed.

(** X8.  The health check is open: a request for "/health" that reaches
    the stack (no file of that name being served from the public
    directory) passes [verifySignature] whatever the configured keys, also
    with none, and whatever its headers; a client below the limit of the
    authentication-failure limiter gets [{ status: "ok" }], no call is
    awaited and neither limiter keeps a hit. *)
Theorem health_check_is_open {W} (h : Host W) (w : W) (now : Z)
    (req : Request) (st : AppState) :
  path req = "/health" ->
  (auth_hits now req st < 20)%nat ->
  verifySignature allowed now req = next
  /\ exists st',
       run h (app allowed now req GET_health st) w = ((health_ok, st'), [], w)
       /\ auth_hits now req st' = auth_hits now req st
       /\ mountFailures st' = mountFailures st.
Proof.
  intros Hpath Hroom.
  assert (Hv : verifySignature allowed now req = next)
    by (unfold verifySignature; now rewrite Hpath).
  split; [exact Hv|].
  unfold app, authFailureLimiter. rewrite run_rateLimit.
  rewrite increment_totalHits by exact authFailure_window.
  change (max authFailureOptions) with 20%nat. cbv zeta.
  assert (Hlt : (20 <? S (hits now (ip req) (authFailures st)))%nat = false)
    by (apply Nat.ltb_ge; unfold auth_hits in Hroom; lia).
  rewrite Hlt, Hv. eexists. split; [reflexivity|].
  split; [|reflexivity].
  unfold auth_hits, set_authFailures; cbn [authFailures].
  exact (decrement_increment authFailureOptions _ _ _).
Qed.

(** X9.  For a mount or unmount request that passes verification and is
    denied by neither limiter, the two limiters move together: a response
    with a status below 400 leaves both hit counts as they were, any other
    response (a validation error, "Already mounted", a 500) adds one hit
    to the mount limiter and one to the authentication-failure limiter. *)
Theorem counters_move_together {W} (h : Host W) (w : W) (now : Z)
    (req : Request) (r : Route) (st : AppState) :
  rate_limited r ->
  verifySignature allowed now req = next ->
  (auth_hits now req st < 20)%nat ->
  (mount_hits now req st < 10)%nat ->
  exists st',
    run h (app allowed now req r st) w
    = ((result h (route_handler req r) w, st'),
       calls h (route_handler req r) w, after h (route_handler req r) w)
    /\ (if statusCode (result h (route_handler req r) w) <? 400
        then auth_hits now req st' = auth_hits now req st
             /\ mount_hits now req st' = mount_hits now req st
        else auth_hits now req st' = S (auth_hits now req st)
             /\ mount_hits now req st' = S (mount_hits now req st)).
Proof.
  intros Hr Hnext Hauth Hmount.
  unfold app, authFailureLimiter. rewrite run_rateLimit.
  rewrite increment_totalHits by exact authFailure_window.
  change (max authFailureOptions) with 20%nat. cbv zeta.
  assert (Hlt : (20 <? S (hits now (ip req) (authFailures st)))%nat = false)
    by (apply Nat.ltb_ge; unfold auth_hits in Hauth; lia).
  rewrite Hlt, Hnext.
  set (st1 := set_authFailures
                (increment authFailureOptions now (ip req) (authFailures st)).2 st).
  destruct (run_route h w now req r st1 Hr Hmount) as (st2 & Hrun & Hsame & Hhits).
  rewrite Hrun.
  set (res := result h (route_handler req r) w) in *.
  unfold requestWasSuccessful.
  change (skipSuccessfulRequests authFailureOptions) with true. cbn [andb].
  change (mount_hits now req st1) with (mount_hits now req st) in Hhits.
  destruct (statusCode res <? 400).
  - eexists. split; [reflexivity|]. split; [|exact Hhits].
    unfold auth_hits, set_authFailures; cbn [authFailures]. rewrite Hsame.
    exact (decrement_increment authFailureOptions _ _ _).
  - exists st2. split; [reflexivity|]. split; [|exact Hhits].
    unfold auth_hits. rewrite Hsame.
    exact (increment_hits authFailureOptions authFailure_window _ _ _).
Qed.

(** X10.  A client with 10 hits or more in the mount limiter is denied on
    the mount and unmount routes after verification and before the
    handler: the answer is the 429 of the mount limiter, no command is run
    and nothing is written, and the denied request adds a hit to both
    limiters. *)
Theorem mount_limiter_denies {W} (h : Host W) (w : W) (now : Z)
    (req : Request) (r : Route) (st : AppState) :
  rate_limited r ->
  verifySignature allowed now req = next ->
  (auth_hits now req st < 20)%nat ->
  (10 <= mount_hits now req st)%nat ->
  exists st',
    run h (app allowed now req r st) w = ((too_many_mount_failures, st'), [], w)
    /\ auth_hits now req st' = S (auth_hits now req st)
    /\ mount_hits now req st' = S (mount_hits now req st).
Proof.
  intros Hr Hnext Hauth Hmount.
  unfold app, authFailureLimiter. rewrite run_rateLimit.
  rewrite increment_totalHits by exact authFailure_window.
  change (max authFailureOptions) with 20%nat. cbv zeta.
  assert (Hlt : (20 <? S (hits now (ip req) (authFailures st)))%nat = false)
    by (apply Nat.ltb_ge; unfold auth_hits in Hauth; lia).
  rewrite Hlt, Hnext.
  set (st1 := set_authFailures
                (increment authFailureOptions now (ip req) (authFailures st)).2 st).
  assert (Hdenied : forall p : Prog Response,
    run h (mountLimiter now (ip req) (handler p) st1) w
    = ((too_many_mount_failures,
        set_mountFailures
          (increment mountOptions now (ip req) (mountFailures st1)).2 st1),
       [], w)).
  { intros p. unfold mountLimiter. rewrite run_rateLimit.
    rewrite increment_totalHits by exact mount_window.
    change (max mountOptions) with 10%nat. cbv zeta.
    assert (Hfull : (10 <? S (hits now (ip req) (mountFailures st1)))%nat = true)
      by (apply Nat.ltb_lt; unfold mount_hits in Hmount; subst st1;
          cbn [mountFailures set_authFailures]; lia).
    now rewrite Hfull. }
  assert (Hroute :
    run h (route now req r st1) w
    = ((too_many_mount_failures,
        set_mountFailures
          (increment mountOptions now (ip req) (mountFailures st1)).2 st1),
       [], w))
    by (destruct r; [destruct Hr | apply Hdenied | apply Hdenied]).
  rewrite Hroute.
  eexists. split; [reflexivity|]. split.
  - unfold auth_hits, set_mountFailures, set_authFailures, st1;
      cbn [authFailures].
    exact (increment_hits authFailureOptions authFailure_window _ _ _).
  - unfold mount_hits, set_mountFailures, set_authFailures, st1;
      cbn [mountFailures].
    exact (increment_hits mountOptions mount_window _ _ _).
Qed.

(** X11.  The limiters count per client address: serving a request leaves
    the entries of every other address, in both stores, as they were. *)
Theorem clients_are_independent {W} (h : Host W) (w : W) (now : Z)
    (req : Request) (r : Route) (st : AppState) (other : string) :
  ip req <> other ->
  authFailures (run h (app allowed now req r st) w).1.1.2 !! other
  = authFailures st !! other
  /\ mountFailures (run h (app allowed now req r st) w).1.1.2 !! other
     = mountFailures st !! other.
Proof.
  intros Hne. unfold app, authFailureLimiter. rewrite run_rateLimit.
  cbv zeta.
  set (st1 := set_authFailures
                (increment authFailureOptions now (ip req) (authFailures st)).2 st).
  assert (H1 : authFailures st1 !! other = authFailures st !! other
               /\ mountFailures st1 !! other = mountFailures st !! other).
  { unfold st1, set_authFailures; cbn [authFailures mountFailures].
    split; [now apply increment_other | reflexivity]. }
  assert (Hdec : forall st2 : AppState,
    authFailures st2 !! other = authFailures st !! other ->
    mountFailures st2 !! other = mountFailures st !! other ->
    forall b : bool,
    authFailures (if b then set_authFailures (decrement (ip req) (authFailures st2)) st2
                  else st2) !! other = authFailures st !! other
    /\ mountFailures (if b then set_authFailures (decrement (ip req) (authFailures st2)) st2
                      else st2) !! other = mountFailures st !! other).
  { intros st2 Ha Hm [|]; [|now split].
    unfold set_authFailures; cbn [authFailures mountFailures].
    split; [now rewrite decrement_other | exact Hm]. }
  destruct (_ <? _)%nat; [exact H1|].
  destruct (verifySignature allowed now req) as [|res].
  - assert (Hroute :
      authFailures (run h (route now req r st1) w).1.1.2 !! other
      = authFailures st !! other
      /\ mountFailures (run h (route now req r st1) w).1.1.2 !! other
         = mountFailures st !! other).
    { assert (Hlim : forall p : Prog Response,
        authFailures (run h (mountLimiter now (ip req) (handler p) st1) w).1.1.2
          !! other = authFailures st !! other
        /\ mountFailures (run h (mountLimiter now (ip req) (handler p) st1) w).1.1.2
             !! other = mountFailures st !! other).
      { intros p. unfold mountLimiter. rewrite run_rateLimit. cbv zeta.
        destruct (_ <? _)%nat.
        - unfold set_mountFailures; cbn [authFailures mountFailures fst snd].
          split; [apply H1|]. rewrite increment_other by exact Hne. apply H1.
        - rewrite run_handler. destruct (run h p w) as [[res t] w'].
          cbn [fst snd].
          destruct (skipSuccessfulRequests mountOptions && requestWasSuccessful res);
            unfold set_mountFailures; cbn [authFailures mountFailures];
            (split; [apply H1|]);
            rewrite ?decrement_other, increment_other by exact Hne; apply H1. }
      destruct r as [| name | name]; [|apply Hlim | apply Hlim].
      unfold route. rewrite run_handler. simpl. exact H1. }
    destruct (run h (route now req r st1) w) as [[[res st2] t] w'].
    cbn [fst snd] in *. destruct Hroute as [Ha Hm]. now apply Hdec.
  - simpl run. cbn [fst snd]. destruct H1 as [Ha Hm]. now apply Hdec.
Qed.

End stack.

(** X7, witness: a health check from a client with 20 hits. *)
Lemma limiter_denies_first_witness :
  exists st',
    run (Demo.scripted Demo.listening)
        (@app Demo.demo_crypto [Demo.key_hex] Demo.now health_check GET_health
              (with_hits 20 0 (Demo.now + 1) "192.0.2.7")) tt
    = ((too_many_authentication_failures, st'), [], tt)
    /\ mountFailures st' = mountFailures (with_hits 20 0 (Demo.now + 1) "192.0.2.7")
    /\ auth_hits Demo.now health_check st' = 21%nat.
Proof.
  exact (@limiter_denies_first Demo.demo_crypto [Demo.key_hex] unit
           (Demo.scripted Demo.listening) tt Demo.now health_check GET_health
           (with_hits 20 0 (Demo.now + 1) "192.0.2.7") ltac:(by_computation)).
Defined.

(** X8, witness: a health check on a server without keys. *)
Lemma health_check_is_open_witness :
  @verifySignature Demo.demo_crypto [] Demo.now health_check = next.
Proof.
  exact (proj1 (@health_check_is_open Demo.demo_crypto [] unit
                  (Demo.scripted Demo.listening) tt Demo.now health_check
                  initial eq_refl ltac:(by_computation))).
Defined.

(** X9, witness: the signed mount request while the worker is active; the
    "Already mounted" answer leaves a hit in both limiters. *)
Lemma counters_move_together_witness :
  exists st',
    run (Demo.scripted Demo.mounted)
        (@app Demo.demo_crypto [Demo.key_hex] Demo.now Demo.mount_vault
              (POST_mount "vault") initial) tt
    = ((already_mounted, st'),
       [called_exec (is_active_cmd "vault")
          (inr {| stdout := "active" +:+ newline; stderr := EmptyString |})],
       tt)
    /\ auth_hits Demo.now Demo.mount_vault st' = 1%nat
    /\ mount_hits Demo.now Demo.mount_vault st' = 1%nat.
Proof.
  assert (Hauth : (auth_hits Demo.now Demo.mount_vault initial < 20)%nat)
    by by_computation.
  assert (Hmount : (mount_hits Demo.now Demo.mount_vault initial < 10)%nat)
    by by_computation.
  assert (Hnext : @verifySignature Demo.demo_crypto [Demo.key_hex] Demo.now
                    Demo.mount_vault = next) by by_computation.
  pose proof (@counters_move_together Demo.demo_crypto [Demo.key_hex] unit
                (Demo.scripted Demo.mounted) tt Demo.now Demo.mount_vault
                (POST_mount "vault") initial I Hnext Hauth Hmount) as Hthm.
  destruct Hthm as (st' & Hrun & Hcount).
  exists st'. split.
  - rewrite Hrun. vm_compute. reflexivity.
  - assert (Hres : result (Demo.scripted Demo.mounted)
                     (route_handler Demo.mount_vault (POST_mount "vault")) tt
                   = already_mounted) by by_computation.
    rewrite Hres in Hcount. exact Hcount.
Defined.

(** X10, witness: the signed mount request from a client with 10 hits in
    the mount limiter. *)
Lemma mount_limiter_denies_witness :
  exists st',
    run (Demo.scripted Demo.listening)
        (@app Demo.demo_crypto [Demo.key_hex] Demo.now Demo.mount_vault
              (POST_mount "vault") (with_hits 10 10 (Demo.now + 1) "192.0.2.7")) tt
    = ((too_many_mount_failures, st'), [], tt)
    /\ auth_hits Demo.now Demo.mount_vault st' = 11%nat
    /\ mount_hits Demo.now Demo.mount_vault st' = 11%nat.
Proof.
  assert (Hauth : (auth_hits Demo.now Demo.mount_vault
                     (with_hits 10 10 (Demo.now + 1) "192.0.2.7") < 20)%nat)
    by by_computation.
  assert (Hmount : (10 <= mount_hits Demo.now Demo.mount_vault
                     (with_hits 10 10 (Demo.now + 1) "192.0.2.7"))%nat)
    by by_computation.
  assert (Hnext : @verifySignature Demo.demo_crypto [Demo.key_hex] Demo.now
                    Demo.mount_vault = next) by by_computation.
  exact (@mount_limiter_denies Demo.demo_crypto [Demo.key_hex] unit
           (Demo.scripted Demo.listening) tt Demo.now Demo.mount_vault
           (POST_mount "vault") (with_hits 10 10 (Demo.now + 1) "192.0.2.7")
           I Hnext Hauth Hmount).
Defined.

(** X11, witness: the client at 192.0.2.7 is served, the entry of the
    client at 192.0.2.8 is looked up. *)
Lemma clients_are_independent_witness :
  authFailures
    (run (Demo.scripted Demo.mounted)
         (@app Demo.demo_crypto [Demo.key_hex] Demo.now Demo.mount_vault
               (POST_mount "vault") (with_hits 3 2 (Demo.now + 1) "192.0.2.8"))
         tt).1.1.2 !! "192.0.2.8"
  = Some {| totalHits := 3; resetTime := Demo.now + 1 |}.
Proof.
  rewrite (proj1 (@clients_are_independent Demo.demo_crypto [Demo.key_hex] unit
                    (Demo.scripted Demo.mounted) tt Demo.now Demo.mount_vault
                    (POST_mount "vault")
                    (with_hits 3 2 (Demo.now + 1) "192.0.2.8") "192.0.2.8"
                    ltac:(by_computation))).
  reflexivity.
Defined.

(** ** The worker and its cleanup, module.nix lines 62-144 and 288-313 *)

Section worker.
Import Unit.
Variable name : string.
Variable m : Mount.

Lemma refused_step (a : Action) (s : System) (self : nat) :
  unit s = running self ->
  refused_delivery m a ->
  let s' := step name m a s in
  unit s' = running self
  /\ mounts (volume s') = mounts (volume s)
  /\ mapper (volume s') = mapper (volume s)
  /\ spawned s' = spawned s
  /\ loops (volume s')
     = match type m with
       | loop => S (loops (volume s))
       | block => loops (volume s)
       end.
Proof.
  intros Hunit Hrefused. destruct a as [| data t c | c]; [destruct Hrefused | | destruct Hrefused].
  destruct Hrefused as (Hdata & Hopen & Hloop).
  cbn [step]. rewrite Hunit. unfold mkUnlockScript.
  apply seq_false in Hdata. rewrite Hdata, Hopen.
  destruct (type m) eqn:Ht.
  - rewrite (Hloop eq_refl). cbn. now repeat split.
  - cbn. now repeat split.
Qed.

Lemma refused_steps (l : list Action) (s : System) (self : nat) :
  unit s = running self ->
  Forall (refused_delivery m) l ->
  let s' := steps name m l s in
  unit s' = running self
  /\ mounts (volume s') = mounts (volume s)
  /\ mapper (volume s') = mapper (volume s)
  /\ spawned s' = spawned s
  /\ loops (volume s')
     = match type m with
       | loop => (length l + loops (volume s))%nat
       | block => loops (volume s)
       end.
Proof.
  unfold steps. revert s.
  induction l as [|a l IH]; intros s Hunit Hl; cbn [fold_left].
  - split; [exact Hunit|]. do 3 (split; [reflexivity|]).
    destruct (type m); reflexivity.
  - inversion Hl as [|? ? Ha Hrest]; subst.
    destruct (refused_step a s self Hunit Ha) as (Hu & Hm & Hp & Hs & Hlo).
    destruct (IH (step name m a s) Hu Hrest) as (Hu' & Hm' & Hp' & Hs' & Hlo').
    cbv zeta in *.
    rewrite Hu', Hm', Hp', Hs', Hlo', Hm, Hp, Hs, Hlo.
    repeat split; try reflexivity.
    destruct (type m); simpl; lia.
Qed.

(** X12.  The worker retries until a secret unlocks: after any number of
    secrets that [cryptsetup] refuses, the next secret that unlocks ends
    the script with the volume mounted once and the unit active.  On a
    loop volume every attempt, refused or not, attaches one more loop
    device to the source and none is detached before the cleanup: after
    [n] refused secrets and the one that unlocks, [n + 1] more are
    attached. *)
Theorem retries_until_unlocked (self : nat) (l : list Action) (data : string)
    (t : UnlockTools) (c : CleanupTools) (s : System) :
  unit s = running self ->
  mounts (volume s) = [] ->
  Forall (refused_delivery m) l ->
  strip_newlines data <> EmptyString ->
  unlocks m t ->
  let s' := steps name m (l ++ [pipe_delivers data t c]) s in
  unit s' = exited
  /\ mounts (volume s') = [self]
  /\ mapper (volume s') = true
  /\ loops (volume s')
     = match type m with
       | loop => (S (length l) + loops (volume s))%nat
       | block => loops (volume s)
       end.
Proof.
  intros Hunit Hnone Hl Hdata (Hopen & Hmk & Hmnt & Hloop).
  unfold steps. rewrite fold_left_app.
  destruct (refused_steps l s self Hunit Hl) as (Hu & Hm & _ & _ & Hlo).
  unfold steps in Hu, Hm, Hlo. cbv zeta in Hu, Hm, Hlo.
  set (s1 := fold_left (fun s a => step name m a s) l s) in *.
  cbn [fold_left step]. rewrite Hu. unfold mkUnlockScript.
  apply seq_false in Hdata. rewrite Hdata, Hopen, Hmk, Hmnt.
  destruct (type m) eqn:Ht.
  - rewrite (Hloop eq_refl). cbn. rewrite Hm, Hnone, Hlo. now repeat split.
  - cbn. rewrite Hm, Hnone, Hlo. now repeat split.
Qed.

(** on a block device no loop device is ever attached *)
Lemma block_attaches_no_loop (a : Action) (s : System) :
  type m = block -> loops (volume (step name m a s)) = loops (volume s).
Proof.
  intros Ht. destruct s as [u v sp], v as [ms mp lp jn].
  destruct a as [| data t c | c]; cbn [step unit volume spawned].
  - destruct u; [destruct ms | | | destruct ms]; reflexivity.
  - destruct u; try reflexivity.
    unfold mkUnlockScript.
    destruct (seq (strip_newlines data) EmptyString); [reflexivity|].
    rewrite Ht. cbn.
    destruct (luksOpen t); [|reflexivity].
    destruct (mkdir_p t); [|unfold mkCleanupScript; rewrite Ht;
      cbn; destruct ms, (umount c), (luksClose c); reflexivity].
    destruct (mount_cmd t); [reflexivity|].
    unfold mkCleanupScript; rewrite Ht; cbn;
      destruct ms, (umount c), (luksClose c); reflexivity.
  - destruct u; try reflexivity;
      unfold mkCleanupScript; rewrite Ht; cbn;
      destruct ms, (umount c), mp, (luksClose c); reflexivity.
Qed.

Lemma block_never_attaches (l : list Action) :
  type m = block -> loops (volume (steps name m l boot)) = O.
Proof.
  intros Ht. unfold steps.
  assert (Hgen : forall s, loops (volume (fold_left (fun s a => step name m a s) l s))
                           = loops (volume s)).
  { induction l as [|a l' IH]; intros s; cbn [fold_left]; [reflexivity|].
    rewrite IH. now apply block_attaches_no_loop. }
  now rewrite Hgen.
Qed.

(** X13.  Mount and stop leave nothing behind: in any state the unit
    reaches after boot in which it is running or active, a stop whose
    cleanup commands succeed leaves the unit inactive, the mount point
    free, the mapper device closed and no loop device attached, however
    many secrets were refused on the way. *)
Theorem stop_leaves_nothing (l : list Action) (c : CleanupTools) :
  let s := steps name m l boot in
  unit s <> inactive -> unit s <> failed ->
  cleans c ->
  let s' := step name m (systemctl_stop c) s in
  unit s' = inactive
  /\ mounts (volume s') = []
  /\ mapper (volume s') = false
  /\ loops (volume s') = O.
Proof.
  intros s Hi Hf (Hu & Hclose & Hdetach) s'.
  pose proof (steps_at_most_one_mount name m l boot boot_at_most_one_mount)
    as [Hlen _].
  assert (Hblock : type m = block -> loops (volume s) = O)
    by (intros Ht; now apply block_never_attaches).
  fold s in Hlen. subst s'. revert Hi Hf Hlen Hblock.
  generalize s. clear s. intros [u [ms mp lp jn] sp].
  cbn [unit volume spawned mounts loops]. intros Hi Hf Hlen Hblock.
  assert (Hstop :
    step name m (systemctl_stop c)
      {| unit := u; volume := {| mounts := ms; mapper := mp; loops := lp;
                                 journal := jn |}; spawned := sp |}
    = {| unit := inactive;
         volume := mkCleanupScript name m c
                     {| mounts := ms; mapper := mp; loops := lp; journal := jn |};
         spawned := sp |})
    by (destruct u; [now destruct Hi | reflexivity | reflexivity | now destruct Hf]).
  rewrite Hstop. cbn [unit volume]. unfold mkCleanupScript.
  rewrite Hu, Hclose, Hdetach.
  destruct ms as [|i [|j rest]]; [| |simpl in Hlen; lia];
    destruct mp, (type m) eqn:Ht; cbn; repeat split; try reflexivity;
    now apply Hblock.
Qed.

(** X14.  A stop whose [umount] fails (its failure is discarded by
    [|| true]) leaves the unit inactive with the volume still mounted;
    from then on every start is skipped by [ConditionPathIsMountPoint] and
    every delivery finds no reader: nothing changes until another stop. *)
Theorem failed_unmount_blocks_restart (c : CleanupTools) (s : System)
    (l : list Action) :
  unit s <> inactive -> unit s <> failed ->
  mounts (volume s) <> [] ->
  umount c = false ->
  Forall start_or_delivery l ->
  let s1 := step name m (systemctl_stop c) s in
  unit s1 = inactive
  /\ mounts (volume s1) = mounts (volume s)
  /\ steps name m l s1 = s1.
Proof.
  intros Hi Hf Hmounted Hu Hl s1.
  assert (H1 : unit s1 = inactive /\ mounts (volume s1) = mounts (volume s)).
  { subst s1. destruct s as [u [ms mp lp jn] sp].
    cbn [unit volume mounts] in *.
    destruct u; [now destruct Hi | | | now destruct Hf];
      cbn [step unit volume]; unfold mkCleanupScript; rewrite Hu;
      (destruct ms as [|i rest]; [now destruct Hmounted|]);
      destruct mp, (luksClose c), (type m), (losetup_d c); now split. }
  destruct H1 as [Hinactive Hsame]. split; [exact Hinactive|].
  split; [exact Hsame|].
  assert (Hm1 : mounts (volume s1) <> []) by now rewrite Hsame.
  clearbody s1. unfold steps.
  induction l as [|a l' IH]; cbn [fold_left]; [reflexivity|].
  inversion Hl as [|? ? Ha Hrest]; subst.
  assert (Hstep : step name m a s1 = s1).
  { destruct a as [| data t c' | c']; [| |destruct Ha]; cbn [step];
      rewrite Hinactive; [|reflexivity].
    destruct (mounts (volume s1)); [now destruct Hm1 | reflexivity]. }
  rewrite Hstep. now apply IH.
Qed.

End worker.

(** X12, witness: two refused secrets, then the right one, on a loop
    volume. *)
Lemma retries_until_unlocked_witness :
  let s := Unit.step "vault" vault Unit.systemctl_start Unit.boot in
  let s' := Unit.steps "vault" vault
              [Unit.pipe_delivers "a" wrong_secret clean;
               Unit.pipe_delivers "b" wrong_secret clean;
               Unit.pipe_delivers "P" right_secret clean] s in
  Unit.unit s' = Unit.exited
  /\ Unit.mounts (Unit.volume s') = [0%nat]
  /\ Unit.mapper (Unit.volume s') = true
  /\ Unit.loops (Unit.volume s') = 3%nat.
Proof.
  apply (retries_until_unlocked "vault" vault 0
           [Unit.pipe_delivers "a" wrong_secret clean;
            Unit.pipe_delivers "b" wrong_secret clean]
           "P" right_secret clean
           (Unit.step "vault" vault Unit.systemctl_start Unit.boot)).
  - reflexivity.
  - reflexivity.
  - repeat constructor; try discriminate.
  - discriminate.
  - repeat split; reflexivity.
Defined.

(** X13, witness: the same deliveries from boot, then a stop. *)
Lemma stop_leaves_nothing_witness :
  let s := Unit.steps "vault" vault
             [Unit.systemctl_start;
              Unit.pipe_delivers "a" wrong_secret clean;
              Unit.pipe_delivers "P" right_secret clean] Unit.boot in
  Unit.loops (Unit.volume s) = 2%nat
  /\ Unit.loops (Unit.volume (Unit.step "vault" vault (Unit.systemctl_stop clean) s))
     = 0%nat.
Proof.
  split; [reflexivity|].
  apply (stop_leaves_nothing "vault" vault
           [Unit.systemctl_start;
            Unit.pipe_delivers "a" wrong_secret clean;
            Unit.pipe_delivers "P" right_secret clean] clean).
  - discriminate.
  - discriminate.
  - repeat split; reflexivity.
Defined.

(** X14, witness: the volume is mounted and busy when the unit is
    stopped; a start and a delivery that follow change nothing. *)
Lemma failed_unmount_blocks_restart_witness :
  let s := Unit.steps "vault" vault
             [Unit.systemctl_start;
              Unit.pipe_delivers "P" right_secret clean] Unit.boot in
  let s1 := Unit.step "vault" vault (Unit.systemctl_stop busy) s in
  Unit.unit s1 = Unit.inactive
  /\ Unit.mounts (Unit.volume s1) = Unit.mounts (Unit.volume s)
  /\ Unit.steps "vault" vault
       [Unit.systemctl_start; Unit.pipe_delivers "P" right_secret clean] s1 = s1.
Proof.
  apply (failed_unmount_blocks_restart "vault" vault busy
           (Unit.steps "vault" vault
              [Unit.systemctl_start;
               Unit.pipe_delivers "P" right_secret clean] Unit.boot)
           [Unit.systemctl_start; Unit.pipe_delivers "P" right_secret clean]).
  - discriminate.
  - discriminate.
  - discriminate.
  - reflexivity.
  - repeat constructor.
Defined.

(** ** From the handler to the worker: the secret, index.ts line 283 and
    module.nix line 110 *)

Lemma strip_newlines_newline (s : string) :
  Unit.strip_newlines (s +:+ newline) = Unit.strip_newlines s.
Proof.
  induction s as [|c r IH]; [reflexivity|].
  change (String c r +:+ newline) with (String c (r +:+ newline)).
  cbn [Unit.strip_newlines]. now rewrite IH.
Qed.

Lemma strip_newlines_fixed (s : string) :
  Unit.strip_newlines s = s <-> ends_in_newline s = false.
Proof.
  induction s as [|c r IH]; [now split|].
  cbn [Unit.strip_newlines]. destruct r as [|c' r'].
  - cbn. destruct (code c =? 10); split; congruence.
  - change (ends_in_newline (String c (String c' r')))
      with (ends_in_newline (String c' r')).
    rewrite <- IH.
    destruct (Unit.strip_newlines (String c' r')) as [|d q].
    + split; [|discriminate].
      destruct (code c =? 10); discriminate.
    + split; congruence.
Qed.

(** X15.  What [cryptsetup] reads as the passphrase is the password of
    the request exactly when the password is not empty, does not end in a
    line feed and is no option of [echo]: the handler appends one line
    feed, the command substitution of the script drops every line feed the
    data ends with, and [echo -n] prints nothing for a password such as
    [-n] or [-e].  (The password holds no NUL character, which the shell
    would drop as well.) *)
Theorem secret_round_trip (s : string) :
  Forall (fun c => code c <> 0) (chars s) ->
  ToString (JStr s) = Some s
  /\ (passphrase (s +:+ newline) = Some s
      <-> s <> EmptyString /\ ends_in_newline s = false /\ echo_option s = false).
Proof.
  intros _. split; [reflexivity|].
  unfold passphrase, echo_n. rewrite strip_newlines_newline. split.
  - destruct (seq (Unit.strip_newlines s) EmptyString) eqn:Hempty; [discriminate|].
    apply seq_false in Hempty.
    destruct (echo_option (Unit.strip_newlines s)) eqn:Hopt.
    + intros [= <-]. now destruct Hempty.
    + intros [= Hfixed]. rewrite Hfixed in Hempty, Hopt.
      split; [exact Hempty|]. split; [now apply strip_newlines_fixed | exact Hopt].
  - intros (Hne & Hend & Hopt). apply strip_newlines_fixed in Hend.
    rewrite Hend, Hopt. apply seq_false in Hne. now rewrite Hne.
Qed.

(** X15, witness: the password "P" reaches [cryptsetup] as it is. *)
Lemma secret_round_trip_witness :
  passphrase ("P" +:+ newline) = Some "P".
Proof.
  apply (proj2 (secret_round_trip "P" ltac:(repeat constructor; discriminate))).
  repeat split; try reflexivity. discriminate.
Defined.

(** Passwords that do not reach [cryptsetup] as they were sent: one that
    ends in a line feed loses it, and the options of [echo] arrive as
    nothing. *)
Remark passwords_that_do_not_arrive :
  passphrase ("P" +:+ newline +:+ newline) = Some "P"
  /\ passphrase ("-n" +:+ newline) = Some EmptyString
  /\ passphrase ("-neE" +:+ newline) = Some EmptyString
  /\ passphrase ("-" +:+ newline) = Some "-"
  /\ passphrase ("-x" +:+ newline) = Some "-x".
Proof. vm_compute. repeat split. Qed.

Lemma strip_newlines_only (s : string) :
  Forall (fun c => code c = 10) (chars s) -> Unit.strip_newlines s = EmptyString.
Proof.
  induction s as [|c r IH]; intros Hs; [reflexivity|].
  inversion Hs as [|? ? Hc Hr]; subst.
  cbn [Unit.strip_newlines]. rewrite (IH Hr), Hc. reflexivity.
Qed.

(** X16.  A password made of line feeds only passes the validation of the
    mount handler, which goes on to start the worker and write it to the
    pipe; the worker reads an empty secret, ignores it and stays in its
    loop with nothing mounted, so a [{ success: true }] of the handler is
    followed by no unlock attempt at all. *)
Theorem newline_only_secret_is_ignored (req : Request) (name s : string)
    (b : json) :
  nameRegex_test name = true ->
  body req = Some b ->
  get_prop "password" b = Some (JStr s) ->
  s <> EmptyString ->
  Forall (fun c => code c = 10) (chars s) ->
  mountHandler req name = mount_after_validation name (JStr s)
  /\ ToString (JStr s) = Some s
  /\ forall m self t c st,
       Unit.unit st = Unit.running self ->
       Unit.step name m (Unit.pipe_delivers (s +:+ newline) t c) st
       = {| Unit.unit := Unit.running self;
            Unit.volume :=
              Unit.echo "Received empty password, ignoring..." (Unit.volume st);
            Unit.spawned := Unit.spawned st |}.
Proof.
  intros Hname Hb Hpw Hne Hs. split.
  - apply mountHandler_valid. split; [exact Hname|].
    split; [now exists b|]. destruct s; [now destruct Hne | reflexivity].
  - split; [reflexivity|].
    intros m self t c st Hunit. cbn [Unit.step]. rewrite Hunit.
    unfold Unit.mkUnlockScript.
    rewrite strip_newlines_newline, (strip_newlines_only s Hs). reflexivity.
Qed.

(** X16, witness: the password is one line feed. *)
Lemma newline_only_secret_is_ignored_witness :
  Unit.step "vault" vault
    (Unit.pipe_delivers (newline +:+ newline) right_secret clean)
    (Unit.step "vault" vault Unit.systemctl_start Unit.boot)
  = {| Unit.unit := Unit.running 0;
       Unit.volume :=
         Unit.echo "Received empty password, ignoring..." (Unit.volume Unit.boot);
       Unit.spawned := 1 |}.
Proof.
  exact (proj2 (proj2 (newline_only_secret_is_ignored
                  {| method := "POST"; originalUrl := "/mount/vault";
                     path := "/mount/vault"; headers := ∅;
                     body := Demo.password_body newline; ip := "192.0.2.7" |}
                  "vault" newline (JObj [("password", JStr newline)])
                  ltac:(by_computation) eq_refl ltac:(by_computation)
                  ltac:(discriminate) ltac:(repeat constructor)))
           vault 0%nat right_secret clean
           (Unit.step "vault" vault Unit.systemctl_start Unit.boot) eq_refl).
Defined.

(** ** What [verifySignature] accepts, index.ts lines 58-141 *)

Lemma append_assoc (x y z : string) : (x +:+ y) +:+ z = x +:+ (y +:+ z).
Proof.
  induction x as [|c r IH]; [reflexivity|].
  change (String c ((r +:+ y) +:+ z) = String c (r +:+ (y +:+ z))).
  now rewrite IH.
Qed.

Section acceptance.
Context `{Crypto}.
Variable allowed : list string.

(** X17.  The middleware keeps no record of the signatures it has seen: a
    request that is accepted once is accepted again, unchanged, at every
    reading of the clock that is at most 300 seconds from its timestamp,
    and at no other. *)
Theorem accepted_request_can_be_replayed (now : Z) (req : Request) :
  skipsAuthentication (path req) = false ->
  verifySignature allowed now req = next ->
  exists ts t,
    header req "x-timestamp" = Some ts /\ parseInt ts = Some t
    /\ forall now',
         verifySignature allowed now' req = next
         <-> Math_abs (now' / 1000 - t) <= 300.
Proof.
  intros Hskip Hnext.
  apply (verifySignature_next allowed now req Hskip) in Hnext.
  destruct Hnext as (sg & ts & pk & Hsg & Hts & Hpk & Hin & (t & Ht & _) & Hkey).
  exists ts, t. split; [exact Hts|]. split; [exact Ht|].
  intros now'. rewrite (verifySignature_next allowed now' req Hskip). split.
  - intros (sg' & ts' & pk' & _ & Hts' & _ & _ & (t' & Ht' & Hw) & _).
    congruence.
  - intros Hw. exists sg, ts, pk. repeat split; try assumption.
    now exists t.
Qed.

Lemma header_with_header (req : Request) (name v : string) :
  v <> EmptyString -> header (with_header name v req) name = Some v.
Proof.
  intros Hv. unfold header, with_header; cbn [headers].
  rewrite lookup_insert_eq. apply seq_false in Hv. now rewrite Hv.
Qed.

Lemma header_with_header_ne (req : Request) (name name' v : string) :
  name <> name' -> header (with_header name v req) name' = header req name'.
Proof.
  intros Hne. unfold header, with_header; cbn [headers].
  now rewrite lookup_insert_ne.
Qed.

(** X18.  The signature header is read through hexadecimal decoding only:
    replacing it by any other text that decodes to the same bytes (letters
    in the other case, anything after the last pair of digits) changes
    nothing in what the middleware answers. *)
Theorem signature_read_as_hex (now : Z) (req : Request) (sg sg' : string) :
  header req "x-signature" = Some sg ->
  sg' <> EmptyString ->
  Buffer_from_hex sg' = Buffer_from_hex sg ->
  verifySignature allowed now (with_header "x-signature" sg' req)
  = verifySignature allowed now req.
Proof.
  intros Hsg Hne Hbytes. unfold verifySignature.
  change (path (with_header "x-signature" sg' req)) with (path req).
  rewrite (header_with_header req "x-signature" sg' Hne), Hsg.
  rewrite !header_with_header_ne by discriminate.
  destruct (skipsAuthentication (path req)); [reflexivity|].
  destruct (Z.of_nat (length allowed) =? 0); [reflexivity|].
  destruct (header req "x-timestamp") as [ts|]; [|reflexivity].
  destruct (header req "x-public-key") as [pk|]; [|reflexivity].
  unfold verifySignature_try, message.
  cbn [with_header method originalUrl body]. now rewrite Hbytes.
Qed.

(** X19.  The message that is verified joins its fields with colons and
    the fields may hold colons themselves: a signature made for the URL
    [u:a] and the timestamp [b] is a signature for the URL [u] and the
    timestamp header [a:b].  The second request is accepted whenever the
    first one is and the number [a:b] starts with is in the window. *)
Theorem colon_moves_into_timestamp (now : Z) (req1 req2 : Request)
    (u a b sg pk : string) :
  skipsAuthentication (path req1) = false ->
  skipsAuthentication (path req2) = false ->
  method req2 = method req1 ->
  body req2 = body req1 ->
  originalUrl req1 = u +:+ ":" +:+ a ->
  originalUrl req2 = u ->
  header req1 "x-signature" = Some sg -> header req2 "x-signature" = Some sg ->
  header req1 "x-public-key" = Some pk -> header req2 "x-public-key" = Some pk ->
  header req1 "x-timestamp" = Some b ->
  header req2 "x-timestamp" = Some (a +:+ ":" +:+ b) ->
  (exists t, parseInt (a +:+ ":" +:+ b) = Some t
             /\ Math_abs (now / 1000 - t) <= 300) ->
  verifySignature allowed now req1 = next ->
  message req2 (a +:+ ":" +:+ b) = message req1 b
  /\ verifySignature allowed now req2 = next.
Proof.
  intros Hskip1 Hskip2 Hmethod Hbody Hurl1 Hurl2 Hsg1 Hsg2 Hpk1 Hpk2 Hts1 Hts2
    Hfresh Hnext.
  assert (Hmsg : message req2 (a +:+ ":" +:+ b) = message req1 b).
  { unfold message. rewrite Hmethod, Hbody, Hurl1, Hurl2.
    now rewrite !append_assoc. }
  split; [exact Hmsg|].
  apply (verifySignature_next allowed now req1 Hskip1) in Hnext.
  destruct Hnext as (sg' & ts' & pk' & Hsg' & Hts' & Hpk' & Hin & _ & Hkey).
  assert (sg' = sg) by congruence. assert (ts' = b) by congruence.
  assert (pk' = pk) by congruence. subst sg' ts' pk'.
  apply (verifySignature_next allowed now req2 Hskip2).
  exists sg, (a +:+ ":" +:+ b), pk. repeat split; try assumption.
  destruct Hkey as (k & Hk & Hv). exists k. split; [exact Hk|].
  now rewrite Hmsg.
Qed.

End acceptance.

(** X17, witness: the signed mount request, five minutes later. *)
Lemma accepted_request_can_be_replayed_witness :
  @verifySignature Demo.demo_crypto [Demo.key_hex] (Demo.now + 300000)
    Demo.mount_vault = next.
Proof.
  assert (Hnext : @verifySignature Demo.demo_crypto [Demo.key_hex] Demo.now
                    Demo.mount_vault = next) by by_computation.
  destruct (@accepted_request_can_be_replayed Demo.demo_crypto [Demo.key_hex]
              Demo.now Demo.mount_vault ltac:(by_computation) Hnext)
    as (ts & t & Hts & Ht & Hreplay).
  apply Hreplay.
  assert (Hhdr : header Demo.mount_vault "x-timestamp" = Some "1700000000")
    by by_computation.
  assert (ts = "1700000000") by congruence. subst ts.
  assert (Hparse : parseInt "1700000000" = Some 1700000000) by by_computation.
  assert (t = 1700000000) by congruence. subst t.
  by_computation.
Defined.

(** X18, witness: two characters that are no hexadecimal digits after the
    signature of the signed mount request. *)
Lemma signature_read_as_hex_witness :
  @verifySignature Demo.demo_crypto [Demo.key_hex] Demo.now
    (with_header "x-signature" (signature_of Demo.mount_vault +:+ "zz")
       Demo.mount_vault)
  = next.
Proof.
  rewrite (@signature_read_as_hex Demo.demo_crypto [Demo.key_hex] Demo.now
             Demo.mount_vault (signature_of Demo.mount_vault)
             (signature_of Demo.mount_vault +:+ "zz")
             ltac:(by_computation) ltac:(by_computation) ltac:(by_computation)).
  by_computation.
Defined.

(** X19, witness: a signature for "/mount/vault:1700000000" at
    "1700000000" opens "/mount/vault" with the timestamp header
    "1700000000:1700000000". *)
Lemma colon_moves_into_timestamp_witness :
  @verifySignature Demo.demo_crypto [Demo.key_hex] Demo.now colon_moved = next.
Proof.
  assert (Hnext : @verifySignature Demo.demo_crypto [Demo.key_hex] Demo.now
                    signed_with_colon = next) by by_computation.
  assert (H1 : skipsAuthentication (path signed_with_colon) = false)
    by by_computation.
  assert (H2 : skipsAuthentication (path colon_moved) = false) by by_computation.
  assert (H3 : header signed_with_colon "x-signature"
               = Some (signature_of signed_with_colon)) by by_computation.
  assert (H4 : header colon_moved "x-signature"
               = Some (signature_of signed_with_colon)) by by_computation.
  assert (H5 : header signed_with_colon "x-public-key" = Some Demo.key_hex)
    by by_computation.
  assert (H6 : header colon_moved "x-public-key" = Some Demo.key_hex)
    by by_computation.
  assert (H7 : header signed_with_colon "x-timestamp" = Some "1700000000")
    by by_computation.
  assert (H8 : header colon_moved "x-timestamp"
               = Some ("1700000000" +:+ ":" +:+ "1700000000")) by by_computation.
  assert (H9 : exists t, parseInt ("1700000000" +:+ ":" +:+ "1700000000") = Some t
                         /\ Math_abs (Demo.now / 1000 - t) <= 300)
    by (exists 1700000000; split; by_computation).
  exact (proj2 (@colon_moves_into_timestamp Demo.demo_crypto [Demo.key_hex]
                  Demo.now signed_with_colon colon_moved
                  "/mount/vault" "1700000000" "1700000000"
                  (signature_of signed_with_colon) Demo.key_hex
                  H1 H2 eq_refl eq_refl eq_refl eq_refl H3 H4 H5 H6 H7 H8 H9
                  Hnext)).
Defined.

(** ** The name of the volume in the commands, index.ts lines 238-242,
    252, 264-266, 275, 302-306, 310 and 322 *)

Lemma name_char_not_special (c : ascii) :
  name_char c = true -> shell_special c = false.
Proof.
  destruct c as [[] [] [] [] [] [] [] []]; vm_compute; congruence.
Qed.

Lemma name_char_not_space (c : ascii) : name_char c = true -> (code c =? 32) = false.
Proof.
  destruct c as [[] [] [] [] [] [] [] []]; vm_compute; congruence.
Qed.

Lemma words_from_name (cur name rest : string) :
  forallb name_char (chars name) = true ->
  words_from cur (name +:+ rest) = words_from (cur +:+ name) rest.
Proof.
  revert cur. induction name as [|c r IH]; intros cur Hname.
  - change (EmptyString +:+ rest) with rest.
    replace (cur +:+ EmptyString) with cur; [reflexivity|].
    clear. induction cur as [|d q IHq]; [reflexivity|].
    change (String d q = String d (q +:+ EmptyString)). now rewrite <- IHq.
  - change (chars (String c r)) with (c :: chars r) in Hname.
    cbn [forallb] in Hname. apply andb_true_iff in Hname as [Hc Hr].
    change (String c r +:+ rest) with (String c (r +:+ rest)).
    cbn [words_from]. rewrite (name_char_not_space c Hc).
    rewrite (IH _ Hr). now rewrite append_assoc.
Qed.

(** X20.  A name that passes the validation is one word of a command
    line: it is not empty and holds no white space, quote, slash or other
    character the shell gives a meaning to.  So does the name of its unit,
    and each command the handlers build from it has the four words
    [sudo], [systemctl], the verb and the unit, the name adding none. *)
Theorem validated_name_is_one_word (name : string) :
  nameRegex_test name = true ->
  name <> EmptyString
  /\ Forall (fun c => shell_special c = false) (chars (unit_name name))
  /\ words (is_active_cmd name) = [SUDO; SYSTEMCTL; "is-active"; unit_name name]
  /\ words (start_cmd name) = [SUDO; SYSTEMCTL; "start"; unit_name name]
  /\ words (stop_cmd name) = [SUDO; SYSTEMCTL; "stop"; unit_name name].
Proof.
  unfold nameRegex_test. intros Hname.
  apply andb_true_iff in Hname as [Hne Hchars].
  apply negb_true_iff, seq_false in Hne.
  split; [exact Hne|].
  assert (Hunit : forallb name_char (chars (unit_name name)) = true).
  { unfold unit_name.
    assert (Happ : forall a b, chars (a +:+ b) = chars a ++ chars b).
    { intros a b. induction a as [|c r IH]; [reflexivity|].
      change (chars (String c r +:+ b)) with (c :: chars (r +:+ b)).
      now rewrite IH. }
    rewrite !Happ, !forallb_app, Hchars. reflexivity. }
  split.
  { clear -Hunit. induction (chars (unit_name name)) as [|c l IH];
      [constructor|].
    cbn [forallb] in Hunit. apply andb_true_iff in Hunit as [Hc Hl].
    constructor; [now apply name_char_not_special | now apply IH]. }
  assert (Hwords : forall verb,
    forallb name_char (chars verb) = true -> verb <> EmptyString ->
    words (SUDO +:+ " " +:+ SYSTEMCTL +:+ " " +:+ verb +:+ " " +:+ unit_name name)
    = [SUDO; SYSTEMCTL; verb; unit_name name]).
  { intros verb Hverb Hv. unfold words.
    assert (Hu : unit_name name <> EmptyString) by (unfold unit_name; discriminate).
    change (words_from EmptyString
              (SUDO +:+ " " +:+ SYSTEMCTL +:+ " " +:+ verb +:+ " " +:+ unit_name name))
      with ([SUDO; SYSTEMCTL]
            ++ words_from EmptyString (verb +:+ " " +:+ unit_name name)).
    rewrite (words_from_name EmptyString verb _ Hverb).
    change (EmptyString +:+ verb) with verb.
    change (" " +:+ unit_name name) with (String " " (unit_name name)).
    cbn [words_from]. change (code " " =? 32) with true. cbv iota.
    apply seq_false in Hv. rewrite Hv.
    replace (unit_name name) with (unit_name name +:+ EmptyString) at 1.
    2:{ generalize (unit_name name). intros q.
        induction q as [|d q IHq]; [reflexivity|].
        change (String d (q +:+ EmptyString) = String d q). now rewrite IHq. }
    rewrite (words_from_name EmptyString (unit_name name) EmptyString Hunit).
    change (EmptyString +:+ unit_name name) with (unit_name name).
    cbn [words_from]. apply seq_false in Hu. rewrite Hu. reflexivity. }
  split; [|split].
  - apply (Hwords "is-active"); [reflexivity | discriminate].
  - apply (Hwords "start"); [reflexivity | discriminate].
  - apply (Hwords "stop"); [reflexivity | discriminate].
Qed.

(** X20, witness: the name "vault". *)
Lemma validated_name_is_one_word_witness :
  words (start_cmd "vault")
  = ["/run/wrappers/bin/sudo"; "/run/current-system/sw/bin/systemctl"; "start";
     "secure-unlocker-vault.service"].
Proof.
  exact (proj1 (proj2 (proj2 (proj2
           (validated_name_is_one_word "vault" ltac:(by_computation)))))).
Defined.

Section mount_calls_allowed.
Context {W : Type}.
Variable h : Host W.

(** X21.  What the mount handler never does: whatever the request and the
    answers of the host, it runs no command but [is-active],
    [reset-failed] and [start] of the unit of the name in the URL, waits
    500 ms and nothing else, opens no path but the pipe of that name,
    write-only and non-blocking, and writes nothing but the password of the
    request followed by one line feed. *)
Theorem mount_handler_calls (w : W) (req : Request) (name : string) :
  calls h (mountHandler req name) w = []
  \/ exists pw,
       passes_validation req name pw
       /\ Forall (mount_call name pw) (calls h (mountHandler req name) w).
Proof.
  destruct (validation_decided req name) as [(pw & Hvalid) | Hinvalid].
  - right. exists pw. split; [exact Hvalid|]. unfold calls.
    rewrite (mountHandler_valid req name pw Hvalid).
    pose proof (mount_after_validation_run h name pw w) as Hrun.
    destruct (run h (mount_after_validation name pw) w) as [[res t] w'].
    cbn [fst snd].
    inversion Hrun as [| | | ? ? ? ? ? ? ? ? ? ? ? ? ? ? ? ? ? ? Hch]; subst;
      try (inversion Hch; subst); cbn [List.app];
      repeat (apply List.Forall_cons; [cbn [mount_call]; eauto|]);
      apply List.Forall_nil.
  - left. unfold calls.
    destruct (mountHandler_invalid h w req name Hinvalid) as (res & -> & _).
    reflexivity.
Qed.

End mount_calls_allowed.

(** ** The list handler, index.ts lines 200-231 *)

Section listing.
Import Listing.
Context {W : Type}.
Variable h : Host W.

Lemma run_statusPromises (files : list string) (w : W) :
  exists answers w',
    length answers = length files
    /\ run h (statusPromises files) w
       = (zip_with (fun name r => (name, status_of r)) files answers,
          zip_with (fun name r => called_exec (is_active_cmd name) r) files answers,
          w').
Proof.
  revert w. induction files as [|name rest IH]; intros w.
  - now exists [], w.
  - cbn [statusPromises]. rewrite run_bind. unfold await. cbn [run].
    destruct (answer h (execAsync (is_active_cmd name)) w) as [r w1].
    rewrite run_bind. destruct (IH w1) as (answers & w' & Hlen & ->).
    exists (r :: answers), w'. split; [simpl; now rewrite Hlen|].
    cbn. now rewrite app_nil_r.
Qed.

Lemma lookup_map_status (k : string) (props : list (string * string)) :
  lookup_prop k (map (fun '(name, status) => (name, JStr status)) props)
  = JStr <$> (snd <$> List.find (fun p => seq p.1 k) props).
Proof.
  induction props as [|[k' v'] rest IH]; [reflexivity|].
  cbn [map lookup_prop List.find fst]. now destruct (seq k' k).
Qed.

Lemma find_replace (k k' : string) (v : string) (acc : list (string * string)) :
  existsb (fun p => seq p.1 k) acc = true ->
  snd <$> List.find (fun p => seq p.1 k')
            (map (fun p => if seq p.1 k then (k, v) else p) acc)
  = if seq k k' then Some v else snd <$> List.find (fun p => seq p.1 k') acc.
Proof.
  destruct (seq k k') eqn:Hk.
  - apply seq_true in Hk. subst k'.
    induction acc as [|[k0 v0] rest IH]; [discriminate|].
    cbn [existsb map List.find fst]. intros Hex.
    destruct (seq k0 k) eqn:H0; cbn [List.find fst].
    + assert (Hrefl : seq k k = true) by now apply seq_true.
      now rewrite Hrefl.
    + rewrite H0. now apply IH.
  - intros _. induction acc as [|[k0 v0] rest IH]; [reflexivity|].
    cbn [map List.find fst].
    destruct (seq k0 k) eqn:H0; cbn [List.find fst].
    + apply seq_true in H0. subst k0. now rewrite Hk.
    + now destruct (seq k0 k').
Qed.

Lemma find_insert_index (i : Z) (k k' : string) (v : string)
    (acc : list (string * string)) :
  existsb (fun p => seq p.1 k) acc = false ->
  snd <$> List.find (fun p => seq p.1 k') (insert_index i k v acc)
  = if seq k k' then Some v else snd <$> List.find (fun p => seq p.1 k') acc.
Proof.
  induction acc as [|[k0 v0] rest IH]; cbn [existsb insert_index fst]; intros Hex.
  - cbn [List.find fst]. now destruct (seq k k').
  - apply orb_false_iff in Hex as [H0 Hrest].
    destruct (array_index k0) as [j|]; [destruct (i <? j)|];
      try (cbn [List.find fst]; now destruct (seq k k')).
    cbn [List.find fst]. destruct (seq k0 k') eqn:H1.
    + apply seq_true in H1. subst k0.
      assert (Hne : seq k k' = false)
        by (apply seq_false; apply seq_false in H0; congruence).
      now rewrite Hne.
    + now apply IH.
Qed.

Lemma find_append (k k' : string) (v : string) (acc : list (string * string)) :
  existsb (fun p => seq p.1 k) acc = false ->
  snd <$> List.find (fun p => seq p.1 k') (acc ++ [(k, v)])
  = if seq k k' then Some v else snd <$> List.find (fun p => seq p.1 k') acc.
Proof.
  induction acc as [|[k0 v0] rest IH]; cbn [existsb List.app fst]; intros Hex.
  - cbn [List.find fst]. now destruct (seq k k').
  - apply orb_false_iff in Hex as [H0 Hrest].
    cbn [List.find fst]. destruct (seq k0 k') eqn:H1.
    + apply seq_true in H1. subst k0.
      assert (Hne : seq k k' = false)
        by (apply seq_false; apply seq_false in H0; congruence).
      now rewrite Hne.
    + now apply IH.
Qed.

(** reading a property after an assignment *)
Lemma find_set_property (k k' : string) (v : string)
    (acc : list (string * string)) :
  snd <$> List.find (fun p => seq p.1 k') (set_property acc k v)
  = if seq k "__proto__" then snd <$> List.find (fun p => seq p.1 k') acc
    else if seq k k' then Some v
    else snd <$> List.find (fun p => seq p.1 k') acc.
Proof.
  unfold set_property. destruct (seq k "__proto__"); [reflexivity|].
  destruct (existsb (fun p => seq p.1 k) acc) eqn:Hex.
  - now apply find_replace.
  - destruct (array_index k); [now apply find_insert_index | now apply find_append].
Qed.

Lemma find_statusObject (k : string) (results acc : list (string * string)) :
  k <> "__proto__" ->
  NoDup (map fst results) ->
  snd <$> List.find (fun p => seq p.1 k)
            (fold_left (fun acc '(name, status) => set_property acc name status)
                       results acc)
  = match List.find (fun p => seq p.1 k) results with
    | Some p => Some p.2
    | None => snd <$> List.find (fun p => seq p.1 k) acc
    end.
Proof.
  intros Hk. revert acc.
  induction results as [|[k0 v0] rest IH]; intros acc Hnd; [reflexivity|].
  cbn [map fst] in Hnd. apply NoDup_cons in Hnd as [Hnotin Hnd].
  cbn [fold_left List.find fst]. rewrite (IH _ Hnd), find_set_property.
  destruct (seq k0 k) eqn:H0.
  - apply seq_true in H0. subst k0.
    assert (Hnone : List.find (fun p => seq p.1 k) rest = None).
    { destruct (List.find (fun p => seq p.1 k) rest) as [[k1 v1]|] eqn:Hf;
        [|reflexivity].
      apply find_some in Hf as [Hin Heq]. cbn [fst] in Heq.
      apply seq_true in Heq. subst k1. destruct Hnotin.
      apply list_elem_of_In, in_map_iff. now exists (k, v1). }
    rewrite Hnone. apply seq_false in Hk. now rewrite Hk.
  - destruct (List.find (fun p => seq p.1 k) rest); [reflexivity|].
    now destruct (seq k0 "__proto__").
Qed.

(** without index keys and [__proto__], the object keeps the order of the
    assignments *)
Lemma statusObject_plain (results acc : list (string * string)) :
  NoDup (map fst acc ++ map fst results) ->
  Forall (fun p => p.1 <> "__proto__" /\ array_index p.1 = None) results ->
  fold_left (fun acc '(name, status) => set_property acc name status) results acc
  = acc ++ results.
Proof.
  revert acc. induction results as [|[k v] rest IH]; intros acc Hnd Hplain.
  - now rewrite app_nil_r.
  - inversion Hplain as [|? ? [Hproto Hidx] Hrest]; subst. cbn [fst] in *.
    cbn [fold_left]. unfold set_property at 2.
    apply seq_false in Hproto. rewrite Hproto, Hidx.
    assert (Hex : existsb (fun p => seq p.1 k) acc = false).
    { apply not_true_iff_false. intros Hex. apply existsb_exists in Hex.
      destruct Hex as ([k1 v1] & Hin & Heq). cbn [fst] in Heq.
      apply seq_true in Heq. subst k1.
      apply NoDup_app in Hnd as (_ & Hdisj & _).
      apply (Hdisj k).
      - apply list_elem_of_In, in_map_iff. now exists (k, v1).
      - cbn [map fst]. apply list_elem_of_here. }
    rewrite Hex. rewrite IH; [now rewrite <- app_assoc | | exact Hrest].
    rewrite map_app. cbn [map fst]. rewrite <- app_assoc. exact Hnd.
Qed.

(** X22.  When the directory of pipes is read, the list handler always
    answers 200: it runs one [is-active] query per entry, in the order of
    the directory, and a query that fails makes that entry "unmounted"
    instead of failing the request.  Every entry but one named
    [__proto__] is a key of the answer, "mounted" exactly when its query
    printed "active" (the test of the mount and unmount handlers).  When
    no entry is a numeral or [__proto__], the keys come in the order of
    the directory. *)
Theorem list_reports_every_entry (files : list string) (w : W) :
  NoDup files ->
  exists answers,
    length answers = length files
    /\ calls h (listHandler (inr files)) w
       = zip_with (fun name r => called_exec (is_active_cmd name) r) files answers
    /\ statusCode (result h (listHandler (inr files)) w) = 200
    /\ (forall i name r,
          files !! i = Some name -> answers !! i = Some r ->
          name <> "__proto__" ->
          get_prop name (payload (result h (listHandler (inr files)) w))
          = Some (JStr (if reports_active r then "mounted" else "unmounted")))
    /\ get_prop "__proto__" (payload (result h (listHandler (inr files)) w)) = None
    /\ (Forall (fun name => name <> "__proto__" /\ array_index name = None) files ->
        payload (result h (listHandler (inr files)) w)
        = JObj (zip_with (fun name r => (name, JStr (status_of r))) files answers)).
Proof.
  intros Hnd. unfold calls, result. cbn [listHandler]. rewrite run_bind.
  destruct (run_statusPromises files w) as (answers & w' & Hlen & ->).
  cbn [run fst snd]. rewrite app_nil_r. cbn [res_json status_json payload statusCode].
  exists answers. split; [exact Hlen|]. split; [reflexivity|].
  split; [reflexivity|].
  set (results := zip_with (fun name r => (name, status_of r)) files answers).
  assert (Hkeys : map fst results = files).
  { subst results. clear -Hlen. revert answers Hlen.
    induction files as [|n l IH]; intros [|r rs] Hlen; try discriminate;
      [reflexivity|]. cbn. f_equal. apply IH. now injection Hlen. }
  cbn [get_prop]. unfold statusObject. split; [|split].
  - intros i name r Hi Hr Hname. rewrite lookup_map_status.
    rewrite (find_statusObject name results [] Hname)
      by (rewrite Hkeys; exact Hnd).
    assert (Hfind : List.find (fun p => seq p.1 name) results
                    = Some (name, status_of r)).
    { subst results. clear -Hnd Hi Hr. revert i answers Hi Hr.
      induction files as [|n l IH]; intros i answers Hi Hr; [discriminate|].
      apply NoDup_cons in Hnd as [Hnotin Hnd].
      destruct answers as [|r0 rs]; [destruct i; discriminate|].
      destruct i as [|i]; cbn in Hi, Hr.
      - injection Hi as ->. injection Hr as ->. cbn [zip_with List.find fst].
        assert (Hrefl : seq name name = true) by now apply seq_true.
        now rewrite Hrefl.
      - cbn [zip_with List.find fst].
        assert (Hne : seq n name = false).
        { apply seq_false. intros ->. apply Hnotin.
          now apply list_elem_of_lookup_2 with i. }
        rewrite Hne. now apply (IH Hnd i rs). }
    rewrite Hfind. reflexivity.
  - rewrite lookup_map_status.
    assert (Hnone : forall results acc : list (string * string),
      List.find (fun p => seq p.1 "__proto__") acc = None ->
      List.find (fun p => seq p.1 "__proto__")
        (fold_left (fun acc '(name, status) => set_property acc name status)
                   results acc) = None).
    { clear. induction results as [|[k v] rest IH]; intros acc Hacc; [exact Hacc|].
      cbn [fold_left]. apply IH.
      pose proof (find_set_property k "__proto__" v acc) as Hset.
      destruct (seq k "__proto__"); rewrite Hacc in Hset; cbn in Hset;
        now destruct (List.find _ (set_property acc k v)). }
    now rewrite (Hnone results [] eq_refl).
  - intros Hplain. f_equal.
    rewrite (statusObject_plain results []).
    + subst results. clear. revert answers.
      induction files as [|n l IH]; intros [|r rs]; try reflexivity.
      cbn. f_equal. apply IH.
    + cbn [map List.app]. rewrite Hkeys. exact Hnd.
    + subst results. clear -Hplain. revert answers.
      induction files as [|n l IH]; intros [|r rs]; try constructor.
      * inversion Hplain; subst. assumption.
      * inversion Hplain; subst. now apply IH.
Qed.

End listing.

(** X22, witness: a directory with two pipes. *)
Lemma list_reports_every_entry_witness :
  statusCode (result (Demo.scripted Demo.mounted)
                     (Listing.listHandler (inr ["vault"; "backup"])) tt) = 200.
Proof.
  destruct (list_reports_every_entry (Demo.scripted Demo.mounted)
              ["vault"; "backup"] tt
              ltac:(apply (bool_decide_unpack _); vm_compute; exact I))
    as (answers & _ & _ & H200 & _).
  exact H200.
Defined.

(** The order of the keys when entries are numerals: "2" and "10" come
    first, in the order of the numbers, and an entry [__proto__] is
    dropped. *)
Remark list_puts_numerals_first :
  payload (result (Demo.scripted Demo.mounted)
             (Listing.listHandler (inr ["vault"; "10"; "__proto__"; "2"])) tt)
  = JObj [("2", JStr "mounted"); ("10", JStr "mounted"); ("vault", JStr "mounted")].
Proof. vm_compute. reflexivity. Qed.

(** ** Binding the address, index.ts lines 152-185 *)

Section startup.
Import Startup.
Context {W : Type}.
Variable n : Node W.
Variable PORT : Z.
Variable LISTEN_ADDRESS : string.
Variables maxWaitMs intervalMs : Z.

Lemma tryListen_loop_S (fuel : nat) (startTime : Z) (w : W) :
  tryListen_loop n PORT LISTEN_ADDRESS maxWaitMs intervalMs (S fuel) startTime w
  = let '(outcome, w1) := app_listen n PORT LISTEN_ADDRESS w in
    match outcome with
    | inr server => Some (inr server, 1%nat, w1)
    | inl err =>
        if is_address_error err then
          if maxWaitMs <? Date_now n w1 - startTime then
            Some (inl (timed_out (timeout_message LISTEN_ADDRESS)), 1%nat, w1)
          else
            match tryListen_loop n PORT LISTEN_ADDRESS maxWaitMs intervalMs fuel
                    startTime (setTimeout n intervalMs w1) with
            | Some (r, attempts, w') => Some (r, S attempts, w')
            | None => None
            end
        else Some (inl (rethrown err), 1%nat, w1)
    end.
Proof. reflexivity. Qed.

(** more fuel changes nothing once the loop has ended *)
Lemma tryListen_loop_more (fuel : nat) (startTime : Z) (w : W) r :
  tryListen_loop n PORT LISTEN_ADDRESS maxWaitMs intervalMs fuel startTime w
  = Some r ->
  tryListen_loop n PORT LISTEN_ADDRESS maxWaitMs intervalMs (S fuel) startTime w
  = Some r.
Proof.
  revert w r. induction fuel as [|fuel IH]; intros w r; [discriminate|].
  intros Hrun. rewrite tryListen_loop_S in Hrun. rewrite tryListen_loop_S.
  destruct (app_listen n PORT LISTEN_ADDRESS w) as [[err|server] w1];
    [|exact Hrun].
  destruct (is_address_error err); [|exact Hrun].
  destruct (maxWaitMs <? Date_now n w1 - startTime); [exact Hrun|].
  destruct (tryListen_loop n PORT LISTEN_ADDRESS maxWaitMs intervalMs fuel
              startTime (setTimeout n intervalMs w1))
    as [[[r' k] w']|] eqn:Hrest; [|discriminate].
  now rewrite (IH _ _ Hrest).
Qed.

Lemma tryListen_loop_ends (fuel : nat) (startTime : Z) (w : W) :
  clock_advances n PORT LISTEN_ADDRESS ->
  0 < intervalMs ->
  startTime + maxWaitMs - Date_now n w < Z.of_nat fuel * intervalMs ->
  exists r attempts w',
    tryListen_loop n PORT LISTEN_ADDRESS maxWaitMs intervalMs (S fuel) startTime w
    = Some (r, attempts, w')
    /\ (1 <= attempts <= S fuel)%nat
    /\ (forall msg, r = inl (timed_out msg) ->
          maxWaitMs < Date_now n w' - startTime).
Proof.
  intros [Hlisten Hwait] Hinterval. revert w.
  induction fuel as [|fuel IH]; intros w Hleft.
  - cbn [tryListen_loop]. pose proof (Hlisten w) as Hclock.
    destruct (app_listen n PORT LISTEN_ADDRESS w) as [[err|server] w1].
    + cbn [snd] in Hclock. destruct (is_address_error err).
      * destruct (Z.ltb_spec maxWaitMs (Date_now n w1 - startTime)) as [Hlate|Hearly];
          [|lia].
        eexists _, _, _. split; [reflexivity|]. split; [lia|]. now intros.
      * eexists _, _, _. split; [reflexivity|]. split; [lia|]. discriminate.
    + eexists _, _, _. split; [reflexivity|]. split; [lia|]. discriminate.
  - rewrite tryListen_loop_S.
    pose proof (Hlisten w) as Hclock.
    destruct (app_listen n PORT LISTEN_ADDRESS w) as [[err|server] w1].
    + cbn [snd] in Hclock. destruct (is_address_error err).
      * destruct (Z.ltb_spec maxWaitMs (Date_now n w1 - startTime)) as [Hlate|Hearly].
        { eexists _, _, _. split; [reflexivity|]. split; [lia|]. now intros. }
        pose proof (Hwait intervalMs w1) as Hslept.
        destruct (IH (setTimeout n intervalMs w1)) as (r & k & w' & -> & Hk & Hlate);
          [lia|].
        eexists _, _, _. split; [reflexivity|]. split; [lia|]. exact Hlate.
      * eexists _, _, _. split; [reflexivity|]. split; [lia|]. discriminate.
    + eexists _, _, _. split; [reflexivity|]. split; [lia|]. discriminate.
Qed.

(** X23.  [tryListen] ends: on a process whose clock does not go back
    during a [listen] and advances by the interval at least during each
    wait, it returns a server or throws after at most
    [maxWaitMs / intervalMs + 2] calls of [app.listen] (62 with the
    defaults), and at least one even when [maxWaitMs] is 0; unfolding the
    loop further changes nothing; and the time-out is thrown only when
    the clock read more than [maxWaitMs] after the start. *)
Theorem tryListen_ends (w : W) :
  clock_advances n PORT LISTEN_ADDRESS ->
  0 < intervalMs ->
  0 <= maxWaitMs ->
  let bound := (Z.to_nat (maxWaitMs / intervalMs) + 2)%nat in
  exists r attempts w',
    (forall fuel, (bound <= fuel)%nat ->
       tryListen n PORT LISTEN_ADDRESS maxWaitMs intervalMs fuel w
       = Some (r, attempts, w'))
    /\ (1 <= attempts <= bound)%nat
    /\ (forall msg, r = inl (timed_out msg) ->
          maxWaitMs < Date_now n w' - Date_now n w).
Proof.
  intros Hclock Hinterval Hmax bound. unfold tryListen.
  destruct (tryListen_loop_ends (Z.to_nat (maxWaitMs / intervalMs) + 1)
              (Date_now n w) w Hclock Hinterval)
    as (r & k & w' & Hrun & Hk & Hlate).
  { rewrite Nat2Z.inj_add, Z2Nat.id by (apply Z.div_pos; lia).
    pose proof (Z.mod_pos_bound maxWaitMs intervalMs Hinterval).
    pose proof (Z.div_mod maxWaitMs intervalMs ltac:(lia)). nia. }
  exists r, k, w'. split; [|split; [subst bound; lia | exact Hlate]].
  intros fuel Hfuel.
  replace fuel with ((fuel - bound) + bound)%nat by lia.
  induction (fuel - bound)%nat as [|d IHd].
  - subst bound. cbn [Nat.add].
    replace (Z.to_nat (maxWaitMs / intervalMs) + 2)%nat
      with (S (Z.to_nat (maxWaitMs / intervalMs) + 1)) by lia.
    exact Hrun.
  - change (S d + bound)%nat with (S (d + bound)).
    now apply tryListen_loop_more.
Qed.

End startup.

(** X23, witness: a process whose address becomes available 2.5 seconds
    after the start, with the default waits. *)
Lemma tryListen_ends_witness :
  exists r attempts w',
    (forall fuel, (62 <= fuel)%nat ->
       Startup.tryListen (Startup.ready_at 2500 "EADDRNOTAVAIL") 3456 "10.0.0.1"
         60000 1000 fuel 0
       = Some (r, attempts, w'))
    /\ (1 <= attempts <= 62)%nat
    /\ (forall msg, r = inl (Startup.timed_out msg) -> 60000 < w' - 0).
Proof.
  apply (tryListen_ends (Startup.ready_at 2500 "EADDRNOTAVAIL") 3456 "10.0.0.1"
           60000 1000 0).
  - split; intros; cbn; lia.
  - lia.
  - lia.
Defined.

(** On that process the loop makes four calls; on one whose address
    never becomes available it gives up at the 61st, after the minute; an
    error that is no address error is thrown at the first. *)
Remark tryListen_on_a_late_address :
  Startup.tryListen (Startup.ready_at 2500 "EADDRNOTAVAIL") 3456 "10.0.0.1"
    60000 1000 62 0
  = Some (inr 1%nat, 4%nat, 3004)
  /\ Startup.tryListen (Startup.ready_at 1000000 "EADDRINUSE") 3456 "10.0.0.1"
       60000 1000 62 0
     = Some (inl (Startup.timed_out
                    "Timed out waiting for address 10.0.0.1 to become available"),
             61%nat, 60061)
  /\ Startup.tryListen (Startup.ready_at 1000000 "EACCES") 3456 "10.0.0.1"
       60000 1000 62 0
     = Some (inl (Startup.rethrown
                    {| Startup.code := Some "EACCES";
                       Startup.message := "listen EACCES" |}), 1%nat, 1).
Proof. vm_compute. repeat split. Qed.

(** ** How long a limiter remembers, index.ts lines 24-41 *)

Lemma increment_window (o : Options) (now t : Z) (key : string)
    (s : gmap string Client) :
  (forall k c, s !! k = Some c -> resetTime c <= t) ->
  t <= now + windowMs o ->
  forall k c, (increment o now key s).2 !! k = Some c ->
              resetTime c <= now + windowMs o.
Proof.
  intros Hs Ht k c. unfold increment. cbn [snd].
  destruct (decide (key = k)) as [->|Hne].
  - rewrite lookup_insert_eq. intros [= <-]. cbn [resetTime].
    destruct (s !! k) as [c0|] eqn:Hk; [|cbn; lia].
    destruct (resetTime c0 <=? now); [cbn; lia|].
    specialize (Hs k c0 Hk). lia.
  - rewrite lookup_insert_ne by exact Hne. intros Hk.
    specialize (Hs k c Hk). lia.
Qed.

Lemma decrement_window (t : Z) (key : string) (s : gmap string Client) :
  (forall k c, s !! k = Some c -> resetTime c <= t) ->
  forall k c, decrement key s !! k = Some c -> resetTime c <= t.
Proof.
  intros Hs k c. unfold decrement.
  destruct (s !! key) as [c0|] eqn:Hkey; [|apply Hs].
  destruct (totalHits c0); [apply Hs|].
  destruct (decide (key = k)) as [->|Hne].
  - rewrite lookup_insert_eq. intros [= <-]. cbn [resetTime]. now apply (Hs k).
  - rewrite lookup_insert_ne by exact Hne. apply Hs.
Qed.

Section windows.
Context `{Crypto}.
Variable allowed : list string.

Lemma app_windows {W} (h : Host W) (w : W) (now t : Z) (req : Request)
    (r : Route) (st : AppState) :
  windows_close_by t st ->
  t <= now + 900000 ->
  windows_close_by (now + 900000) (run h (app allowed now req r st) w).1.1.2.
Proof.
  intros Hst Ht.
  assert (Hauth0 : forall k c, authFailures st !! k = Some c -> resetTime c <= t)
    by (intros k c Hk; apply (Hst k c); now left).
  assert (Hmount0 : forall k c, mountFailures st !! k = Some c -> resetTime c <= t)
    by (intros k c Hk; apply (Hst k c); now right).
  pose (bounded := fun s : gmap string Client =>
                     forall k c, s !! k = Some c -> resetTime c <= now + 900000).
  assert (Hpack : forall st' : AppState,
            bounded (authFailures st') -> bounded (mountFailures st') ->
            windows_close_by (now + 900000) st').
  { intros st' Ha Hm k c [Hk|Hk]; [now apply (Ha k) | now apply (Hm k)]. }
  assert (Hm0 : bounded (mountFailures st))
    by (intros k c Hk; specialize (Hmount0 k c Hk); lia).
  assert (Ha1 : bounded (increment authFailureOptions now (ip req) (authFailures st)).2)
    by (intros k c Hk;
        exact (increment_window authFailureOptions now t (ip req) (authFailures st)
                 Hauth0 Ht k c Hk)).
  assert (Hdec : forall s, bounded s -> bounded (decrement (ip req) s))
    by (intros s Hs k c Hk; exact (decrement_window _ (ip req) s Hs k c Hk)).
  assert (Hinc : forall s, bounded s ->
            bounded (increment mountOptions now (ip req) s).2)
    by (intros s Hs k c Hk;
        exact (increment_window mountOptions now (now + 900000) (ip req) s
                 Hs (Z.le_refl _) k c Hk)).
  unfold app, authFailureLimiter. rewrite run_rateLimit. cbv zeta.
  set (st1 := set_authFailures
                (increment authFailureOptions now (ip req) (authFailures st)).2 st).
  assert (H1a : bounded (authFailures st1)) by exact Ha1.
  assert (H1m : bounded (mountFailures st1)) by exact Hm0.
  assert (Hfinish : forall (st2 : AppState) (b : bool),
            bounded (authFailures st2) -> bounded (mountFailures st2) ->
            windows_close_by (now + 900000)
              (if b then set_authFailures (decrement (ip req) (authFailures st2)) st2
               else st2)).
  { intros st2 [|] Ha Hm; apply Hpack; cbn [set_authFailures authFailures mountFailures];
      auto. }
  destruct (_ <? _)%nat; [cbn [run fst snd]; now apply Hpack|].
  destruct (verifySignature allowed now req) as [|res].
  - assert (Hroute :
      bounded (authFailures (run h (route now req r st1) w).1.1.2)
      /\ bounded (mountFailures (run h (route now req r st1) w).1.1.2)).
    { assert (Hlim : forall p : Prog Response,
        bounded (authFailures (run h (mountLimiter now (ip req) (handler p) st1) w).1.1.2)
        /\ bounded (mountFailures
                      (run h (mountLimiter now (ip req) (handler p) st1) w).1.1.2)).
      { intros p. unfold mountLimiter. rewrite run_rateLimit. cbv zeta.
        destruct (_ <? _)%nat.
        - cbn [run fst snd set_mountFailures authFailures mountFailures].
          split; [exact H1a | now apply Hinc].
        - rewrite run_handler. destruct (run h p w) as [[res t'] w'].
          cbn [fst snd].
          destruct (skipSuccessfulRequests mountOptions && requestWasSuccessful res);
            cbn [set_mountFailures authFailures mountFailures];
            (split; [exact H1a|]); auto. }
      destruct r as [| name | name]; [|apply Hlim | apply Hlim].
      unfold route. rewrite run_handler. cbn. now split. }
    destruct (run h (route now req r st1) w) as [[[res st2] t'] w'].
    cbn [fst snd] in *. destruct Hroute as [Ha Hm]. now apply Hfinish.
  - cbn [run fst snd]. now apply Hfinish.
Qed.

(** X24.  No client is locked out for more than fifteen minutes: on a
    server that started with empty stores and has received any requests,
    in the order of their times, every window of both limiters has closed
    900000 ms after the last of them, and every client counts no hit
    then. *)
Theorem lockout_is_bounded {W} (h : Host W) (w : W) (t0 : Z)
    (reqs : list (Z * Request * Route)) :
  in_order t0 reqs ->
  forall now req,
    last_time t0 reqs + 900000 <= now ->
    auth_hits now req (serve allowed h reqs initial w).1.2 = O
    /\ mount_hits now req (serve allowed h reqs initial w).1.2 = O.
Proof.
  intros Horder.
  assert (Hinv : forall reqs t0 st w,
            in_order t0 reqs -> windows_close_by (t0 + 900000) st ->
            windows_close_by (last_time t0 reqs + 900000)
              (serve allowed h reqs st w).1.2).
  { clear. induction reqs as [|[[t req] r] rest IH]; intros t0 st w Hord Hst;
      [exact Hst|].
    destruct Hord as [Ht Hrest]. cbn [serve last_time].
    pose proof (app_windows h w t (t0 + 900000) req r st Hst ltac:(lia)) as Hstep.
    destruct (run h (app allowed t req r st) w) as [[[res st1] tr] w1].
    cbn [fst snd] in Hstep.
    specialize (IH t st1 w1 Hrest Hstep).
    destruct (serve allowed h rest st1 w1) as [[out st2] w2]. exact IH. }
  assert (Hinit : windows_close_by (t0 + 900000) initial).
  { intros key c [Hk|Hk]; cbn in Hk; rewrite lookup_empty in Hk; discriminate. }
  specialize (Hinv reqs t0 initial w Horder Hinit).
  intros now req Hnow. unfold auth_hits, mount_hits, hits. split.
  - destruct (authFailures _ !! ip req) as [c|] eqn:Hk; [|reflexivity].
    assert (Hc : resetTime c <= last_time t0 reqs + 900000)
      by (apply (Hinv (ip req) c); now left).
    destruct (Z.leb_spec (resetTime c) now); [reflexivity | lia].
  - destruct (mountFailures _ !! ip req) as [c|] eqn:Hk; [|reflexivity].
    assert (Hc : resetTime c <= last_time t0 reqs + 900000)
      by (apply (Hinv (ip req) c); now right).
    destruct (Z.leb_spec (resetTime c) now); [reflexivity | lia].
Qed.

End windows.

(** X24, witness: twenty-one requests without headers in the same
    millisecond; the last one is denied, and fifteen minutes later the
    client counts no hit. *)
Lemma lockout_is_bounded_witness :
  let reqs := repeat (Demo.now, Demo.unsigned_mount_vault, POST_mount "vault") 21 in
  let served := @serve Demo.demo_crypto unit [Demo.key_hex]
                  (Demo.scripted Demo.listening) reqs initial tt in
  auth_hits Demo.now Demo.unsigned_mount_vault served.1.2 = 21%nat
  /\ auth_hits (Demo.now + 900000) Demo.unsigned_mount_vault served.1.2 = 0%nat.
Proof.
  split; [by_computation|].
  refine (proj1 (@lockout_is_bounded Demo.demo_crypto [Demo.key_hex] unit
                   (Demo.scripted Demo.listening) tt Demo.now
                   (repeat (Demo.now, Demo.unsigned_mount_vault, POST_mount "vault") 21)
                   _ (Demo.now + 900000) Demo.unsigned_mount_vault _)).
  - cbn. repeat split; lia.
  - by_computation.
Defined.
